(** * pyemsi: the FEMAP Neutral file parser ([pyemsi/femap_parser.pyx])

    A shallow embedding of [FEMAPParser] and proofs about its block
    scanner, its tokenizer and its typed extractors.

    Conventions of the embedding.
    - A Python [str] is a [string]; its characters are the code points
      below 256.  Whitespace is what [str.strip] and [str.split] treat as
      whitespace on those code points.
    - A Python [dict] keyed by integers is a [gmap Z _]; a Python [list] is
      a [list].
    - A [cdef int] is a [Z] in the range of a 32-bit signed integer: the
      conversion of a Python integer into it raises [OverflowError] out of
      range, and C arithmetic on it is written with its wrap-around.
    - [float(...)] is the runtime's conversion; the development is
      parametric in it (class [FloatConv]).
    - A [while] loop is a fixpoint on a fuel argument that is given the
      number of lines; running out of fuel is a separate outcome
      ([OutOfFuel]) that is proved not to happen. *)

From Stdlib Require Import ZArith String Ascii List Lia Bool.
From stdpp Require Import gmap strings list fin_maps.

Open Scope string_scope.
Open Scope list_scope.

(** ** Python strings *)

Module PyStr.

(** [str.isspace] on one character (code points below 256). *)
Definition is_space (c : ascii) : bool :=
  let n := nat_of_ascii c in
  ((9 <=? n)%nat && (n <=? 13)%nat) || ((28 <=? n)%nat && (n <=? 32)%nat)
  || (n =? 133)%nat || (n =? 160)%nat.

Definition is_comma (c : ascii) : bool := Ascii.eqb c ",".
Definition is_newline (c : ascii) : bool := Ascii.eqb c "010".

Definition nonempty (s : string) : bool :=
  match s with EmptyString => false | String _ _ => true end.

(** [s.lstrip(chars)]: drop the leading characters that satisfy [p]. *)
Fixpoint lstrip_by (p : ascii -> bool) (s : string) : string :=
  match s with
  | EmptyString => EmptyString
  | String c s' => if p c then lstrip_by p s' else s
  end.

(** [s.rstrip(chars)]: drop the trailing characters that satisfy [p]. *)
Fixpoint rstrip_by (p : ascii -> bool) (s : string) : string :=
  match s with
  | EmptyString => EmptyString
  | String c s' =>
      match rstrip_by p s' with
      | EmptyString => if p c then EmptyString else String c EmptyString
      | r => String c r
      end
  end.

(** [s.strip()], [s.rstrip()], [s.rstrip(",")], [s.rstrip("\n")]. *)
Definition strip (s : string) : string := lstrip_by is_space (rstrip_by is_space s).
Definition rstrip (s : string) : string := rstrip_by is_space s.
Definition rstrip_comma (s : string) : string := rstrip_by is_comma s.
Definition rstrip_newline (s : string) : string := rstrip_by is_newline s.

(** [sub in s] for a one-character [sub]. *)
Fixpoint contains (p : ascii -> bool) (s : string) : bool :=
  match s with
  | EmptyString => false
  | String c s' => p c || contains p s'
  end.

(** [s.replace(",", " ")]. *)
Fixpoint replace_comma (s : string) : string :=
  match s with
  | EmptyString => EmptyString
  | String c s' => String (if is_comma c then " "%char else c) (replace_comma s')
  end.

(** [s.split(sep)] for a one-character separator: a string with k
    separators gives k + 1 pieces, empty ones included. *)
Fixpoint split_by (sep : ascii -> bool) (s : string) : list string :=
  match s with
  | EmptyString => [EmptyString]
  | String c s' =>
      if sep c then EmptyString :: split_by sep s'
      else match split_by sep s' with
           | [] => [String c EmptyString]
           | f :: fs => String c f :: fs
           end
  end.

(** [s.split()]: the pieces between runs of whitespace, that is the
    non-empty pieces between whitespace characters. *)
Definition split_ws (s : string) : list string :=
  List.filter nonempty (split_by is_space s).

End PyStr.

Import PyStr.

(** ** The tokenizer: [FEMAPParser._parse_csv_line_fast] *)

Definition _parse_csv_line_fast (line : string) : list string :=
  let stripped := strip (rstrip_comma line) in
  if contains is_comma stripped then
    List.map strip (List.filter (fun p => nonempty (strip p)) (split_by is_comma stripped))
  else
    split_ws stripped.

(** [FEMAPParser.parse_csv_line], the public wrapper. *)
Definition parse_csv_line (line : string) : list string :=
  _parse_csv_line_fast line.

(** ** Exceptions and outcomes *)

Inductive exn := ValueError | IndexError | OverflowError.

(** The outcome of a computation: a value, a raised exception, or a loop
    that used up its fuel. *)
Inductive res (A : Type) : Type :=
| Ok (a : A)
| Raise (e : exn)
| OutOfFuel.
Arguments Ok {A} a.
Arguments Raise {A} e.
Arguments OutOfFuel {A}.

Definition res_bind {A B : Type} (r : res A) (k : A -> res B) : res B :=
  match r with
  | Ok a => k a
  | Raise e => Raise e
  | OutOfFuel => OutOfFuel
  end.

#[global] Instance res_mbind : MBind res := fun A B k r => res_bind r k.
#[global] Instance res_fmap : FMap res := fun A B f r => res_bind r (fun a => Ok (f a)).

(** [except (ValueError, IndexError)] and [except ValueError]. *)
Definition caught (e : exn) : bool :=
  match e with ValueError | IndexError => true | OverflowError => false end.
Definition caught_value (e : exn) : bool :=
  match e with ValueError => true | IndexError | OverflowError => false end.

(** [try: body except (ValueError, IndexError): handler]. *)
Definition try_except {A : Type} (body : res A) (handler : res A) : res A :=
  match body with
  | Raise e => if caught e then handler else Raise e
  | r => r
  end.

(** [parts[k]]: IndexError out of range. *)
Definition item (parts : list string) (k : nat) : res string :=
  match nth_error parts k with
  | Some s => Ok s
  | None => Raise IndexError
  end.

(** ** Integers *)

Module PyInt.

Definition digit_of (c : ascii) : option Z :=
  let n := nat_of_ascii c in
  if (48 <=? n)%nat && (n <=? 57)%nat then Some (Z.of_nat (n - 48)) else None.

(** The digits of a decimal literal; single underscores may separate
    digits.  [acc] is the value read so far and [after_digit] tells whether
    the previous character was a digit. *)
Fixpoint int_digits (s : string) (acc : Z) (after_digit : bool) : option Z :=
  match s with
  | EmptyString => if after_digit then Some acc else None
  | String c s' =>
      if Ascii.eqb c "_" then
        if after_digit then int_digits s' acc false else None
      else
        match digit_of c with
        | Some d => int_digits s' (10 * acc + d)%Z true
        | None => None
        end
  end.

(** [int(s)] of a string, base 10: surrounding whitespace, an optional
    sign, digits.  [None] is ValueError.  (CPython's limit on the number of
    digits of a literal, 4300 by default, is not modelled.) *)
Definition py_int (s : string) : option Z :=
  match strip s with
  | String "+" r => int_digits r 0%Z false
  | String "-" r => Z.opp <$> int_digits r 0%Z false
  | t => int_digits t 0%Z false
  end.

Definition INT_MIN : Z := (-2147483648)%Z.
Definition INT_MAX : Z := 2147483647%Z.

Definition in_int_range (z : Z) : bool := (INT_MIN <=? z)%Z && (z <=? INT_MAX)%Z.

(** The value a C [int] holds after arithmetic whose exact result is [z]. *)
Definition wrap_int (z : Z) : Z := ((z - INT_MIN) mod 4294967296 + INT_MIN)%Z.

(** [x = int(s)] for a [cdef int x]: ValueError when [s] is no integer
    literal, OverflowError when the integer does not fit a C int. *)
Definition c_int (s : string) : res Z :=
  match py_int s with
  | None => Raise ValueError
  | Some z => if in_int_range z then Ok z else Raise OverflowError
  end.

End PyInt.

Import PyInt.

(** ** Floats *)

(** [float(s)] is the runtime's: [double] is the type of its results,
    [py_float s = None] stands for ValueError and [zero] is [0.0]. *)
Class FloatConv := {
  double : Type;
  py_float : string -> option double;
  zero : double
}.

Definition c_float `{FloatConv} (s : string) : res double :=
  match py_float s with
  | Some x => Ok x
  | None => Raise ValueError
  end.

(** [[float(v) for v in parts]]. *)
Fixpoint floats `{FloatConv} (parts : list string) : res (list double) :=
  match parts with
  | [] => Ok []
  | p :: ps => x ← c_float p; xs ← floats ps; Ok (x :: xs)
  end.

(** ** Blocks *)

Record FEMAPBlock := { block_id : Z; lines : list string }.

(** [self.BLOCK_DELIMITER]: three spaces and [-1]. *)
Definition BLOCK_DELIMITER : string := "   -1".

(** [self.blocks.get(block_id, [])]. *)
Definition get_blocks (blocks : gmap Z (list FEMAPBlock)) (id : Z) : list FEMAPBlock :=
  default [] (blocks !! id).

(** [if block_id not in self.blocks: self.blocks[block_id] = []] and
    [self.blocks[block_id].append(block)]. *)
Definition store_block (b : FEMAPBlock) (blocks : gmap Z (list FEMAPBlock))
  : gmap Z (list FEMAPBlock) :=
  <[block_id b := get_blocks blocks (block_id b) ++ [b]]> blocks.

(** ** Line scanners

    Every [while i < n_lines] loop over the lines of a block (or of the
    file) has the same shape: the body reads one record at index [i],
    moves [i] forward and may store what it read.  [step] is the reading
    part of the body: it gives the next index and what was read; [emit] is
    the store into the accumulator. *)

Section Scan.
Context {E A : Type}.
Variable step : list string -> nat -> res (nat * E).
Variable emit : A -> E -> A.

Fixpoint scan_from (fuel : nat) (lines : list string) (i : nat) (acc : A)
  : res (nat * A) :=
  if (i <? length lines)%nat then
    match fuel with
    | O => OutOfFuel
    | S fuel' =>
        '(i', ev) ← step lines i;
        scan_from fuel' lines i' (emit acc ev)
    end
  else Ok (i, acc).

(** [i = 0; n_lines = len(block.lines); while i < n_lines: ...] *)
Definition scan_lines (lines : list string) (acc : A) : res (nat * A) :=
  scan_from (length lines) lines 0 acc.

(** [for block in all_blocks: ...] *)
Fixpoint scan_blocks (all_blocks : list FEMAPBlock) (acc : A) : res A :=
  match all_blocks with
  | [] => Ok acc
  | block :: rest =>
      '(_, acc') ← scan_lines (lines block) acc;
      scan_blocks rest acc'
  end.
End Scan.

(** A [for x in xs] loop whose body may raise. *)
Fixpoint for_each {A B : Type} (body : B -> A -> res A) (xs : list B) (acc : A)
  : res A :=
  match xs with
  | [] => Ok acc
  | x :: rest => acc' ← body x acc; for_each body rest acc'
  end.

(** How a [while] loop with a [break] was left: through the [break], by
    its condition becoming false, or by an exception raised while the
    index variable had the given value. *)
Inductive loop_end (S : Type) : Type :=
| Broke (i : nat) (s : S)
| Exhausted (i : nat) (s : S)
| Raised (e : exn) (i : nat)
| Fuel.
Arguments Broke {S} i s.
Arguments Exhausted {S} i s.
Arguments Raised {S} e i.
Arguments Fuel {S}.

(** ** The block scanner: [FEMAPParser._parse] *)

(** The inner loop of [_parse]: read until next delimiter. *)
Fixpoint collect_block (fuel : nat) (lines : list string) (i : nat)
    (block_lines : list string) : res (nat * list string) :=
  if (i <? length lines)%nat then
    match fuel with
    | O => OutOfFuel
    | S fuel' =>
        let line := rstrip_newline (nth i lines "") in
        if String.eqb line BLOCK_DELIMITER then Ok ((i + 1)%nat, block_lines)
        else collect_block fuel' lines (i + 1) (block_lines ++ [line])
    end
  else Ok (i, block_lines).

(** The body of the outer loop of [_parse] at index [i]: the next index and
    the block that was read, if any.  The handler is [except ValueError]:
    a block ID that does not fit the [cdef int block_id] raises
    OverflowError, which it does not catch. *)
Definition parse_step (lines : list string) (i : nat) : res (nat * option FEMAPBlock) :=
  let n_lines := length lines in
  let line := rstrip_newline (nth i lines "") in
  if String.eqb line BLOCK_DELIMITER then
    if (i + 1 <? n_lines)%nat then
      let next_line := strip (nth (i + 1) lines "") in
      if String.eqb next_line "-1" then Ok ((i + 1)%nat, None)
      else
        match c_int next_line with
        | Ok id =>
            '(i', block_lines) ← collect_block n_lines lines (i + 2) [];
            Ok (i', Some {| block_id := id; lines := block_lines |})
        | Raise e => if caught_value e then Ok ((i + 1)%nat, None) else Raise e
        | OutOfFuel => OutOfFuel
        end
    else Ok ((i + 1)%nat, None)
  else Ok ((i + 1)%nat, None).

Definition store_opt (blocks : gmap Z (list FEMAPBlock)) (b : option FEMAPBlock)
  : gmap Z (list FEMAPBlock) :=
  match b with
  | Some block => store_block block blocks
  | None => blocks
  end.

(** [_parse] on the lines of the file (what [f.readlines()] gave): the
    blocks grouped by ID. *)
Definition _parse (file_lines : list string) : res (gmap Z (list FEMAPBlock)) :=
  snd <$> scan_lines parse_step store_opt file_lines ∅.

(** ** Header: [FEMAPParser.get_header] *)

Record header := { hdr_title : string; hdr_version : string }.

Definition get_header (blocks : gmap Z (list FEMAPBlock)) : option header :=
  match get_blocks blocks 100 with
  | [] => None
  | block :: _ =>
      if (length (lines block) <? 2)%nat then None
      else
        let title := strip (nth 0 (lines block) "") in
        let version := strip (nth 1 (lines block) "") in
        Some {| hdr_title := if String.eqb title "<NULL>" then "" else title;
                hdr_version := version |}
  end.

(** The title slot of blocks 402, 450 and 1051:
    [title = line.strip().rstrip(","); if title == "<NULL>": title = ""]. *)
Definition title_of (line : string) : string :=
  let title := rstrip_comma (strip line) in
  if String.eqb title "<NULL>" then "" else title.

(** [title = ""; if i + 1 < n_lines: title = ...]. *)
Definition title_at (lines : list string) (i : nat) : string :=
  if (i + 1 <? length lines)%nat then title_of (nth (i + 1) lines "") else "".

(** ** Typed extractors *)

Record property := { material_id : Z; prop_title : string }.

Record element := {
  elem_id : Z; elem_prop_id : Z; topology : Z; elem_nodes : list Z
}.

Record material := { mat_id : Z }.

(** The records that hold floats are parametric in the type of floats. *)
Definition coords (D : Type) : Type := (D * D * D)%type.

Record output_set (D : Type) := { set_title : string; set_value : D }.
Arguments set_title {D} _.
Arguments set_value {D} _.

Record output_vector (D : Type) := {
  set_id : Z; vec_id : Z; vec_title : string;
  ent_type : option Z; results : gmap Z D
}.
Arguments set_id {D} _.
Arguments vec_id {D} _.
Arguments vec_title {D} _.
Arguments ent_type {D} _.
Arguments results {D} _.

Section Extractors.
Context `{FloatConv}.

(** *** Nodes, block 403 *)

(** The [try] body of [get_nodes] and of [get_nodes_arrays]: the fields
    of one node record. *)
Definition node_record (parts : list string) : res (Z * coords double) :=
  p0 ← item parts 0; node_id ← c_int p0;
  p11 ← item parts 11; x ← c_float p11;
  p12 ← item parts 12; y ← c_float p12;
  p13 ← item parts 13; z ← c_float p13;
  Ok (node_id, (x, y, z)).

Definition nodes_line (line : string) (nodes : gmap Z (coords double))
  : res (gmap Z (coords double)) :=
  let parts := _parse_csv_line_fast line in
  if (14 <=? length parts)%nat then
    try_except
      ('(node_id, c) ← node_record parts; Ok (<[node_id := c]> nodes))
      (Ok nodes)
  else Ok nodes.

Definition get_nodes (blocks : gmap Z (list FEMAPBlock))
  : res (gmap Z (coords double)) :=
  for_each (fun block nodes => for_each nodes_line (lines block) nodes)
    (get_blocks blocks 403) ∅.

Definition nodes_arrays_line (line : string) (acc : list Z * list (coords double))
  : res (list Z * list (coords double)) :=
  let '(node_list, coord_list) := acc in
  let parts := _parse_csv_line_fast line in
  if (14 <=? length parts)%nat then
    try_except
      ('(node_id, c) ← node_record parts; Ok (node_list ++ [node_id], coord_list ++ [c]))
      (Ok acc)
  else Ok acc.

(** The two Python lists [node_list] and [coord_list] that
    [get_nodes_arrays] fills. *)
Definition node_lists (blocks : gmap Z (list FEMAPBlock))
  : res (list Z * list (coords double)) :=
  for_each (fun block acc => for_each nodes_arrays_line (lines block) acc)
    (get_blocks blocks 403) ([], []).

(** The pair ([node_ids], [coords]); the rows of the arrays are the
    elements of the two lists.  [coords] is declared
    [np.ndarray[np.float64_t, ndim=2]]: with no row at all,
    [np.array([], dtype=np.float64)] has one dimension and the assignment
    to the two-dimensional buffer raises ValueError. *)
Definition get_nodes_arrays (blocks : gmap Z (list FEMAPBlock))
  : res (list Z * list (coords double)) :=
  '(node_list, coord_list) ← node_lists blocks;
  match coord_list with
  | [] => Raise ValueError
  | _ :: _ => Ok (node_list, coord_list)
  end.

(** *** Properties, block 402 *)

Definition property_record (lines : list string) (i : nat) (parts : list string)
  : res (Z * property) :=
  p0 ← item parts 0; prop_id ← c_int p0;
  p2 ← item parts 2; mat ← c_int p2;
  Ok (prop_id, {| material_id := mat; prop_title := title_at lines i |}).

Definition properties_step (lines : list string) (i : nat)
  : res (nat * option (Z * property)) :=
  let parts := _parse_csv_line_fast (nth i lines "") in
  if (3 <=? length parts)%nat then
    try_except
      (r ← property_record lines i parts; Ok ((i + 7)%nat, Some r))
      (Ok ((i + 1)%nat, None))
  else Ok ((i + 1)%nat, None).

(** [d[key] = value] when a record was read. *)
Definition put {V : Type} (d : gmap Z V) (r : option (Z * V)) : gmap Z V :=
  match r with
  | Some (key, value) => <[key := value]> d
  | None => d
  end.

Definition get_properties (blocks : gmap Z (list FEMAPBlock)) : res (gmap Z property) :=
  scan_blocks properties_step put (get_blocks blocks 402) ∅.

(** *** Elements, block 404 *)

(** [for nstr in nodes1: n = int(nstr); if n != 0: nodes.append(n)]. *)
Fixpoint node_ids (parts : list string) : res (list Z) :=
  match parts with
  | [] => Ok []
  | nstr :: rest =>
      n ← c_int nstr; ns ← node_ids rest;
      Ok (if (n =? 0)%Z then ns else n :: ns)
  end.

Definition element_record (lines : list string) (i : nat) (parts : list string)
  : res element :=
  let n_lines := length lines in
  p0 ← item parts 0; id ← c_int p0;
  p2 ← item parts 2; prop_id ← c_int p2;
  p4 ← item parts 4; topo ← c_int p4;
  nodes1 ← (if (i + 1 <? n_lines)%nat
            then node_ids (_parse_csv_line_fast (nth (i + 1) lines ""))
            else Ok []);
  nodes2 ← (if (i + 2 <? n_lines)%nat
            then node_ids (_parse_csv_line_fast (nth (i + 2) lines ""))
            else Ok []);
  Ok {| elem_id := id; elem_prop_id := prop_id; topology := topo;
        elem_nodes := nodes1 ++ nodes2 |}.

Definition elements_step (lines : list string) (i : nat) : res (nat * option element) :=
  let parts := _parse_csv_line_fast (nth i lines "") in
  if (5 <=? length parts)%nat then
    try_except
      (e ← element_record lines i parts; Ok ((i + 7)%nat, Some e))
      (Ok ((i + 1)%nat, None))
  else Ok ((i + 1)%nat, None).

(** [l.append(x)] when a record was read. *)
Definition push {V : Type} (l : list V) (r : option V) : list V :=
  match r with
  | Some x => l ++ [x]
  | None => l
  end.

Definition get_elements (blocks : gmap Z (list FEMAPBlock)) : res (list element) :=
  scan_blocks elements_step push (get_blocks blocks 404) [].

(** *** Materials, block 601 *)

Definition material_record (parts : list string) : res (Z * material) :=
  p0 ← item parts 0; id ← c_int p0;
  Ok (id, {| mat_id := id |}).

Definition materials_step (lines : list string) (i : nat)
  : res (nat * option (Z * material)) :=
  let parts := _parse_csv_line_fast (nth i lines "") in
  if (1 <=? length parts)%nat then
    try_except
      (r ← material_record parts; Ok ((i + 1)%nat, Some r))
      (Ok ((i + 1)%nat, None))
  else Ok ((i + 1)%nat, None).

Definition get_materials (blocks : gmap Z (list FEMAPBlock)) : res (gmap Z material) :=
  scan_blocks materials_step put (get_blocks blocks 601) ∅.

(** *** Output sets, block 450 *)

Definition output_set_record (lines : list string) (i : nat) (parts : list string)
  : res (Z * output_set double) :=
  let n_lines := length lines in
  p0 ← item parts 0; id ← c_int p0;
  let title := title_at lines i in
  value ← (if (i + 3 <? n_lines)%nat then
             let value_parts := _parse_csv_line_fast (nth (i + 3) lines "") in
             if (1 <=? length value_parts)%nat
             then (v0 ← item value_parts 0; c_float v0)
             else Ok zero
           else Ok zero);
  Ok (id, {| set_title := title; set_value := value |}).

Definition output_sets_step (lines : list string) (i : nat)
  : res (nat * option (Z * output_set double)) :=
  let parts := _parse_csv_line_fast (nth i lines "") in
  if (1 <=? length parts)%nat then
    try_except
      (r ← output_set_record lines i parts; Ok ((i + 6)%nat, Some r))
      (Ok ((i + 1)%nat, None))
  else Ok ((i + 1)%nat, None).

Definition get_output_sets (blocks : gmap Z (list FEMAPBlock))
  : res (gmap Z (output_set double)) :=
  scan_blocks output_sets_step put (get_blocks blocks 450) ∅.

(** *** Output vectors, block 1051 *)

(** The terminator of a result stream:
    [len(parts) >= 2 and parts[0] == "-1" and parts[1] == "0."]. *)
Definition is_end_marker (parts : list string) : bool :=
  match parts with
  | p0 :: p1 :: _ => String.eqb p0 "-1" && String.eqb p1 "0."
  | _ => false
  end.

(** The header of a vector: [set_id], [vec_id], the title and the entity
    type ([None] when the sixth line is missing or short). *)
Definition vector_header (lines : list string) (i : nat) (parts : list string)
  : res (Z * Z * string * option Z) :=
  let n_lines := length lines in
  p0 ← item parts 0; sid ← c_int p0;
  p1 ← item parts 1; vid ← c_int p1;
  let title := title_at lines i in
  ety ← (if (i + 5 <? n_lines)%nat then
           let line6_parts := _parse_csv_line_fast (nth (i + 5) lines "") in
           if (4 <=? length line6_parts)%nat
           then (p3 ← item line6_parts 3; v ← c_int p3; Ok (Some v))
           else Ok None
         else Ok None);
  Ok (sid, vid, title, ety).

(** Format 1: [entity_id = int(result_parts[0]);
    value = float(result_parts[1])]. *)
Definition sparse_record (result_parts : list string) : res (Z * double) :=
  p0 ← item result_parts 0; entity_id ← c_int p0;
  p1 ← item result_parts 1; value ← c_float p1;
  Ok (entity_id, value).

(** Format 2, first line: [start_id], [end_id] and
    [[float(v) for v in result_parts[2:]]]. *)
Definition run_record (result_parts : list string) : res (Z * Z * list double) :=
  p0 ← item result_parts 0; start_id ← c_int p0;
  p1 ← item result_parts 1; end_id ← c_int p1;
  values ← floats (skipn 2 result_parts);
  Ok (start_id, end_id, values).

(** [while len(values) < entity_count and i < n_lines: ...]: the
    continuation lines of a run. *)
Fixpoint cont_loop (fuel : nat) (lines : list string) (entity_count : Z)
    (i : nat) (values : list double) : loop_end (list double) :=
  if (Z.of_nat (length values) <? entity_count)%Z && (i <? length lines)%nat then
    match fuel with
    | O => Fuel
    | S fuel' =>
        let cont_parts := _parse_csv_line_fast (nth i lines "") in
        if is_end_marker cont_parts then Broke i values
        else
          match floats cont_parts with
          | Ok vs => cont_loop fuel' lines entity_count (i + 1) (values ++ vs)
          | Raise e => Raised e i
          | OutOfFuel => Fuel
          end
    end
  else Exhausted i values.

(** [for offset in range(...): results[start_id + offset] = values[offset]],
    from [offset] on, over the values still to assign; the sum is a sum of
    C ints. *)
Fixpoint assign_run (start_id offset : Z) (values : list double)
    (results : gmap Z double) : gmap Z double :=
  match values with
  | [] => results
  | v :: rest =>
      assign_run start_id (offset + 1) rest
        (<[wrap_int (start_id + offset) := v]> results)
  end.

(** [range(min(len(values), entity_count))] selects a prefix of [values]. *)
Definition run_prefix (values : list double) (entity_count : Z) : list double :=
  take (Z.to_nat (Z.min (Z.of_nat (length values)) entity_count)) values.

(** The loop over the result records of one vector. *)
Fixpoint results_loop (fuel : nat) (lines : list string) (i : nat)
    (results : gmap Z double) : loop_end (gmap Z double) :=
  if (i <? length lines)%nat then
    match fuel with
    | O => Fuel
    | S fuel' =>
        let result_parts := _parse_csv_line_fast (nth i lines "") in
        if is_end_marker result_parts then Broke (i + 1) results
        else if (length result_parts =? 2)%nat then
          match sparse_record result_parts with
          | Ok (entity_id, value) =>
              results_loop fuel' lines (i + 1) (<[entity_id := value]> results)
          | Raise e => Raised e i
          | OutOfFuel => Fuel
          end
        else if (2 <? length result_parts)%nat then
          match run_record result_parts with
          | Ok (start_id, end_id, values) =>
              let entity_count := wrap_int (end_id - start_id + 1) in
              match cont_loop (length lines) lines entity_count (i + 1) values with
              | Broke i' values' | Exhausted i' values' =>
                  results_loop fuel' lines i'
                    (assign_run start_id 0 (run_prefix values' entity_count) results)
              | Raised e i' => Raised e i'
              | Fuel => Fuel
              end
          | Raise e => Raised e i
          | OutOfFuel => Fuel
          end
        else results_loop fuel' lines (i + 1) results
    end
  else Exhausted i results.

(** The body of the loop of [get_output_vectors] at index [i]: the next
    index, the vector that was read, if any, and whether the record is
    closed, that is, whether its result stream was not cut by the end of
    the block.  An exception leaves the index where the loops had brought
    it, and the handler moves it one line forward. *)
Definition vectors_step (lines : list string) (i : nat)
  : res (nat * (option (output_vector double) * bool)) :=
  let parts := _parse_csv_line_fast (nth i lines "") in
  if (2 <=? length parts)%nat then
    match vector_header lines i parts with
    | Ok (sid, vid, title, ety) =>
        let vector r :=
          {| set_id := sid; vec_id := vid; vec_title := title;
             ent_type := ety; results := r |} in
        match results_loop (length lines) lines (i + 7) ∅ with
        | Broke i' r => Ok (i', (Some (vector r), true))
        | Exhausted i' r => Ok (i', (Some (vector r), false))
        | Raised e i' => if caught e then Ok ((i' + 1)%nat, (None, true)) else Raise e
        | Fuel => OutOfFuel
        end
    | Raise e => if caught e then Ok ((i + 1)%nat, (None, true)) else Raise e
    | OutOfFuel => OutOfFuel
    end
  else Ok ((i + 1)%nat, (None, true)).

(** [output_vectors.append(...)] when a vector was read. *)
Definition push_vector (l : list (output_vector double))
    (r : option (output_vector double) * bool) : list (output_vector double) :=
  push l (fst r).

Definition get_output_vectors (blocks : gmap Z (list FEMAPBlock))
  : res (list (output_vector double)) :=
  scan_blocks vectors_step push_vector (get_blocks blocks 1051) [].
End Extractors.

(** ** A float conversion for the examples

    Plain decimal literals ([12], [1.5], [0.], [.5], [-2.5e-3]) with their
    exact value [m * 10^e], kept as the pair [(m, e)] with [m] free of
    trailing zeros; every other string is refused. *)

Module DecFloat.

Fixpoint read_digits (s : string) (acc : Z) (count : nat) : Z * nat * string :=
  match s with
  | EmptyString => (acc, count, s)
  | String c s' =>
      match digit_of c with
      | Some d => read_digits s' (10 * acc + d)%Z (S count)
      | None => (acc, count, s)
      end
  end.

Fixpoint normalize (fuel : nat) (m e : Z) : Z * Z :=
  match fuel with
  | O => (m, e)
  | S fuel' =>
      if (m =? 0)%Z then (0%Z, 0%Z)
      else if (m mod 10 =? 0)%Z then normalize fuel' (m / 10)%Z (e + 1)%Z
      else (m, e)
  end.

Definition split_sign (s : string) : bool * string :=
  match s with
  | String "-" r => (true, r)
  | String "+" r => (false, r)
  | _ => (false, s)
  end.

Definition exponent (s : string) : option Z :=
  match s with
  | EmptyString => Some 0%Z
  | String c r =>
      if Ascii.eqb c "e" || Ascii.eqb c "E" then
        let '(neg, r1) := split_sign r in
        match read_digits r1 0%Z 0 with
        | (x, S _, EmptyString) => Some (if neg then (- x)%Z else x)
        | _ => None
        end
      else None
  end.

Definition dec_float (s : string) : option (Z * Z) :=
  let '(neg, s1) := split_sign (strip s) in
  let '(ip, n1, s2) := read_digits s1 0%Z 0 in
  let '(m, n2, s3) :=
    match s2 with
    | String "." r => read_digits r ip 0
    | _ => (ip, 0%nat, s2)
    end in
  if (n1 + n2 =? 0)%nat then None
  else
    x ← exponent s3;
    Some (normalize (n1 + n2) (if neg then (- m)%Z else m) (x - Z.of_nat n2)%Z).

End DecFloat.

#[global] Instance dec_float_conv : FloatConv :=
  {| double := Z * Z; py_float := DecFloat.dec_float; zero := (0%Z, 0%Z) |}.

(** ** Notions used in the statements *)

(** The events of a scan, in order. *)
Definition snoc {E : Type} (evs : list E) (ev : E) : list E := evs ++ [ev].

Definition events_from {E : Type} (step : list string -> nat -> res (nat * E))
    (fuel : nat) (lines : list string) (i : nat) : res (nat * list E) :=
  scan_from step snoc fuel lines i [].

(** Moving a scan result [d] lines forward. *)
Definition shift {X : Type} (d : nat) (r : res (nat * X)) : res (nat * X) :=
  (fun p => ((d + fst p)%nat, snd p)) <$> r.

(** A line as [readlines] gives it: the text and its newline. *)
Definition with_newline (text : string) : string :=
  text +:+ String "010" EmptyString.

(** What a scan reads from the blocks of one family, in file order. *)
Fixpoint blocks_events {E : Type} (step : list string -> nat -> res (nat * E))
    (bs : list FEMAPBlock) : res (list E) :=
  match bs with
  | [] => Ok []
  | b :: rest =>
      '(_, evs) ← events_from step (length (lines b)) (lines b) 0;
      evs' ← blocks_events step rest;
      Ok (evs ++ evs')
  end.

(** The block-402 records of the file, in file order: the property ID of
    each with its material ID and title. *)
Definition property_records (blocks : gmap Z (list FEMAPBlock))
  : res (list (Z * property)) :=
  (fun evs : list (option (Z * property)) => omap id evs)
    <$> blocks_events properties_step (get_blocks blocks 402).

(** Moving the end of a loop [d] lines forward. *)
Definition shift_end {S : Type} (d : nat) (r : loop_end S) : loop_end S :=
  match r with
  | Broke i s => Broke (d + i) s
  | Exhausted i s => Exhausted (d + i) s
  | Raised e i => Raised e (d + i)
  | Fuel => Fuel
  end.

(** A loop that ended before line [n]: it was not cut by the end of the
    lines. *)
Definition ended_inside {S : Type} (n : nat) (r : loop_end S) : Prop :=
  match r with
  | Broke _ _ | Raised _ _ => True
  | Exhausted j _ => (j < n)%nat
  | Fuel => False
  end.

(** Whether a vector record is closed: the second component of what
    [vectors_step] reads. *)
Definition closed {V : Type} (ev : option V * bool) : bool := snd ev.

(** ** Files made of delimited blocks *)

(** A block as it stands in a file: the line with its ID and its content
    lines, all as [readlines] gives them. *)
Record source_block := { id_line : string; body : list string }.

(** The lines of one block in the file: the delimiter, the ID line, the
    content and the closing delimiter. *)
Definition render_block (sb : source_block) : list string :=
  [with_newline BLOCK_DELIMITER; id_line sb] ++ body sb
  ++ [with_newline BLOCK_DELIMITER].

Definition render_file (src : list source_block) : list string :=
  flat_map render_block src.

(** The block a well-delimited source block stands for: its ID line holds
    an integer other than the stray [-1], and no content line is the
    delimiter. *)
Definition block_of (sb : source_block) : option FEMAPBlock :=
  match c_int (strip (id_line sb)) with
  | Ok id =>
      if String.eqb (strip (id_line sb)) "-1" then None
      else if existsb (fun l => String.eqb (rstrip_newline l) BLOCK_DELIMITER) (body sb)
           then None
           else Some {| block_id := id; lines := List.map rstrip_newline (body sb) |}
  | _ => None
  end.

Fixpoint blocks_of (src : list source_block) : option (list FEMAPBlock) :=
  match src with
  | [] => Some []
  | sb :: rest =>
      match block_of sb, blocks_of rest with
      | Some b, Some bs => Some (b :: bs)
      | _, _ => None
      end
  end.

(** The blocks stored one after the other. *)
Definition store_all (bs : list FEMAPBlock) (blocks : gmap Z (list FEMAPBlock))
  : gmap Z (list FEMAPBlock) :=
  fold_left (fun m b => store_block b m) bs blocks.

(** The blocks with a given ID, in order. *)
Definition with_id (id : Z) (bs : list FEMAPBlock) : list FEMAPBlock :=
  List.filter (fun b => (block_id b =? id)%Z) bs.

(** Whether the scan of [l1] alone ends exactly at its end, having read
    records that satisfy [complete] only. *)
Definition whole_records {E : Type} (step : list string -> nat -> res (nat * E))
    (complete : E -> bool) (l1 : list string) : bool :=
  match events_from step (length l1) l1 0 with
  | Ok (j, evs) => (j =? length l1)%nat && forallb complete evs
  | _ => false
  end.

(** ** The array extractors

    [get_elements_arrays] and [get_output_vectors_arrays] fill Python lists
    and turn them into one-dimensional arrays at the end; an array is
    modelled by the list it is built from. *)

Section ArrayExtractors.
Context `{FloatConv}.

(** *** Elements as arrays, block 404: [get_elements_arrays] *)

(** [elem_id = int(parts[0]); prop_id = int(parts[2]);
    topology = int(parts[4])]. *)
Definition element_ids (parts : list string) : res (Z * Z * Z) :=
  p0 ← item parts 0; elem_id ← c_int p0;
  p2 ← item parts 2; prop_id ← c_int p2;
  p4 ← item parts 4; topo ← c_int p4;
  Ok (elem_id, prop_id, topo).

(** [for nstr in nodes1: n = int(nstr); if n != 0:
    connectivity_list.append(n); offset += 1]: the nodes that were appended
    and how the loop ended.  The appends made before an exception stay. *)
Fixpoint append_nodes (parts : list string) : list Z * res unit :=
  match parts with
  | [] => ([], Ok tt)
  | nstr :: rest =>
      match c_int nstr with
      | Ok n =>
          let '(ns, r) := append_nodes rest in
          (if (n =? 0)%Z then ns else n :: ns, r)
      | Raise e => ([], Raise e)
      | OutOfFuel => ([], OutOfFuel)
      end
  end.

(** [if i + k < n_lines: nodes = _parse_csv_line_fast(block.lines[i + k]);
    for nstr in nodes: ...]. *)
Definition append_nodes_at (lines : list string) (j : nat) : list Z * res unit :=
  if (j <? length lines)%nat then append_nodes (_parse_csv_line_fast (nth j lines ""))
  else ([], Ok tt).

(** What one iteration of the loop of [get_elements_arrays] appended: the
    three identifiers (if they were read), the nodes, and whether the
    record was read to its end, in which case [offsets_list] got its
    entry. *)
Record element_row := {
  row_ids : option (Z * Z * Z);
  row_nodes : list Z;
  row_closed : bool
}.

Definition no_row : element_row :=
  {| row_ids := None; row_nodes := []; row_closed := false |}.

(** The body of the loop of [get_elements_arrays] at index [i].  The
    identifiers are appended before the node lines are read, and the nodes
    one by one: when a node line raises, the handler moves one line forward
    and what was appended stays. *)
Definition elements_arrays_step (lines : list string) (i : nat)
  : res (nat * element_row) :=
  let parts := _parse_csv_line_fast (nth i lines "") in
  if (5 <=? length parts)%nat then
    match element_ids parts with
    | Ok ids =>
        let '(nodes1, r1) := append_nodes_at lines (i + 1) in
        match r1 with
        | Ok _ =>
            let '(nodes2, r2) := append_nodes_at lines (i + 2) in
            match r2 with
            | Ok _ =>
                Ok ((i + 7)%nat,
                    {| row_ids := Some ids; row_nodes := nodes1 ++ nodes2;
                       row_closed := true |})
            | Raise e =>
                if caught e then
                  Ok ((i + 1)%nat,
                      {| row_ids := Some ids; row_nodes := nodes1 ++ nodes2;
                         row_closed := false |})
                else Raise e
            | OutOfFuel => OutOfFuel
            end
        | Raise e =>
            if caught e then
              Ok ((i + 1)%nat,
                  {| row_ids := Some ids; row_nodes := nodes1; row_closed := false |})
            else Raise e
        | OutOfFuel => OutOfFuel
        end
    | Raise e => if caught e then Ok ((i + 1)%nat, no_row) else Raise e
    | OutOfFuel => OutOfFuel
    end
  else Ok ((i + 1)%nat, no_row).

(** The five lists and the [cdef int offset]. *)
Record element_lists := {
  elem_ids_list : list Z;
  prop_ids_list : list Z;
  topo_list : list Z;
  connectivity_list : list Z;
  offsets_list : list Z;
  offset : Z
}.

(** [offsets_list = [0]], [offset = 0] and the other lists empty. *)
Definition no_elements : element_lists :=
  {| elem_ids_list := []; prop_ids_list := []; topo_list := [];
     connectivity_list := []; offsets_list := [0%Z]; offset := 0 |}.

(** [offset += 1], once per appended node, on a C int. *)
Definition bump (count : nat) (o : Z) : Z :=
  Nat.iter count (fun o' => wrap_int (o' + 1)) o.

(** The appends of one iteration. *)
Definition append_row (st : element_lists) (row : element_row) : element_lists :=
  match row_ids row with
  | None => st
  | Some (elem_id, prop_id, topo) =>
      let offset' := bump (length (row_nodes row)) (offset st) in
      {| elem_ids_list := elem_ids_list st ++ [elem_id];
         prop_ids_list := prop_ids_list st ++ [prop_id];
         topo_list := topo_list st ++ [topo];
         connectivity_list := connectivity_list st ++ row_nodes row;
         offsets_list :=
           if row_closed row then offsets_list st ++ [offset'] else offsets_list st;
         offset := offset' |}
  end.

(** The tuple ([element_ids], [prop_ids], [topologies], [connectivity],
    [offsets]). *)
Definition get_elements_arrays (blocks : gmap Z (list FEMAPBlock))
  : res (list Z * list Z * list Z * list Z * list Z) :=
  st ← scan_blocks elements_arrays_step append_row (get_blocks blocks 404) no_elements;
  Ok (elem_ids_list st, prop_ids_list st, topo_list st, connectivity_list st,
      offsets_list st).

(** *** One output vector as arrays, block 1051: [get_output_vectors_arrays] *)

(** Skip to end marker: [while i < n_lines: result_parts = ...; i += 1;
    if (end marker): break]. *)
Fixpoint skip_vector (fuel : nat) (lines : list string) (i : nat) : res nat :=
  if (i <? length lines)%nat then
    match fuel with
    | O => OutOfFuel
    | S fuel' =>
        if is_end_marker (_parse_csv_line_fast (nth i lines "")) then Ok (i + 1)%nat
        else skip_vector fuel' lines (i + 1)
    end
  else Ok i.

(** [set_id = int(parts[0]); vec_id = int(parts[1])]. *)
Definition vector_ids (parts : list string) : res (Z * Z) :=
  p0 ← item parts 0; sid ← c_int p0;
  p1 ← item parts 1; vid ← c_int p1;
  Ok (sid, vid).

(** The entity type, read from the sixth line of the record: [None] when
    [has_ent_type] stays false. *)
Definition entity_type (lines : list string) (i : nat) : res (option Z) :=
  if (i + 5 <? length lines)%nat then
    let line6_parts := _parse_csv_line_fast (nth (i + 5) lines "") in
    if (4 <=? length line6_parts)%nat
    then (p3 ← item line6_parts 3; v ← c_int p3; Ok (Some v))
    else Ok None
  else Ok None.

(** [for offset in range(...): entity_ids_list.append(start_id + offset);
    values_list.append(values[offset])], from [offset] on. *)
Fixpoint append_run (start_id offset : Z) (values : list double)
    (acc : list Z * list double) : list Z * list double :=
  match values with
  | [] => acc
  | v :: rest =>
      append_run start_id (offset + 1) rest
        (acc.1 ++ [wrap_int (start_id + offset)], acc.2 ++ [v])
  end.

(** The loop over the result records of the vector, filling
    [entity_ids_list] and [values_list]. *)
Fixpoint results_lists_loop (fuel : nat) (lines : list string) (i : nat)
    (acc : list Z * list double) : loop_end (list Z * list double) :=
  if (i <? length lines)%nat then
    match fuel with
    | O => Fuel
    | S fuel' =>
        let result_parts := _parse_csv_line_fast (nth i lines "") in
        if is_end_marker result_parts then Broke (i + 1) acc
        else if (length result_parts =? 2)%nat then
          match sparse_record result_parts with
          | Ok (entity_id, value) =>
              results_lists_loop fuel' lines (i + 1)
                (acc.1 ++ [entity_id], acc.2 ++ [value])
          | Raise e => Raised e i
          | OutOfFuel => Fuel
          end
        else if (2 <? length result_parts)%nat then
          match run_record result_parts with
          | Ok (start_id, end_id, values) =>
              let entity_count := wrap_int (end_id - start_id + 1) in
              match cont_loop (length lines) lines entity_count (i + 1) values with
              | Broke i' values' | Exhausted i' values' =>
                  results_lists_loop fuel' lines i'
                    (append_run start_id 0 (run_prefix values' entity_count) acc)
              | Raised e i' => Raised e i'
              | Fuel => Fuel
              end
          | Raise e => Raised e i
          | OutOfFuel => Fuel
          end
        else results_lists_loop fuel' lines (i + 1) acc
    end
  else Exhausted i acc.

(** What [get_output_vectors_arrays] returns for a vector:
    ([entity_ids], [values], [set_id], [vec_id], [ent_type]). *)
Definition vector_arrays : Type := list Z * list double * Z * Z * Z.

(** How an iteration of the outer loop ends: at the next index, or with
    the [return] of the function. *)
Inductive iteration : Type :=
| Continue (i : nat)
| Return (r : vector_arrays).

(** The body of the loop of [get_output_vectors_arrays] at index [i], for
    the two filters (C ints; a negative filter accepts every vector). *)
Definition vector_arrays_step (set_id_filter vec_id_filter : Z)
    (lines : list string) (i : nat) : res iteration :=
  let n_lines := length lines in
  let parts := _parse_csv_line_fast (nth i lines "") in
  if (2 <=? length parts)%nat then
    match vector_ids parts with
    | Ok (sid, vid) =>
        if (0 <=? set_id_filter)%Z && negb (sid =? set_id_filter)%Z then
          Continue <$> skip_vector n_lines lines (i + 7)
        else if (0 <=? vec_id_filter)%Z && negb (vid =? vec_id_filter)%Z then
          Continue <$> skip_vector n_lines lines (i + 7)
        else
          match entity_type lines i with
          | Ok ety =>
              match results_lists_loop n_lines lines (i + 7) ([], []) with
              | Broke _ (ids, vals) | Exhausted _ (ids, vals) =>
                  Ok (Return (ids, vals, sid, vid, default (-1)%Z ety))
              | Raised e i' => if caught e then Ok (Continue (i' + 1)) else Raise e
              | Fuel => OutOfFuel
              end
          | Raise e => if caught e then Ok (Continue (i + 1)) else Raise e
          | OutOfFuel => OutOfFuel
          end
    | Raise e => if caught e then Ok (Continue (i + 1)) else Raise e
    | OutOfFuel => OutOfFuel
    end
  else Ok (Continue (i + 1)).

(** [i = 0; while i < n_lines: ...] on one block: the vector that was
    returned, or [None] when the loop reached the end of the block. *)
Fixpoint find_vector (set_id_filter vec_id_filter : Z) (fuel : nat)
    (lines : list string) (i : nat) : res (option vector_arrays) :=
  if (i <? length lines)%nat then
    match fuel with
    | O => OutOfFuel
    | S fuel' =>
        r ← vector_arrays_step set_id_filter vec_id_filter lines i;
        match r with
        | Continue i' => find_vector set_id_filter vec_id_filter fuel' lines i'
        | Return v => Ok (Some v)
        end
    end
  else Ok None.

(** [for block in all_blocks: ...]. *)
Fixpoint find_in_blocks (set_id_filter vec_id_filter : Z)
    (all_blocks : list FEMAPBlock) : res (option vector_arrays) :=
  match all_blocks with
  | [] => Ok None
  | block :: rest =>
      r ← find_vector set_id_filter vec_id_filter (length (lines block)) (lines block) 0;
      match r with
      | Some v => Ok (Some v)
      | None => find_in_blocks set_id_filter vec_id_filter rest
      end
  end.

(** The first vector that passes the filters; [None] stands for the tuple
    [(None, None, -1, -1, -1)] of the last line. *)
Definition get_output_vectors_arrays (blocks : gmap Z (list FEMAPBlock))
    (set_id_filter vec_id_filter : Z) : res (option vector_arrays) :=
  find_in_blocks set_id_filter vec_id_filter (get_blocks blocks 1051).

End ArrayExtractors.

(** ** Further notions used in the statements *)

(** The characters that separate fields: whitespace and the comma. *)
Definition is_separator (c : ascii) : bool := is_space c || is_comma c.
Definition not_separator (c : ascii) : bool := negb (is_separator c).

(** A call that returns a value or raises OverflowError, and does nothing
    else. *)
Definition returns_or_overflows {A : Type} (r : res A) : Prop :=
  (exists a, r = Ok a) \/ r = Raise OverflowError.

(** A title as the title slots of blocks 402, 450 and 1051 leave it: not
    the sentinel, and without a comma at its end. *)
Definition clean_title (t : string) : Prop := t <> "<NULL>" /\ rstrip_comma t = t.

(** The records [recs] stand at the lines [j], [j + 1], ... of [lines],
    each a two-field line that is not the terminator. *)
Definition sparse_lines `{FloatConv} (lines : list string) (j : nat)
    (recs : list (Z * double)) : Prop :=
  forall k r, recs !! k = Some r ->
    let rp := _parse_csv_line_fast (nth (j + k) lines "") in
    length rp = 2%nat /\ is_end_marker rp = false /\ sparse_record rp = Ok r.

(** The number of nodes of the first [k] elements. *)
Definition nodes_before (els : list element) (k : nat) : Z :=
  Z.of_nat (length (concat (elem_nodes <$> take k els))).

(** A list of integers that never decreases from one entry to the next. *)
Definition nondecreasing (l : list Z) : Prop :=
  forall j a b, l !! j = Some a -> l !! S j = Some b -> (a <= b)%Z.

(** What a seven-line record of block 402 says, when it is well formed:
    the property ID and the material ID are the first and the third field
    of its first line, both integers that fit a C int, and the title is
    its second line. *)
Definition written_property (record : list string) : option (Z * property) :=
  match _parse_csv_line_fast (nth 0 record "") with
  | p0 :: _ :: p2 :: _ =>
      match c_int p0, c_int p2 with
      | Ok prop_id, Ok mat =>
          Some (prop_id, {| material_id := mat;
                            prop_title := title_of (nth 1 record "") |})
      | _, _ => None
      end
  | _ => None
  end.

(** A block 402 made of well-formed seven-line records, and nothing
    else. *)
Definition well_formed_properties (records : list (list string)) : Prop :=
  Forall (fun record => length record = 7%nat /\ is_Some (written_property record))
    records.

(** * Proofs *)

(** ** Outcomes *)

Lemma res_bind_ok {A B : Type} (r : res A) (k : A -> res B) (b : B) :
  r ≫= k = Ok b -> exists a, r = Ok a /\ k a = Ok b.
Proof. destruct r as [a| |]; simpl; try discriminate. intros Hk. by exists a. Qed.

Lemma res_fmap_ok {A B : Type} (f : A -> B) (r : res A) (b : B) :
  f <$> r = Ok b -> exists a, r = Ok a /\ b = f a.
Proof.
  destruct r as [a| |]; simpl; try discriminate.
  intros [= <-]. by exists a.
Qed.

Lemma for_each_app {A B : Type} (body : B -> A -> res A) (xs ys : list B) (a : A) :
  for_each body (xs ++ ys) a = for_each body xs a ≫= for_each body ys.
Proof.
  revert a. induction xs as [|x xs IH]; intros a; simpl; [done|].
  destruct (body x a) as [a'| |]; simpl; [apply IH|done|done].
Qed.

(** ** Line scanners: fuel, traces, prefixes and shifts *)

Section ScanFacts.
Context {E : Type}.
Variable step : list string -> nat -> res (nat * E).

(** Every iteration moves the index forward. *)
Hypothesis step_progress :
  forall lines i i' ev, step lines i = Ok (i', ev) -> (i < i')%nat.

Lemma scan_from_index {A : Type} (emit : A -> E -> A) fuel lines i a j a' :
  scan_from step emit fuel lines i a = Ok (j, a') -> (i <= j)%nat.
Proof using step_progress.
  revert i a. induction fuel as [|fuel IH]; intros i a; simpl.
  - destruct (i <? length lines)%nat; [discriminate|]. intros ?; simplify_eq; lia.
  - destruct (i <? length lines)%nat; [|intros ?; simplify_eq; lia].
    intros Hs. apply res_bind_ok in Hs as [[i' ev] [Hstep Hs]].
    apply step_progress in Hstep. apply IH in Hs. lia.
Qed.

Lemma scan_from_end {A : Type} (emit : A -> E -> A) fuel lines i a j a' :
  scan_from step emit fuel lines i a = Ok (j, a') -> (length lines <= j)%nat.
Proof using step_progress.
  revert i a. induction fuel as [|fuel IH]; intros i a; simpl.
  - destruct (Nat.ltb_spec i (length lines)); [discriminate|]. intros ?; simplify_eq; lia.
  - destruct (Nat.ltb_spec i (length lines)); [|intros ?; simplify_eq; lia].
    intros Hs. apply res_bind_ok in Hs as [[i' ev] [Hstep Hs]].
    by apply IH in Hs.
Qed.

(** Fuel beyond the number of lines left changes nothing. *)
Lemma scan_from_fuel {A : Type} (emit : A -> E -> A) f1 f2 lines i a :
  (length lines - i <= f1)%nat -> (length lines - i <= f2)%nat ->
  scan_from step emit f1 lines i a = scan_from step emit f2 lines i a.
Proof using step_progress.
  revert f2 i a. induction f1 as [|f1 IH]; intros f2 i a H1 H2.
  - destruct f2; simpl; destruct (Nat.ltb_spec i (length lines)); try done; lia.
  - destruct f2; simpl; destruct (Nat.ltb_spec i (length lines)); try done; [lia|].
    destruct (step lines i) as [[i' ev]| |] eqn:Hstep; simpl; try done.
    apply step_progress in Hstep. apply IH; lia.
Qed.

(** With the fuel [scan_lines] gives, a scan does not run out of fuel
    unless an iteration does. *)
Lemma scan_from_fuel_enough {A : Type} (emit : A -> E -> A) fuel lines i a :
  (forall j, step lines j <> OutOfFuel) ->
  (length lines - i <= fuel)%nat ->
  scan_from step emit fuel lines i a <> OutOfFuel.
Proof using step_progress.
  intros Hstep. revert i a. induction fuel as [|fuel IH]; intros i a Hf; simpl.
  - destruct (Nat.ltb_spec i (length lines)); [lia|done].
  - destruct (Nat.ltb_spec i (length lines)); [|done].
    destruct (step lines i) as [[i' ev]| |] eqn:Hs; simpl; try done.
    + apply step_progress in Hs. apply IH. lia.
    + by apply Hstep in Hs.
Qed.

(** A scan is the fold of [emit] over its events. *)
Lemma scan_from_events {A : Type} (emit : A -> E -> A) fuel lines i a pre :
  scan_from step emit fuel lines i (fold_left emit pre a)
  = (fun p => (fst p, fold_left emit (snd p) a))
      <$> scan_from step snoc fuel lines i pre.
Proof.
  revert i pre. induction fuel as [|fuel IH]; intros i pre; simpl.
  - by destruct (i <? length lines)%nat.
  - destruct (i <? length lines)%nat; [|done].
    destruct (step lines i) as [[i' ev]| |]; simpl; try done.
    rewrite <- IH. unfold snoc. by rewrite fold_left_app.
Qed.

Lemma scan_from_snoc fuel lines i pre :
  scan_from step snoc fuel lines i pre
  = (fun p => (fst p, pre ++ snd p)) <$> events_from step fuel lines i.
Proof.
  assert (Hfold : forall evs base : list E, fold_left snoc evs base = base ++ evs).
  { induction evs as [|ev evs IH]; intros base; simpl.
    - by rewrite app_nil_r.
    - rewrite IH. unfold snoc. by rewrite <- app_assoc. }
  pose proof (scan_from_events snoc fuel lines i pre []) as Hs.
  simpl in Hs. rewrite Hs. unfold events_from.
  destruct (scan_from step snoc fuel lines i []) as [[j evs]| |]; [|reflexivity|reflexivity].
  unfold fmap, res_fmap; cbn [res_bind fst snd]. by rewrite Hfold.
Qed.

Lemma scan_lines_events {A : Type} (emit : A -> E -> A) lines a :
  scan_lines step emit lines a
  = (fun p => (fst p, fold_left emit (snd p) a))
      <$> events_from step (length lines) lines 0.
Proof. apply (scan_from_events emit (length lines) lines 0 a []). Qed.
End ScanFacts.

(** ** No extractor runs out of fuel *)

Lemma bind_fuel {A B : Type} (r : res A) (k : A -> res B) :
  r <> OutOfFuel -> (forall a, k a <> OutOfFuel) -> r ≫= k <> OutOfFuel.
Proof. destruct r as [a| |]; simpl; [auto|done|done]. Qed.

Lemma try_except_fuel {A : Type} (body handler : res A) :
  body <> OutOfFuel -> handler <> OutOfFuel -> try_except body handler <> OutOfFuel.
Proof. destruct body as [a|e|]; simpl; [done| |done]. by destruct (caught e). Qed.

Lemma item_fuel parts k : item parts k <> OutOfFuel.
Proof. unfold item. by destruct (nth_error parts k). Qed.

Lemma c_int_fuel s : c_int s <> OutOfFuel.
Proof. unfold c_int. destruct (py_int s) as [z|]; [|done]. by destruct (in_int_range z). Qed.

Lemma c_float_fuel `{FloatConv} s : c_float s <> OutOfFuel.
Proof. unfold c_float. by destruct (py_float s). Qed.

Lemma floats_fuel `{FloatConv} parts : floats parts <> OutOfFuel.
Proof.
  induction parts as [|p ps IH]; simpl; [done|].
  apply bind_fuel; [apply c_float_fuel|]. intros x.
  apply bind_fuel; [exact IH|done].
Qed.

Lemma node_ids_fuel parts : node_ids parts <> OutOfFuel.
Proof.
  induction parts as [|p ps IH]; simpl; [done|].
  apply bind_fuel; [apply c_int_fuel|]. intros x.
  apply bind_fuel; [exact IH|done].
Qed.

Create HintDb fuel.

#[local] Hint Resolve item_fuel c_int_fuel c_float_fuel floats_fuel node_ids_fuel : fuel.

Ltac fuel_tac :=
  repeat first
    [ apply bind_fuel; [|intros ?]
    | apply try_except_fuel
    | progress auto with fuel
    | match goal with |- (if ?b then _ else _) <> _ => destruct b end
    | discriminate ].

(** The shape of an iteration with a fixed stride [k]. *)
Lemma stride_step {R : Type} (rec : res R) (i k : nat) :
  try_except (r ← rec; Ok ((i + k)%nat, Some r)) (Ok ((i + 1)%nat, None))
  = match rec with
    | Ok r => Ok ((i + k)%nat, Some r)
    | Raise e => if caught e then Ok ((i + 1)%nat, None) else Raise e
    | OutOfFuel => OutOfFuel
    end.
Proof. by destruct rec. Qed.

Lemma collect_block_index fuel lines i bl j bl' :
  collect_block fuel lines i bl = Ok (j, bl') -> (i <= j)%nat.
Proof.
  revert i bl. induction fuel as [|fuel IH]; intros i bl; simpl.
  - destruct (i <? length lines)%nat; [done|]. intros ?; simplify_eq; lia.
  - destruct (i <? length lines)%nat; [|intros ?; simplify_eq; lia].
    destruct (String.eqb _ _); [intros ?; simplify_eq; lia|].
    intros Hc. apply IH in Hc. lia.
Qed.

Lemma collect_block_fuel fuel lines i bl :
  (length lines - i <= fuel)%nat -> collect_block fuel lines i bl <> OutOfFuel.
Proof.
  revert i bl. induction fuel as [|fuel IH]; intros i bl Hf; simpl.
  - destruct (Nat.ltb_spec i (length lines)); [lia|done].
  - destruct (Nat.ltb_spec i (length lines)); [|done].
    destruct (String.eqb _ _); [done|]. apply IH. lia.
Qed.

Section StepFacts.
Context `{FloatConv}.

Lemma parse_step_progress lines i i' ev :
  parse_step lines i = Ok (i', ev) -> (i < i')%nat.
Proof.
  unfold parse_step.
  destruct (String.eqb _ _); [|intros ?; simplify_eq; lia].
  destruct (_ <? _)%nat; [|intros ?; simplify_eq; lia].
  destruct (String.eqb _ _); [intros ?; simplify_eq; lia|].
  destruct (c_int _) as [id|e|]; [| |done].
  - intros Hb. apply res_bind_ok in Hb as [[j bl] [Hc Hb]].
    apply collect_block_index in Hc. simplify_eq. lia.
  - destruct (caught_value e); intros ?; simplify_eq; lia.
Qed.

Lemma parse_step_fuel lines i : parse_step lines i <> OutOfFuel.
Proof.
  unfold parse_step.
  destruct (String.eqb _ _); [|done].
  destruct (_ <? _)%nat; [|done].
  destruct (String.eqb _ _); [done|].
  destruct (c_int _) as [id|e|] eqn:Hid; [| |by apply c_int_fuel in Hid].
  - apply bind_fuel; [apply collect_block_fuel; lia|]. by intros [j bl].
  - by destruct (caught_value e).
Qed.

Lemma stride_progress {R : Type} (rec : res R) (i k i' : nat) ev :
  (1 <= k)%nat ->
  try_except (r ← rec; Ok ((i + k)%nat, Some r)) (Ok ((i + 1)%nat, None)) = Ok (i', ev) ->
  (i < i')%nat.
Proof.
  intros Hk. rewrite stride_step. destruct rec as [r|e|]; [| |done].
  - intros ?; simplify_eq; lia.
  - destruct (caught e); intros ?; simplify_eq; lia.
Qed.

Lemma properties_step_progress lines i i' ev :
  properties_step lines i = Ok (i', ev) -> (i < i')%nat.
Proof.
  unfold properties_step. destruct (_ <=? _)%nat; [|intros ?; simplify_eq; lia].
  apply stride_progress. lia.
Qed.

Lemma elements_step_progress lines i i' ev :
  elements_step lines i = Ok (i', ev) -> (i < i')%nat.
Proof.
  unfold elements_step. destruct (_ <=? _)%nat; [|intros ?; simplify_eq; lia].
  apply stride_progress. lia.
Qed.

Lemma materials_step_progress lines i i' ev :
  materials_step lines i = Ok (i', ev) -> (i < i')%nat.
Proof.
  unfold materials_step. destruct (_ <=? _)%nat; [|intros ?; simplify_eq; lia].
  apply stride_progress. lia.
Qed.

Lemma output_sets_step_progress lines i i' ev :
  output_sets_step lines i = Ok (i', ev) -> (i < i')%nat.
Proof.
  unfold output_sets_step. destruct (_ <=? _)%nat; [|intros ?; simplify_eq; lia].
  apply stride_progress. lia.
Qed.

Lemma properties_step_fuel lines i : properties_step lines i <> OutOfFuel.
Proof. unfold properties_step, property_record. fuel_tac. Qed.

Lemma elements_step_fuel lines i : elements_step lines i <> OutOfFuel.
Proof. unfold elements_step, element_record. fuel_tac. Qed.

Lemma materials_step_fuel lines i : materials_step lines i <> OutOfFuel.
Proof. unfold materials_step, material_record. fuel_tac. Qed.

Lemma output_sets_step_fuel lines i : output_sets_step lines i <> OutOfFuel.
Proof. unfold output_sets_step, output_set_record. fuel_tac. Qed.
End StepFacts.

(** ** The loops of block 1051: indices and fuel *)

Section VectorLoops.
Context `{FloatConv}.

Lemma cont_loop_bounds fuel lines cnt i v :
  match cont_loop fuel lines cnt i v with
  | Broke j _ | Raised _ j => (i <= j < length lines)%nat
  | Exhausted j _ => (i <= j)%nat
  | Fuel => True
  end.
Proof.
  revert i v. induction fuel as [|fuel IH]; intros i v; simpl.
  - destruct (_ && _); [done|lia].
  - destruct (Z.ltb _ _); simpl; [|lia].
    destruct (Nat.ltb_spec i (length lines)); [|lia].
    destruct (is_end_marker _); [lia|].
    destruct (floats _) as [vs|e|]; [|lia|done].
    specialize (IH (i + 1)%nat (v ++ vs)).
    destruct (cont_loop fuel lines cnt (i + 1) (v ++ vs)); try done; lia.
Qed.

Lemma cont_loop_fuel fuel lines cnt i v :
  (length lines - i <= fuel)%nat -> cont_loop fuel lines cnt i v <> Fuel.
Proof.
  revert i v. induction fuel as [|fuel IH]; intros i v Hf; simpl.
  - destruct (Z.ltb _ _); simpl; [|done].
    destruct (Nat.ltb_spec i (length lines)); [lia|done].
  - destruct (Z.ltb _ _); simpl; [|done].
    destruct (Nat.ltb_spec i (length lines)); [|done].
    destruct (is_end_marker _); [done|].
    destruct (floats _) as [vs|e|] eqn:Hfl; [|done|by apply floats_fuel in Hfl].
    apply IH. lia.
Qed.

Lemma results_loop_bounds fuel lines i r :
  match results_loop fuel lines i r with
  | Broke j _ => (i < j <= length lines)%nat
  | Exhausted j _ => (i <= j /\ length lines <= j)%nat
  | Raised _ j => (i <= j < length lines)%nat
  | Fuel => True
  end.
Proof.
  revert i r. induction fuel as [|fuel IH]; intros i r; simpl.
  - destruct (Nat.ltb_spec i (length lines)); [done|lia].
  - destruct (Nat.ltb_spec i (length lines)); [|lia].
    destruct (is_end_marker _); [lia|].
    destruct (_ =? 2)%nat.
    { destruct (sparse_record _) as [[id v]|e|]; [|lia|done].
      specialize (IH (i + 1)%nat (<[id := v]> r)).
      destruct (results_loop fuel lines (i + 1) _); try done; lia. }
    destruct (2 <? _)%nat.
    { destruct (run_record _) as [[[s e] v]|e|]; [|lia|done].
      pose proof (cont_loop_bounds (length lines) lines
                    (wrap_int (e - s + 1)) (i + 1) v) as Hc.
      destruct (cont_loop _ _ _ _ _) as [j v'|j v'|e' j|]; try done; try lia.
      - match goal with |- context [results_loop fuel lines j ?r'] =>
          specialize (IH j r'); destruct (results_loop fuel lines j r') end;
          try done; lia.
      - match goal with |- context [results_loop fuel lines j ?r'] =>
          specialize (IH j r'); destruct (results_loop fuel lines j r') end;
          try done; lia. }
    specialize (IH (i + 1)%nat r).
    destruct (results_loop fuel lines (i + 1) r); try done; lia.
Qed.

Lemma results_loop_fuel fuel lines i r :
  (length lines - i <= fuel)%nat -> results_loop fuel lines i r <> Fuel.
Proof.
  revert i r. induction fuel as [|fuel IH]; intros i r Hf; simpl.
  - destruct (Nat.ltb_spec i (length lines)); [lia|done].
  - destruct (Nat.ltb_spec i (length lines)); [|done].
    destruct (is_end_marker _); [done|].
    destruct (_ =? 2)%nat.
    { destruct (sparse_record _) as [[id v]|e|] eqn:Hsp; [|done|].
      - apply IH. lia.
      - exfalso. revert Hsp. unfold sparse_record. fuel_tac. }
    destruct (2 <? _)%nat.
    { destruct (run_record _) as [[[s e] v]|e|] eqn:Hrun; [|done|].
      - pose proof (cont_loop_bounds (length lines) lines
                      (wrap_int (e - s + 1)) (i + 1) v) as Hc.
        pose proof (cont_loop_fuel (length lines) lines
                      (wrap_int (e - s + 1)) (i + 1) v) as Hcf.
        destruct (cont_loop _ _ _ _ _) as [j v'|j v'|e' j|]; try done.
        + apply IH. lia.
        + apply IH. lia.
        + exfalso. apply Hcf; [lia|done].
      - exfalso. revert Hrun. unfold run_record. fuel_tac. }
    apply IH. lia.
Qed.

Lemma vectors_step_progress lines i i' ev :
  vectors_step lines i = Ok (i', ev) -> (i < i')%nat.
Proof.
  unfold vectors_step. destruct (_ <=? _)%nat; [|intros ?; simplify_eq; lia].
  destruct (vector_header _ _ _) as [[[[sid vid] title] ety]|e|]; [| |done].
  - pose proof (results_loop_bounds (length lines) lines (i + 7) ∅) as Hr.
    destruct (results_loop _ _ _ _) as [j r|j r|e j|]; [| | |done].
    + intros ?; simplify_eq; lia.
    + intros ?; simplify_eq; lia.
    + destruct (caught e); intros ?; simplify_eq; lia.
  - destruct (caught e); intros ?; simplify_eq; lia.
Qed.

Lemma vectors_step_fuel lines i : vectors_step lines i <> OutOfFuel.
Proof.
  unfold vectors_step. destruct (_ <=? _)%nat; [|done].
  destruct (vector_header _ _ _) as [[[[sid vid] title] ety]|e|] eqn:Hh.
  - pose proof (results_loop_fuel (length lines) lines (i + 7) ∅) as Hr.
    destruct (results_loop _ _ _ _) as [j r|j r|e j|]; [done|done| |].
    + by destruct (caught e).
    + exfalso. apply Hr; [lia|done].
  - by destruct (caught e).
  - exfalso. revert Hh. unfold vector_header. fuel_tac.
Qed.
End VectorLoops.

(** ** Termination: no extractor and no scan of the file runs out of fuel *)

Lemma scan_lines_fuel {E A : Type} (step : list string -> nat -> res (nat * E))
    (emit : A -> E -> A) lines a :
  (forall l i i' ev, step l i = Ok (i', ev) -> (i < i')%nat) ->
  (forall l i, step l i <> OutOfFuel) ->
  scan_lines step emit lines a <> OutOfFuel.
Proof.
  intros Hp Hf. unfold scan_lines. apply scan_from_fuel_enough; auto. lia.
Qed.

Lemma scan_blocks_fuel {E A : Type} (step : list string -> nat -> res (nat * E))
    (emit : A -> E -> A) bs a :
  (forall l i i' ev, step l i = Ok (i', ev) -> (i < i')%nat) ->
  (forall l i, step l i <> OutOfFuel) ->
  scan_blocks step emit bs a <> OutOfFuel.
Proof.
  intros Hp Hf. revert a. induction bs as [|b bs IH]; intros a; simpl; [done|].
  apply bind_fuel; [by apply scan_lines_fuel|]. by intros [j a'].
Qed.

Lemma for_each_fuel {A B : Type} (body : B -> A -> res A) xs a :
  (forall x a', body x a' <> OutOfFuel) -> for_each body xs a <> OutOfFuel.
Proof.
  intros Hb. revert a. induction xs as [|x xs IH]; intros a; simpl; [done|].
  apply bind_fuel; auto.
Qed.

Theorem extractors_terminate `{FloatConv} (blocks : gmap Z (list FEMAPBlock)) :
  get_nodes blocks <> OutOfFuel /\ get_nodes_arrays blocks <> OutOfFuel /\
  get_properties blocks <> OutOfFuel /\ get_elements blocks <> OutOfFuel /\
  get_materials blocks <> OutOfFuel /\ get_output_sets blocks <> OutOfFuel /\
  get_output_vectors blocks <> OutOfFuel.
Proof.
  repeat split.
  - apply for_each_fuel. intros b a. apply for_each_fuel. intros l a'.
    unfold nodes_line, node_record. fuel_tac.
    match goal with p : (Z * coords double)%type |- _ => by destruct p end.
  - unfold get_nodes_arrays. apply bind_fuel.
    + apply for_each_fuel. intros b a. apply for_each_fuel. intros l [nl cl].
      unfold nodes_arrays_line, node_record. fuel_tac.
      match goal with p : (Z * coords double)%type |- _ => by destruct p end.
    + intros [nl [|c cl]]; done.
  - apply scan_blocks_fuel; [apply properties_step_progress|apply properties_step_fuel].
  - apply scan_blocks_fuel; [apply elements_step_progress|apply elements_step_fuel].
  - apply scan_blocks_fuel; [apply materials_step_progress|apply materials_step_fuel].
  - apply scan_blocks_fuel; [apply output_sets_step_progress|apply output_sets_step_fuel].
  - apply scan_blocks_fuel; [apply vectors_step_progress|apply vectors_step_fuel].
Qed.

Theorem parse_terminates (file_lines : list string) : _parse file_lines <> OutOfFuel.
Proof.
  unfold _parse.
  pose proof (scan_lines_fuel parse_step store_opt file_lines ∅
                parse_step_progress parse_step_fuel) as Hs.
  by destruct (scan_lines parse_step store_opt file_lines ∅).
Qed.

(** ** Strings: splitting and stripping *)

Module PyStrFacts.

(** The fields between separators, empty ones dropped. *)
Definition tokens (q : ascii -> bool) (s : string) : list string :=
  List.filter nonempty (split_by q s).

Definition cons_head (c : ascii) (l : list string) : list string :=
  match l with
  | [] => [String c EmptyString]
  | f :: fs => String c f :: fs
  end.

Lemma split_by_cons q c s :
  split_by q (String c s) = if q c then EmptyString :: split_by q s
                            else cons_head c (split_by q s).
Proof. reflexivity. Qed.

Lemma split_by_not_nil q s : split_by q s <> [].
Proof.
  induction s as [|c s IH]; simpl; [done|].
  destruct (q c); [done|]. by destruct (split_by q s).
Qed.

Lemma cons_head_app c l1 l2 : l1 <> [] -> cons_head c (l1 ++ l2) = cons_head c l1 ++ l2.
Proof. by destruct l1. Qed.

Lemma filter_repeat_empty k : List.filter nonempty (repeat EmptyString k) = [].
Proof. induction k as [|k IH]; simpl; auto. Qed.

(** Trailing separators only add empty fields at the end. *)
Lemma split_by_rstrip p q s :
  (forall c, p c = true -> q c = true) ->
  exists k, split_by q s = split_by q (rstrip_by p s) ++ repeat EmptyString k.
Proof.
  intros Hpq. induction s as [|c s [k IH]].
  - exists 0%nat. reflexivity.
  - cbn [rstrip_by]. destruct (rstrip_by p s) as [|c' r] eqn:Hr.
    + destruct (p c) eqn:Hp.
      * exists (S k). rewrite split_by_cons, (Hpq c Hp), IH. reflexivity.
      * exists k. rewrite (split_by_cons q c s), IH. simpl. by destruct (q c).
    + exists k. rewrite (split_by_cons q c s), (split_by_cons q c (String c' r)), IH.
      destruct (q c); [done|]. apply cons_head_app, split_by_not_nil.
Qed.

Lemma tokens_rstrip p q s :
  (forall c, p c = true -> q c = true) -> tokens q (rstrip_by p s) = tokens q s.
Proof.
  intros Hpq. destruct (split_by_rstrip p q s Hpq) as [k Hk].
  unfold tokens. rewrite Hk, List.filter_app, filter_repeat_empty. by rewrite app_nil_r.
Qed.

Lemma tokens_lstrip p q s :
  (forall c, p c = true -> q c = true) -> tokens q (lstrip_by p s) = tokens q s.
Proof.
  intros Hpq. induction s as [|c s IH]; simpl; [done|].
  destruct (p c) eqn:Hp; [|done].
  rewrite IH. unfold tokens. by rewrite split_by_cons, (Hpq c Hp).
Qed.

(** Splitting on one separator and then on another is splitting on both. *)
Lemma split_by_both p c s :
  flat_map (split_by p) (split_by c s) = split_by (fun a => p a || c a) s.
Proof.
  induction s as [|a s IH]; [done|].
  rewrite !split_by_cons. destruct (c a) eqn:Hc.
  - rewrite orb_true_r. cbn [flat_map]. by rewrite IH.
  - rewrite orb_false_r. rewrite <- IH.
    pose proof (split_by_not_nil c s) as Hne.
    destruct (split_by c s) as [|f fs]; [done|].
    cbn [cons_head flat_map]. rewrite split_by_cons.
    destruct (p a); [done|].
    symmetry. apply cons_head_app, split_by_not_nil.
Qed.

Lemma filter_flat_map {A B : Type} (f : B -> bool) (g : A -> list B) (l : list A) :
  List.filter f (flat_map g l) = flat_map (fun x => List.filter f (g x)) l.
Proof.
  induction l as [|x l IH]; simpl; [done|]. by rewrite List.filter_app, IH.
Qed.

Lemma tokens_both p c s :
  flat_map (tokens p) (split_by c s) = tokens (fun a => p a || c a) s.
Proof. unfold tokens. by rewrite <- split_by_both, filter_flat_map. Qed.

Lemma split_by_no_comma s :
  contains is_comma s = false ->
  split_by is_space s = split_by (fun a => is_space a || is_comma a) s.
Proof.
  intros Hs. induction s as [|c s IH]; [done|].
  simpl in Hs. apply orb_false_iff in Hs as [Hc Hs].
  by rewrite !split_by_cons, (IH Hs), Hc, orb_false_r.
Qed.

Lemma split_by_replace_comma s :
  split_by is_space (replace_comma s) = split_by (fun a => is_space a || is_comma a) s.
Proof.
  induction s as [|c s IH]; [done|].
  cbn [replace_comma]. rewrite !split_by_cons, IH.
  destruct (is_comma c) eqn:Hc; [by rewrite orb_true_r|by rewrite orb_false_r].
Qed.

Lemma contains_replace_comma s : contains is_comma (replace_comma s) = false.
Proof.
  induction s as [|c s IH]; [done|]. simpl. rewrite IH.
  destruct (is_comma c) eqn:Hc; [reflexivity|by rewrite Hc].
Qed.

Lemma contains_lstrip p q s :
  contains p s = false -> contains p (lstrip_by q s) = false.
Proof.
  induction s as [|c s IH]; [done|]. simpl.
  intros Hs. apply orb_false_iff in Hs as [Hc Hs].
  destruct (q c); [auto|]. simpl. by rewrite Hc, Hs.
Qed.

Lemma contains_rstrip p q s :
  contains p s = false -> contains p (rstrip_by q s) = false.
Proof.
  induction s as [|c s IH]; [done|]. simpl.
  intros Hs. apply orb_false_iff in Hs as [Hc Hs]. specialize (IH Hs).
  destruct (rstrip_by q s) as [|c' r].
  - destruct (q c); [done|]. simpl. by rewrite Hc.
  - cbn [contains]. cbn [contains] in IH. by rewrite Hc, IH.
Qed.

Lemma rstrip_by_none p s : contains p s = false -> rstrip_by p s = s.
Proof.
  induction s as [|c s IH]; [done|]. simpl.
  intros Hs. apply orb_false_iff in Hs as [Hc Hs]. rewrite (IH Hs), Hc.
  by destruct s.
Qed.

(** A field holds no separator. *)
Lemma split_by_field q s f : In f (split_by q s) -> contains q f = false.
Proof.
  revert f. induction s as [|c s IH]; intros f.
  - simpl. intros [<-|[]]. reflexivity.
  - rewrite split_by_cons. destruct (q c) eqn:Hq.
    + intros [<-|Hin]; [reflexivity|auto].
    + pose proof (split_by_not_nil q s) as Hne.
      destruct (split_by q s) as [|g gs]; [done|]. simpl.
      intros [<-|Hin].
      * simpl. rewrite Hq. apply IH. by left.
      * apply IH. by right.
Qed.

Lemma split_by_none q s : contains q s = false -> split_by q s = [s].
Proof.
  induction s as [|c s IH]; [done|]. simpl.
  intros Hs. apply orb_false_iff in Hs as [Hc Hs]. by rewrite Hc, (IH Hs).
Qed.

Lemma tokens_field q f :
  nonempty f = true -> contains q f = false -> tokens q f = [f].
Proof.
  intros Hne Hq. unfold tokens. rewrite (split_by_none _ _ Hq). simpl. by rewrite Hne.
Qed.

Lemma flat_map_fields (g : string -> list string) (l : list string) :
  (forall f, In f l -> g f = [f]) -> flat_map g l = l.
Proof.
  induction l as [|f l IH]; intros Hl; simpl; [done|].
  rewrite (Hl f) by (by left). simpl. f_equal. apply IH. intros f' Hin. apply Hl. by right.
Qed.

Lemma tokens_idem q s : flat_map (tokens q) (tokens q s) = tokens q s.
Proof.
  apply flat_map_fields. intros f Hin. unfold tokens in Hin.
  apply List.filter_In in Hin as [Hin Hne].
  apply tokens_field; [done|]. by apply split_by_field in Hin.
Qed.

Lemma split_ws_strip s : split_ws (strip s) = split_ws s.
Proof.
  unfold strip. change split_ws with (tokens is_space).
  rewrite tokens_lstrip by auto. by rewrite tokens_rstrip by auto.
Qed.

Lemma split_ws_empty_strip s : nonempty (strip s) = false -> split_ws s = [].
Proof.
  intros Hs. rewrite <- split_ws_strip. by destruct (strip s).
Qed.

End PyStrFacts.

Import PyStrFacts.

(** ** The tokenizer *)

Lemma parse_csv_line_no_comma (x : string) :
  contains is_comma x = false -> parse_csv_line x = split_ws x.
Proof.
  intros Hx. unfold parse_csv_line, _parse_csv_line_fast.
  unfold rstrip_comma. rewrite (rstrip_by_none _ _ Hx).
  assert (Hs : contains is_comma (strip x) = false).
  { unfold strip. by apply contains_lstrip, contains_rstrip. }
  rewrite Hs. apply split_ws_strip.
Qed.

Lemma parse_csv_line_tokens (line : string) :
  flat_map split_ws (parse_csv_line line)
  = tokens (fun a => is_space a || is_comma a) line.
Proof.
  unfold parse_csv_line, _parse_csv_line_fast.
  set (sc := fun a => is_space a || is_comma a).
  assert (Hsp : forall c, is_space c = true -> sc c = true).
  { intros c Hc. unfold sc. by rewrite Hc. }
  assert (Hcm : forall c, is_comma c = true -> sc c = true).
  { intros c Hc. unfold sc. rewrite Hc. apply orb_true_r. }
  assert (Hst : tokens sc (strip (rstrip_comma line)) = tokens sc line).
  { unfold strip, rstrip_comma.
    rewrite tokens_lstrip by exact Hsp. rewrite tokens_rstrip by exact Hsp.
    by apply tokens_rstrip. }
  rewrite <- Hst. clear Hst Hsp Hcm. subst sc.
  set (st := strip (rstrip_comma line)).
  destruct (contains is_comma st) eqn:Hc.
  - rewrite flat_map_concat_map, map_map, <- flat_map_concat_map.
    change split_ws with (tokens is_space).
    rewrite <- (tokens_both is_space is_comma st).
    generalize (split_by is_comma st). intros l.
    induction l as [|p l IH]; simpl; [done|].
    destruct (nonempty (strip p)) eqn:Hp; simpl.
    + rewrite IH. f_equal. apply split_ws_strip.
    + rewrite IH. change (tokens is_space p) with (split_ws p).
      by rewrite (split_ws_empty_strip p Hp).
  - change split_ws with (tokens is_space). rewrite tokens_idem.
    unfold tokens. by rewrite (split_by_no_comma st Hc).
Qed.

Lemma parse_csv_line_field (line f : string) :
  In f (parse_csv_line line) -> nonempty f = true.
Proof.
  unfold parse_csv_line, _parse_csv_line_fast.
  destruct (contains is_comma _).
  - intros Hin. apply in_map_iff in Hin as [p [<- Hin]].
    by apply List.filter_In in Hin as [_ Hne].
  - intros Hin. by apply List.filter_In in Hin as [_ Hne].
Qed.

(** Tokenizing the line with its commas replaced by spaces gives the
    fields of the original line, each split again on whitespace. *)
Lemma parse_csv_line_replaced (line : string) :
  parse_csv_line (rstrip (replace_comma line))
  = flat_map split_ws (parse_csv_line line).
Proof.
  rewrite parse_csv_line_tokens.
  rewrite parse_csv_line_no_comma
    by (apply contains_rstrip, contains_replace_comma).
  change split_ws with (tokens is_space). unfold rstrip.
  rewrite tokens_rstrip by auto.
  unfold tokens. by rewrite split_by_replace_comma.
Qed.

(** C4, as stated, fails: a comma-separated field that holds a space is
    one field of the original line and two fields of the replaced line. *)
Lemma C4_counterexample :
  parse_csv_line "a b,c" = ["a b"; "c"] /\
  parse_csv_line (rstrip (replace_comma "a b,c")) = ["a"; "b"; "c"] /\
  parse_csv_line (rstrip (replace_comma "a b,c")) <> parse_csv_line "a b,c".
Proof. split; [reflexivity|split; [reflexivity|discriminate]]. Qed.

(** C4 (amended): for every record line none of whose fields (as
    tokenized by [parse_csv_line]) contains a whitespace character,
    replacing all commas with single spaces and removing trailing
    whitespace leaves the field list of [parse_csv_line] unchanged. *)
Theorem C4_tokenizer_equivalence (line : string) :
  forallb (fun f => negb (contains is_space f)) (parse_csv_line line) = true ->
  parse_csv_line (rstrip (replace_comma line)) = parse_csv_line line.
Proof.
  intros Hws. rewrite parse_csv_line_replaced.
  apply flat_map_fields. intros f Hin.
  change split_ws with (tokens is_space). apply tokens_field.
  - by apply parse_csv_line_field in Hin.
  - rewrite forallb_forall in Hws. apply Hws in Hin. by apply negb_true_iff in Hin.
Qed.

Lemma C4_witness :
  forallb (fun f => negb (contains is_space f))
    (parse_csv_line "1, 124,7 ,25,,-6.5, ,") = true /\
  parse_csv_line (rstrip (replace_comma "1, 124,7 ,25,,-6.5, ,"))
  = parse_csv_line "1, 124,7 ,25,,-6.5, ,".
Proof.
  split; [reflexivity|].
  apply (C4_tokenizer_equivalence "1, 124,7 ,25,,-6.5, ,"). reflexivity.
Defined.

(** ** The block scanner *)

Lemma collect_block_ok fuel lines i bl :
  (length lines - i <= fuel)%nat ->
  exists j bl', collect_block fuel lines i bl = Ok (j, bl') /\ (i <= j)%nat.
Proof.
  revert i bl. induction fuel as [|fuel IH]; intros i bl Hf; simpl.
  - destruct (Nat.ltb_spec i (length lines)); [lia|]. by exists i, bl.
  - destruct (Nat.ltb_spec i (length lines)); [|by exists i, bl].
    destruct (String.eqb _ _).
    + exists (i + 1)%nat, bl. split; [done|lia].
    + destruct (IH (i + 1)%nat (bl ++ [rstrip_newline (nth i lines "")]))
        as (j & bl' & Hc & Hj); [lia|].
      exists j, bl'. split; [done|lia].
Qed.

(** C7, as stated, fails: a second full boundary line after a boundary is
    a well-formed block-ID candidate (it reads as the integer -1), and yet
    the guard fires on it: the iteration opens no block and moves one line
    forward, so that the second boundary opens block 100. *)
Lemma C7_counterexample :
  let file := [with_newline "   -1"; with_newline "   -1"; with_newline "   100";
               with_newline "title"; with_newline "   -1"] in
  c_int (strip (nth 1 file "")) = Ok (-1)%Z /\
  parse_step file 0 = Ok (1%nat, None) /\
  _parse file = Ok {[ 100%Z := [ {| block_id := 100; lines := ["title"] |} ] ]}.
Proof. split; [reflexivity|split; [reflexivity|]]. vm_compute. reflexivity. Qed.

(** C7 (amended): during block scanning, the stray-delimiter guard fires
    exactly when the line immediately after a boundary line equals [-1]
    once its surrounding whitespace is stripped, with or without leading or
    trailing whitespace (so also on a second full boundary line): the
    iteration then opens no block and resumes scanning at that line.  A
    following line whose stripped content is another integer literal is a
    block ID and opens a block. *)
Theorem C7_stray_delimiter_guard (file : list string) (i : nat) :
  (i + 1 < length file)%nat ->
  rstrip_newline (nth i file "") = BLOCK_DELIMITER ->
  (strip (nth (i + 1) file "") = "-1" ->
     parse_step file i = Ok ((i + 1)%nat, None)) /\
  (strip (nth (i + 1) file "") <> "-1" ->
     forall id, c_int (strip (nth (i + 1) file "")) = Ok id ->
     exists j body,
       parse_step file i = Ok (j, Some {| block_id := id; lines := body |})
       /\ (i + 2 <= j)%nat).
Proof.
  intros Hi Hline. unfold parse_step. rewrite Hline.
  rewrite String.eqb_refl.
  destruct (Nat.ltb_spec (i + 1) (length file)) as [_|]; [|lia].
  split.
  - intros ->. reflexivity.
  - intros Hne id Hid.
    destruct (String.eqb_spec (strip (nth (i + 1) file "")) "-1") as [|_]; [done|].
    rewrite Hid.
    destruct (collect_block_ok (length file) file (i + 2) []) as (j & body & Hc & Hj);
      [lia|].
    exists j, body. rewrite Hc. split; [reflexivity|done].
Qed.

Lemma C7_witness :
  let file := [with_newline "   -1"; with_newline "  -1  "; with_newline "   -1";
               with_newline "   403"; with_newline "1,0,0,1,46,0,0,0,0,0,0,0.,0.,0.,";
               with_newline "   -1"] in
  parse_step file 0 = Ok (1%nat, None) /\
  exists j body,
    parse_step file 2 = Ok (j, Some {| block_id := 403; lines := body |})
    /\ (4 <= j)%nat.
Proof.
  intros file. split.
  - apply (C7_stray_delimiter_guard file 0); [simpl; lia|reflexivity|reflexivity].
  - apply (C7_stray_delimiter_guard file 2); [simpl; lia|reflexivity|discriminate|reflexivity].
Defined.

(** ** Titles *)

(** The title slot of blocks 402, 450 and 1051 normalizes the sentinel
    after its trailing commas were removed. *)
Lemma title_of_spec (line : string) :
  (rstrip_comma (strip line) = "<NULL>" -> title_of line = "") /\
  (rstrip_comma (strip line) <> "<NULL>" -> title_of line = rstrip_comma (strip line)).
Proof.
  unfold title_of.
  destruct (String.eqb_spec (rstrip_comma (strip line)) "<NULL>") as [->|Hne];
    split; intros; congruence.
Qed.

(** C8: the title slots of blocks 402, 450 and 1051 remove the trailing
    comma before they compare with the sentinel, and [get_header] does
    not: for the header lines [<NULL>,] and [4.41,] of a comma-separated
    file it returns the title [<NULL>,] where the claim (and the other
    three title slots, [title_of]) give the empty string. *)
Theorem C8_header_title_keeps_sentinel_with_comma :
  let file := [with_newline "   -1"; with_newline "   100"; with_newline "<NULL>,";
               with_newline "4.41,"; with_newline "   -1"] in
  get_header <$> _parse file
    = Ok (Some {| hdr_title := "<NULL>,"; hdr_version := "4.41," |}) /\
  title_of (with_newline "<NULL>,") = "".
Proof. split; vm_compute; reflexivity. Qed.

(** ** Integer fields that do not fit a C int *)

(** C6: the node ID 2147483648 is an integer that does not fit the
    [cdef int node_id]; the conversion raises OverflowError, which
    [except (ValueError, IndexError)] does not catch: [get_nodes] raises
    instead of returning a value. *)
Theorem C6_get_nodes_raises_overflow `{FloatConv} :
  let file := [with_newline "   -1"; with_newline "   403";
               with_newline "2147483648,0,0,1,46,0,0,0,0,0,0,0.,0.,0.,";
               with_newline "   -1"] in
  _parse file ≫= get_nodes = Raise OverflowError.
Proof. vm_compute. reflexivity. Qed.

(** ** Malformed records *)

Lemma scan_from_step {E A : Type} (step : list string -> nat -> res (nat * E))
    (emit : A -> E -> A) fuel lines i a i' ev :
  (i < length lines)%nat ->
  step lines i = Ok (i', ev) ->
  scan_from step emit (S fuel) lines i a = scan_from step emit fuel lines i' (emit a ev).
Proof.
  intros Hi Hstep. simpl.
  destruct (Nat.ltb_spec i (length lines)); [|lia]. by rewrite Hstep.
Qed.



(** ** Nodes: the dictionary and the arrays *)

(** The dictionary built from keyed records in file order: later records
    overwrite earlier ones. *)
Definition dict_of_records {V : Type} (recs : list (Z * V)) (d : gmap Z V) : gmap Z V :=
  fold_left (fun m r => <[r.1 := r.2]> m) recs d.

Lemma dict_of_records_snoc {V : Type} (recs : list (Z * V)) r d :
  dict_of_records (recs ++ [r]) d = <[r.1 := r.2]> (dict_of_records recs d).
Proof. unfold dict_of_records. by rewrite fold_left_app. Qed.

Lemma dict_of_records_elem {V : Type} (recs : list (Z * V)) id c :
  dict_of_records recs ∅ !! id = Some c -> (id, c) ∈ recs.
Proof.
  induction recs as [|[id' c'] recs IH] using rev_ind.
  - unfold dict_of_records. simpl. by rewrite lookup_empty.
  - rewrite dict_of_records_snoc. simpl.
    destruct (decide (id' = id)) as [->|Hne].
    + rewrite lookup_insert_eq. intros [= ->]. set_solver.
    + rewrite lookup_insert_ne by done. set_solver.
Qed.

Lemma dict_of_records_size {V : Type} (recs : list (Z * V)) :
  (size (dict_of_records recs ∅) <= length recs)%nat.
Proof.
  induction recs as [|[id c] recs IH] using rev_ind.
  { unfold dict_of_records. simpl. by rewrite map_size_empty. }
  rewrite dict_of_records_snoc, length_app. simpl.
  destruct (dict_of_records recs ∅ !! id) as [c'|] eqn:Hl.
  - rewrite map_size_insert_Some by eauto. lia.
  - rewrite map_size_insert_None by done. lia.
Qed.

Lemma dict_of_records_last {V : Type} (recs : list (Z * V)) k id c :
  recs !! k = Some (id, c) ->
  (forall k' c', (k < k')%nat -> recs !! k' <> Some (id, c')) ->
  dict_of_records recs ∅ !! id = Some c.
Proof.
  revert k. induction recs as [|[id' c'] recs IH] using rev_ind; intros k Hk Hlast.
  - by rewrite lookup_nil in Hk.
  - rewrite dict_of_records_snoc. simpl.
    destruct (decide (k = length recs)) as [->|Hne].
    + rewrite lookup_app_r, Nat.sub_diag in Hk by lia. simpl in Hk.
      injection Hk as -> ->. by rewrite lookup_insert_eq.
    + assert (Hlt : (k < length recs)%nat).
      { apply lookup_lt_Some in Hk. rewrite length_app in Hk. simpl in Hk. lia. }
      rewrite lookup_app_l in Hk by done.
      destruct (decide (id' = id)) as [->|Hid].
      * exfalso. apply (Hlast (length recs) c'); [done|].
        rewrite lookup_app_r, Nat.sub_diag by lia. reflexivity.
      * rewrite lookup_insert_ne by done. apply (IH k Hk).
        intros k' c'' Hk' Hl. apply (Hlast k' c'' Hk').
        rewrite lookup_app_l; [done|]. by apply lookup_lt_Some in Hl.
Qed.

Lemma dict_of_records_nodup {V : Type} (recs : list (Z * V)) :
  NoDup recs.*1 -> size (dict_of_records recs ∅) = length recs.
Proof.
  induction recs as [|[id c] recs IH] using rev_ind.
  { intros _. unfold dict_of_records. simpl. by rewrite map_size_empty. }
  rewrite fmap_app, dict_of_records_snoc, length_app. simpl.
  intros Hnd. apply NoDup_app in Hnd as (Hnd & Hfresh & _).
  rewrite map_size_insert_None.
  - rewrite (IH Hnd). lia.
  - destruct (dict_of_records recs ∅ !! id) as [c'|] eqn:Hl; [|done].
    apply dict_of_records_elem in Hl. exfalso.
    apply (Hfresh id); [|set_solver].
    apply list_elem_of_fmap. by exists (id, c').
Qed.

Section NodesArrays.
Context `{FloatConv}.

(** The record a line of block 403 yields, if any: the [try] of both
    extractors. *)
Definition node_of_line (line : string) : res (option (Z * (coords double))) :=
  let parts := _parse_csv_line_fast line in
  if (14 <=? length parts)%nat then
    try_except (Some <$> node_record parts) (Ok None)
  else Ok None.

Fixpoint nodes_of_lines (lines : list string) : res (list (Z * (coords double))) :=
  match lines with
  | [] => Ok []
  | line :: rest =>
      r ← node_of_line line; rs ← nodes_of_lines rest;
      Ok (match r with Some x => x :: rs | None => rs end)
  end.

Fixpoint nodes_of_blocks (bs : list FEMAPBlock) : res (list (Z * (coords double))) :=
  match bs with
  | [] => Ok []
  | b :: rest =>
      rs ← nodes_of_lines (lines b); rs' ← nodes_of_blocks rest; Ok (rs ++ rs')
  end.

Lemma nodes_line_record line (nodes : gmap Z (coords double)) :
  nodes_line line nodes
  = r ← node_of_line line;
    Ok (match r with Some x => <[x.1 := x.2]> nodes | None => nodes end).
Proof.
  unfold nodes_line, node_of_line. destruct (_ <=? _)%nat; [|done].
  destruct (node_record _) as [[id c]|e|]; simpl; [done| |done].
  by destruct (caught e).
Qed.

Lemma nodes_arrays_line_record line (nl : list Z) (cl : list (coords double)) :
  nodes_arrays_line line (nl, cl)
  = r ← node_of_line line;
    Ok (match r with Some x => (nl ++ [x.1], cl ++ [x.2]) | None => (nl, cl) end).
Proof.
  unfold nodes_arrays_line, node_of_line. destruct (_ <=? _)%nat; [|done].
  destruct (node_record _) as [[id c]|e|]; simpl; [done| |done].
  by destruct (caught e).
Qed.

Lemma nodes_lines_records ls (nodes : gmap Z (coords double)) :
  for_each nodes_line ls nodes
  = rs ← nodes_of_lines ls; Ok (dict_of_records rs nodes).
Proof.
  revert nodes. induction ls as [|l ls IH]; intros nodes; simpl; [done|].
  rewrite nodes_line_record.
  destruct (node_of_line l) as [[x|]| |]; simpl; try done.
  - rewrite IH. by destruct (nodes_of_lines ls).
  - rewrite IH. by destruct (nodes_of_lines ls).
Qed.

Lemma nodes_arrays_lines_records ls (nl : list Z) (cl : list (coords double)) :
  for_each nodes_arrays_line ls (nl, cl)
  = rs ← nodes_of_lines ls; Ok (nl ++ rs.*1, cl ++ rs.*2).
Proof.
  revert nl cl. induction ls as [|l ls IH]; intros nl cl; cbn [for_each nodes_of_lines].
  - simpl. by rewrite !app_nil_r.
  - rewrite nodes_arrays_line_record.
    destruct (node_of_line l) as [[x|]| |]; simpl; try done.
    + rewrite IH. destruct (nodes_of_lines ls); simpl; try done.
      by rewrite <- !app_assoc.
    + rewrite IH. by destruct (nodes_of_lines ls).
Qed.

Lemma get_nodes_records bs (nodes : gmap Z (coords double)) :
  for_each (fun block nodes => for_each nodes_line (lines block) nodes) bs nodes
  = rs ← nodes_of_blocks bs; Ok (dict_of_records rs nodes).
Proof.
  revert nodes. induction bs as [|b bs IH]; intros nodes; simpl; [done|].
  rewrite nodes_lines_records.
  destruct (nodes_of_lines (lines b)) as [rs| |]; simpl; try done.
  rewrite IH. destruct (nodes_of_blocks bs) as [rs'| |]; simpl; try done.
  unfold dict_of_records. by rewrite fold_left_app.
Qed.

Lemma get_nodes_arrays_records bs (nl : list Z) (cl : list (coords double)) :
  for_each (fun block a => for_each nodes_arrays_line (lines block) a) bs (nl, cl)
  = rs ← nodes_of_blocks bs; Ok (nl ++ rs.*1, cl ++ rs.*2).
Proof.
  revert nl cl. induction bs as [|b bs IH]; intros nl cl; simpl.
  - by rewrite !app_nil_r.
  - rewrite nodes_arrays_lines_records.
    destruct (nodes_of_lines (lines b)) as [rs| |]; simpl; try done.
    rewrite IH. destruct (nodes_of_blocks bs) as [rs'| |]; simpl; try done.
    by rewrite !fmap_app, <- !app_assoc.
Qed.

(** Whenever [get_nodes_arrays] returns its two arrays, [get_nodes]
    returns a dictionary; the arrays have equal length; the dictionary
    maps the ID of a row to the coordinates of the last row with that ID,
    so its size is at most the number of rows; and when the IDs of the
    rows are pairwise distinct, the size of the dictionary is the number
    of rows and [node_ids[k]] maps to [coords[k]] for every row [k]. *)
Lemma nodes_arrays_agree (blocks : gmap Z (list FEMAPBlock))
    (ids : list Z) (cs : list (coords double)) :
  get_nodes_arrays blocks = Ok (ids, cs) ->
  exists nodes : gmap Z (coords double),
    get_nodes blocks = Ok nodes /\
    length ids = length cs /\
    (size nodes <= length ids)%nat /\
    (forall k id, ids !! k = Some id ->
       (forall k', (k < k')%nat -> ids !! k' <> Some id) ->
       is_Some (cs !! k) /\ nodes !! id = cs !! k) /\
    (NoDup ids ->
       size nodes = length ids /\
       forall k id, ids !! k = Some id -> is_Some (cs !! k) /\ nodes !! id = cs !! k).
Proof.
  unfold get_nodes_arrays, node_lists, get_nodes.
  rewrite get_nodes_arrays_records, get_nodes_records.
  destruct (nodes_of_blocks (get_blocks blocks 403)) as [rs| |]; simpl; try done.
  destruct (rs.*2) as [|c0 cl0] eqn:Hrows; [done|].
  intros [= <- <-]. rewrite <- Hrows. clear Hrows c0 cl0.
  exists (dict_of_records rs ∅).
  assert (Hrow : forall k id, rs.*1 !! k = Some id ->
            exists c, rs !! k = Some (id, c) /\ rs.*2 !! k = Some c).
  { intros k id Hk. rewrite list_lookup_fmap in Hk.
    destruct (rs !! k) as [[id' c]|] eqn:Hr; [|done]. simpl in Hk.
    injection Hk as ->. exists c. split; [done|].
    by rewrite list_lookup_fmap, Hr. }
  assert (Hlast : forall k id, rs.*1 !! k = Some id ->
            (forall k', (k < k')%nat -> rs.*1 !! k' <> Some id) ->
            is_Some (rs.*2 !! k) /\ dict_of_records rs ∅ !! id = rs.*2 !! k).
  { intros k id Hk Hl. destruct (Hrow k id Hk) as (c & Hr & Hc).
    rewrite Hc. split; [eauto|].
    apply (dict_of_records_last rs k id c Hr).
    intros k' c' Hk' Hr'. apply (Hl k' Hk').
    by rewrite list_lookup_fmap, Hr'. }
  split; [done|]. split; [by rewrite !length_fmap|].
  split; [rewrite length_fmap; apply dict_of_records_size|].
  split; [exact Hlast|].
  intros Hnd. split; [rewrite length_fmap; by apply dict_of_records_nodup|].
  intros k id Hk. apply (Hlast k id Hk).
  intros k' Hk' Hk2.
  pose proof (NoDup_lookup _ _ _ _ Hnd Hk Hk2). lia.
Qed.

Lemma dict_of_records_nonempty {V : Type} (recs : list (Z * V)) :
  recs <> [] -> dict_of_records recs ∅ <> ∅.
Proof.
  destruct recs as [|r recs _] using rev_ind; [done|].
  intros _. rewrite dict_of_records_snoc. apply insert_non_empty.
Qed.

(** The arrays are returned as soon as one node record is valid: whenever
    [get_nodes] returns a dictionary that is not empty. *)
Lemma get_nodes_arrays_returns (blocks : gmap Z (list FEMAPBlock))
    (nodes : gmap Z (coords double)) :
  get_nodes blocks = Ok nodes -> nodes <> ∅ ->
  exists ids cs, get_nodes_arrays blocks = Ok (ids, cs).
Proof.
  unfold get_nodes_arrays, node_lists, get_nodes.
  rewrite get_nodes_arrays_records, get_nodes_records.
  destruct (nodes_of_blocks (get_blocks blocks 403)) as [rs| |]; simpl; try done.
  intros [= <-] Hne. destruct rs as [|[id c] rs]; [done|].
  simpl. eauto.
Qed.

(** Without a valid node record the list of coordinates is empty: the
    array built from it has one dimension, and its assignment to the
    two-dimensional buffer [coords] raises, where [get_nodes] returns the
    empty dictionary. *)
Lemma get_nodes_arrays_without_rows (blocks : gmap Z (list FEMAPBlock)) :
  get_nodes blocks = Ok ∅ -> get_nodes_arrays blocks = Raise ValueError.
Proof.
  unfold get_nodes_arrays, node_lists, get_nodes.
  rewrite get_nodes_arrays_records, get_nodes_records.
  destruct (nodes_of_blocks (get_blocks blocks 403)) as [rs| |]; simpl; try done.
  intros [= Hd]. destruct rs as [|[id c] rs]; [done|].
  exfalso. by apply (dict_of_records_nonempty ((id, c) :: rs)).
Qed.
End NodesArrays.

Example nodes_arrays_agree_example :
  let blocks : gmap Z (list FEMAPBlock) :=
    {[ 403%Z := [ {| block_id := 403;
                     lines := ["1,0,0,1,46,0,0,0,0,0,0,0.,0.,0.,";
                               "2,0,0,1,46,0,0,0,0,0,0,1.,0.,0.,";
                               "1,0,0,1,46,0,0,0,0,0,0,0.,2.5,0.,"] |} ] ]} in
  get_nodes_arrays (H := dec_float_conv) blocks
  = Ok ([1; 2; 1]%Z,
        [((0, 0), (0, 0), (0, 0)); ((1, 0), (0, 0), (0, 0)); ((0, 0), (25, -1), (0, 0))]%Z) /\
  exists nodes : gmap Z (coords (Z * Z)),
    get_nodes (H := dec_float_conv) blocks = Ok nodes /\
    (size nodes <= 3)%nat /\
    nodes !! 1%Z = Some ((0, 0), (25, -1), (0, 0))%Z.
Proof.
  intros blocks.
  assert (Harr : get_nodes_arrays (H := dec_float_conv) blocks
            = Ok ([1; 2; 1]%Z,
                  [((0, 0), (0, 0), (0, 0)); ((1, 0), (0, 0), (0, 0));
                   ((0, 0), (25, -1), (0, 0))]%Z)) by (vm_compute; reflexivity).
  split; [exact Harr|].
  destruct (nodes_arrays_agree (H := dec_float_conv) blocks _ _ Harr)
    as (nodes & Hn & _ & Hsize & Hlast & _).
  exists nodes. split; [exact Hn|]. split; [exact Hsize|].
  destruct (Hlast 2%nat 1%Z eq_refl) as [_ Hl].
  - intros k' Hk'. destruct k' as [|[|[|k']]]; try lia. discriminate.
  - exact Hl.
Qed.

Example nodes_arrays_repeated_ids :
  let blocks : gmap Z (list FEMAPBlock) :=
    {[ 403%Z := [ {| block_id := 403;
                     lines := ["1,0,0,1,46,0,0,0,0,0,0,0.,0.,0.,";
                               "1,0,0,1,46,0,0,0,0,0,0,0.,2.5,0.,"] |} ] ]} in
  (length ∘ fst) <$> get_nodes_arrays (H := dec_float_conv) blocks = Ok 2%nat /\
  size <$> get_nodes (H := dec_float_conv) blocks = Ok 1%nat.
Proof. split; vm_compute; reflexivity. Qed.

Example get_nodes_arrays_no_node_block :
  let file := [with_newline "   -1"; with_newline "   100"; with_newline "<NULL>,";
               with_newline "4.41,"; with_newline "   -1"] in
  _parse file ≫= get_nodes (H := dec_float_conv) = Ok ∅ /\
  _parse file ≫= get_nodes_arrays (H := dec_float_conv) = Raise ValueError.
Proof. split; vm_compute; reflexivity. Qed.

(** ** Properties: last wins *)

Lemma scan_blocks_events {E A : Type} (step : list string -> nat -> res (nat * E))
    (emit : A -> E -> A) bs a :
  scan_blocks step emit bs a
  = evs ← blocks_events step bs; Ok (fold_left emit evs a).
Proof.
  revert a. induction bs as [|b bs IH]; intros a; simpl; [done|].
  rewrite scan_lines_events.
  destruct (events_from step _ _ _) as [[j evs]| |]; simpl; try done.
  rewrite IH. destruct (blocks_events step bs) as [evs'| |]; simpl; try done.
  by rewrite fold_left_app.
Qed.

Lemma fold_put {V : Type} (evs : list (option (Z * V))) (d : gmap Z V) :
  fold_left put evs d = dict_of_records (omap id evs) d.
Proof.
  revert d. induction evs as [|[[k v]|] evs IH]; intros d; simpl; auto.
Qed.

Lemma get_properties_records (blocks : gmap Z (list FEMAPBlock)) :
  get_properties blocks
  = recs ← property_records blocks; Ok (dict_of_records recs ∅).
Proof.
  unfold get_properties, property_records. rewrite scan_blocks_events.
  destruct (blocks_events _ _) as [evs| |]; simpl; try done.
  by rewrite fold_put.
Qed.

(** ** Block 1051: the expansion of a run *)

Lemma c_int_range (s : string) (z : Z) :
  c_int s = Ok z -> (INT_MIN <= z <= INT_MAX)%Z.
Proof.
  unfold c_int. destruct (py_int s) as [z'|]; [|done].
  unfold in_int_range. destruct (Z.leb_spec INT_MIN z'); simpl; [|done].
  destruct (Z.leb_spec z' INT_MAX); [|done]. intros [= <-]. lia.
Qed.

Lemma wrap_int_id (z : Z) : (INT_MIN <= z <= INT_MAX)%Z -> wrap_int z = z.
Proof.
  unfold wrap_int, INT_MIN, INT_MAX. intros Hz.
  rewrite Z.mod_small by lia. lia.
Qed.

Lemma item_nth (parts : list string) (k : nat) :
  (k < length parts)%nat -> item parts k = Ok (nth k parts "").
Proof.
  intros Hk. unfold item.
  destruct (nth_error parts k) as [x|] eqn:Hx.
  - by rewrite (nth_error_nth _ _ _ Hx).
  - apply nth_error_None in Hx. lia.
Qed.

Section RunExpansion.
Context `{FloatConv}.



End RunExpansion.

(** A run that needs continuation lines and is cut by the terminator: six
    values are expected, five are found. *)
Example run_with_continuations :
  let lines := ["1,2,1,"; "<NULL>,"; "0.,0.,0.,"; "0,0,0,0,0,0,0,0,0,0,";
                "0,0,0,0,0,0,0,0,0,0,"; "0,0,4,8,"; "0,1,1,";
                "11,16,1.5,2.5,"; "3.5,4.5,"; "5.5,"; "-1,0.,"] in
  get_output_vectors (H := dec_float_conv)
    {[ 1051%Z := [ {| block_id := 1051; lines := lines |} ] ]}
  = Ok [ {| set_id := 1; vec_id := 2; vec_title := ""; ent_type := Some 8%Z;
            results := {[ 11%Z := (15, -1)%Z; 12%Z := (25, -1)%Z; 13%Z := (35, -1)%Z;
                          14%Z := (45, -1)%Z; 15%Z := (55, -1)%Z ]} |} ].
Proof. vm_compute. reflexivity. Qed.

(** ** Splitting the lines of a block *)

Lemma shift_ok {X : Type} (d : nat) (j : nat) (x : X) : shift d (Ok (j, x)) = Ok ((d + j)%nat, x).
Proof. reflexivity. Qed.

Section ScanSplit.
Context {E : Type}.
Variable step : list string -> nat -> res (nat * E).
Variable complete : E -> bool.

Hypothesis step_progress :
  forall lines i i' ev, step lines i = Ok (i', ev) -> (i < i')%nat.

(** An iteration that stays inside the first lines and reads a complete
    record does not depend on the lines that follow. *)
Hypothesis step_local :
  forall l1 l2 i i' ev,
    (i < length l1)%nat -> step l1 i = Ok (i', ev) -> (i' <= length l1)%nat ->
    complete ev = true -> step (l1 ++ l2) i = Ok (i', ev).

(** An iteration does not depend on the lines before its index. *)
Hypothesis step_shift :
  forall l1 l2 j, step (l1 ++ l2) (length l1 + j) = shift (length l1) (step l2 j).

Lemma scan_from_shift {A : Type} (emit : A -> E -> A) fuel l1 l2 j a :
  scan_from step emit fuel (l1 ++ l2) (length l1 + j) a
  = shift (length l1) (scan_from step emit fuel l2 j a).
Proof using step_shift.
  revert j a. induction fuel as [|fuel IH]; intros j a; simpl; rewrite length_app.
  - destruct (Nat.ltb_spec j (length l2));
      destruct (Nat.ltb_spec (length l1 + j) (length l1 + length l2)); try lia; done.
  - destruct (Nat.ltb_spec j (length l2));
      destruct (Nat.ltb_spec (length l1 + j) (length l1 + length l2)); try lia; [|done].
    rewrite step_shift.
    destruct (step l2 j) as [[j' ev]| |]; simpl; [apply IH|done|done].
Qed.

Lemma scan_from_prefix {A : Type} (emit : A -> E -> A) l1 l2 :
  forall fuel i evs fuel2 a,
    events_from step fuel l1 i = Ok (length l1, evs) ->
    forallb complete evs = true ->
    (length l2 <= fuel2)%nat ->
    scan_from step emit (fuel + fuel2) (l1 ++ l2) i a
    = scan_from step emit fuel2 (l1 ++ l2) (length l1) (fold_left emit evs a).
Proof using step_progress step_local.
  unfold events_from.
  induction fuel as [|fuel IH]; intros i evs fuel2 a Hev Hcomp Hf2.
  - simpl in Hev. destruct (Nat.ltb_spec i (length l1)); [done|].
    by simplify_eq.
  - simpl in Hev. destruct (Nat.ltb_spec i (length l1)) as [Hi|Hi].
    + apply res_bind_ok in Hev as [[i' ev] [Hstep Hev]].
      rewrite (scan_from_snoc step) in Hev.
      apply res_fmap_ok in Hev as [[j evs'] [Hev Heq]]. simpl in Heq.
      injection Heq as <- ->. simpl in Hcomp.
      apply andb_true_iff in Hcomp as [Hc Hcomp].
      pose proof (scan_from_index step step_progress _ _ _ _ _ _ _ Hev) as Hle.
      cbn [Nat.add scan_from]. rewrite length_app.
      destruct (Nat.ltb_spec i (length l1 + length l2)); [|lia].
      rewrite (step_local l1 l2 i i' ev Hi Hstep Hle Hc). simpl.
      by apply IH.
    + simplify_eq. cbn [fold_left].
      apply (scan_from_fuel step step_progress); rewrite length_app; lia.
Qed.

(** When the scan of the first lines alone ends exactly at their end,
    having read complete records only, the scan of all the lines is the
    scan of the first lines followed by the scan of the others. *)
Lemma scan_lines_split {A : Type} (emit : A -> E -> A) l1 l2 evs a :
  events_from step (length l1) l1 0 = Ok (length l1, evs) ->
  forallb complete evs = true ->
  scan_lines step emit (l1 ++ l2) a
  = shift (length l1) (scan_lines step emit l2 (fold_left emit evs a)).
Proof using step_progress step_local step_shift.
  intros Hev Hcomp. unfold scan_lines. rewrite length_app.
  rewrite (scan_from_prefix emit l1 l2 (length l1) 0 evs (length l2) a Hev Hcomp)
    by lia.
  pose proof (scan_from_shift emit (length l2) l1 l2 0 (fold_left emit evs a)) as Hs.
  by rewrite Nat.add_0_r in Hs.
Qed.

Lemma scan_blocks_app {A : Type} (emit : A -> E -> A) bs1 bs2 a :
  scan_blocks step emit (bs1 ++ bs2) a
  = scan_blocks step emit bs1 a ≫= scan_blocks step emit bs2.
Proof.
  revert a. induction bs1 as [|b bs1 IH]; intros a; simpl; [done|].
  destruct (scan_lines step emit (lines b) a) as [[j a']| |]; simpl; [apply IH|done|done].
Qed.

Lemma scan_blocks_split {A : Type} (emit : A -> E -> A) id l1 l2 evs before after a :
  events_from step (length l1) l1 0 = Ok (length l1, evs) ->
  forallb complete evs = true ->
  scan_blocks step emit
    (before ++ [{| block_id := id; lines := l1 |};
                {| block_id := id; lines := l2 |}] ++ after) a
  = scan_blocks step emit
      (before ++ [{| block_id := id; lines := l1 ++ l2 |}] ++ after) a.
Proof using step_progress step_local step_shift.
  intros Hev Hcomp. rewrite !scan_blocks_app.
  destruct (scan_blocks step emit before a) as [a1| |]; simpl; try done.
  rewrite (scan_lines_split emit l1 l2 evs a1 Hev Hcomp).
  rewrite scan_lines_events, Hev. simpl.
  by destruct (scan_lines step emit l2 (fold_left emit evs a1)) as [[j a2]| |].
Qed.
End ScanSplit.

(** ** The iterations of the extractors: lines before and lines after *)

Lemma ltb_add_l (a b c : nat) : (a + b <? a + c)%nat = (b <? c)%nat.
Proof. destruct (Nat.ltb_spec b c); destruct (Nat.ltb_spec (a + b) (a + c)); lia || done. Qed.

Lemma nth_app_shift (l1 l2 : list string) (j : nat) :
  nth (length l1 + j) (l1 ++ l2) "" = nth j l2 "".
Proof. apply app_nth2_plus. Qed.

Lemma nth_app_local (l1 l2 : list string) (j : nat) :
  (j < length l1)%nat -> nth j (l1 ++ l2) "" = nth j l1 "".
Proof. intros Hj. by apply app_nth1. Qed.

Lemma ltb_app_local (l1 l2 : list string) (j : nat) :
  (j < length l1)%nat ->
  (j <? length (l1 ++ l2))%nat = true /\ (j <? length l1)%nat = true.
Proof.
  intros Hj. rewrite length_app. split; apply Nat.ltb_lt; lia.
Qed.

(** Rewriting an expression over [l1 ++ l2] at an index [length l1 + j]
    into the expression over [l2] at [j]. *)
Ltac shift_lines :=
  rewrite ?length_app, <- ?Nat.add_assoc, ?nth_app_shift, ?ltb_add_l.

(** Rewriting a lookahead [k] lines after [i], inside [l1]. *)
Ltac local_line l1 l2 k :=
  let Hk := fresh in
  assert (Hk : (k < length l1)%nat) by lia;
  rewrite ?(nth_app_local l1 l2 k Hk);
  rewrite ?(proj1 (ltb_app_local l1 l2 k Hk)), ?(proj2 (ltb_app_local l1 l2 k Hk));
  clear Hk.

(** One step in a goal [r ≫= k1 = Raise e -> r ≫= k2 = Raise e]. *)
Ltac same_head :=
  match goal with
  | |- mbind _ ?r = Raise _ -> mbind _ ?r = Raise _ =>
      destruct r as [?| |]; simpl; try done
  end.

Lemma title_at_shift l1 l2 j : title_at (l1 ++ l2) (length l1 + j) = title_at l2 j.
Proof. unfold title_at. by shift_lines. Qed.

Lemma title_at_local l1 l2 i :
  (i + 1 < length l1)%nat -> title_at (l1 ++ l2) i = title_at l1 i.
Proof. intros Hi. unfold title_at. by local_line l1 l2 (i + 1)%nat. Qed.

Lemma stride_shift {R : Type} (rec : res R) (d j k : nat) (b : bool) :
  (if b then try_except (r ← rec; Ok ((d + (j + k))%nat, Some r))
                        (Ok ((d + (j + 1))%nat, None))
   else Ok ((d + (j + 1))%nat, None))
  = shift d (if b then try_except (r ← rec; Ok ((j + k)%nat, Some r))
                                  (Ok ((j + 1)%nat, None))
             else Ok ((j + 1)%nat, None)).
Proof.
  destruct b; [|done]. destruct rec as [r|e|]; simpl; try done. by destruct (caught e).
Qed.

(** The shape of the argument for a record with a fixed stride [k]: the
    record is the same when its [k] lines lie in [l1], and a failure in
    [l1] is a failure in [l1 ++ l2]. *)
Lemma stride_local {R : Type} (rec1 rec2 : res R) (i k n : nat) (b : bool) i' ev :
  ((i + k <= n)%nat -> rec2 = rec1) ->
  (forall e, rec1 = Raise e -> rec2 = Raise e) ->
  (if b then try_except (r ← rec1; Ok ((i + k)%nat, Some r)) (Ok ((i + 1)%nat, None))
   else Ok ((i + 1)%nat, None)) = Ok (i', ev) ->
  (i' <= n)%nat ->
  (if b then try_except (r ← rec2; Ok ((i + k)%nat, Some r)) (Ok ((i + 1)%nat, None))
   else Ok ((i + 1)%nat, None)) = Ok (i', ev).
Proof.
  intros Hsame Hraise. destruct b; [|done].
  destruct rec1 as [r|e|] eqn:Hrec; simpl.
  - intros [= <- <-] Hn. by rewrite (Hsame Hn).
  - rewrite (Hraise e eq_refl). simpl. done.
  - done.
Qed.

Section StepSplit.
Context `{FloatConv}.

(** *** Block 402 *)

Lemma properties_step_shift l1 l2 j :
  properties_step (l1 ++ l2) (length l1 + j) = shift (length l1) (properties_step l2 j).
Proof.
  unfold properties_step, property_record. shift_lines.
  rewrite title_at_shift. apply stride_shift.
Qed.

Lemma properties_step_local l1 l2 i i' ev :
  (i < length l1)%nat -> properties_step l1 i = Ok (i', ev) -> (i' <= length l1)%nat ->
  properties_step (l1 ++ l2) i = Ok (i', ev).
Proof.
  intros Hi Hstep Hi'. unfold properties_step in *.
  rewrite (nth_app_local l1 l2 i Hi).
  eapply stride_local; [| |exact Hstep|exact Hi'].
  - intros Hk. unfold property_record. rewrite title_at_local by lia. done.
  - intros e. unfold property_record. by repeat same_head.
Qed.

(** *** Block 601 *)

Lemma materials_step_shift l1 l2 j :
  materials_step (l1 ++ l2) (length l1 + j) = shift (length l1) (materials_step l2 j).
Proof. unfold materials_step. shift_lines. apply stride_shift. Qed.

Lemma materials_step_local l1 l2 i :
  (i < length l1)%nat -> materials_step (l1 ++ l2) i = materials_step l1 i.
Proof. intros Hi. unfold materials_step. by rewrite (nth_app_local l1 l2 i Hi). Qed.

(** *** Block 404 *)

Lemma elements_step_shift l1 l2 j :
  elements_step (l1 ++ l2) (length l1 + j) = shift (length l1) (elements_step l2 j).
Proof. unfold elements_step, element_record. shift_lines. apply stride_shift. Qed.

Lemma elements_step_local l1 l2 i i' ev :
  (i < length l1)%nat -> elements_step l1 i = Ok (i', ev) -> (i' <= length l1)%nat ->
  elements_step (l1 ++ l2) i = Ok (i', ev).
Proof.
  intros Hi Hstep Hi'. unfold elements_step in *.
  rewrite (nth_app_local l1 l2 i Hi).
  eapply stride_local; [| |exact Hstep|exact Hi'].
  - intros Hk. unfold element_record.
    local_line l1 l2 (i + 1)%nat. local_line l1 l2 (i + 2)%nat. reflexivity.
  - intros e. unfold element_record. repeat same_head.
    destruct (Nat.ltb_spec (i + 1) (length l1)) as [H1|H1].
    + local_line l1 l2 (i + 1)%nat.
      destruct (node_ids (_parse_csv_line_fast (nth (i + 1) l1 ""))) as [n1| |];
        simpl; try done.
      destruct (Nat.ltb_spec (i + 2) (length l1)) as [H2|H2]; [|done].
      local_line l1 l2 (i + 2)%nat. done.
    + destruct (Nat.ltb_spec (i + 2) (length l1)); [lia|]. done.
Qed.

(** *** Block 450 *)

Lemma output_sets_step_shift l1 l2 j :
  output_sets_step (l1 ++ l2) (length l1 + j)
  = shift (length l1) (output_sets_step l2 j).
Proof.
  unfold output_sets_step, output_set_record. shift_lines.
  rewrite title_at_shift. apply stride_shift.
Qed.

Lemma output_sets_step_local l1 l2 i i' ev :
  (i < length l1)%nat -> output_sets_step l1 i = Ok (i', ev) ->
  (i' <= length l1)%nat ->
  output_sets_step (l1 ++ l2) i = Ok (i', ev).
Proof.
  intros Hi Hstep Hi'. unfold output_sets_step in *.
  rewrite (nth_app_local l1 l2 i Hi).
  eapply stride_local; [| |exact Hstep|exact Hi'].
  - intros Hk. unfold output_set_record.
    rewrite title_at_local by lia. local_line l1 l2 (i + 3)%nat. done.
  - intros e. unfold output_set_record. repeat same_head.
    destruct (Nat.ltb_spec (i + 3) (length l1)) as [H3|H3]; [|done].
    local_line l1 l2 (i + 3)%nat. by same_head.
Qed.
End StepSplit.

(** ** The loops of block 1051: lines before and lines after *)

Section VectorSplit.
Context `{FloatConv}.

Lemma cont_loop_mono f f' lines cnt i v :
  (f <= f')%nat -> cont_loop f lines cnt i v <> Fuel ->
  cont_loop f' lines cnt i v = cont_loop f lines cnt i v.
Proof.
  revert f' i v. induction f as [|f IH]; intros f' i v Hf Hne.
  - simpl in Hne. destruct f'; simpl; destruct (_ && _); done.
  - destruct f' as [|f']; [lia|]. simpl in *.
    destruct (_ && _); [|done].
    destruct (is_end_marker _); [done|].
    destruct (floats _) as [vs|e|]; [|done|done].
    apply IH; [lia|done].
Qed.

Lemma cont_loop_any_fuel f lines cnt i v :
  (length lines <= f)%nat ->
  cont_loop f lines cnt i v = cont_loop (length lines) lines cnt i v.
Proof.
  intros Hf. apply cont_loop_mono; [done|]. apply cont_loop_fuel. lia.
Qed.

Lemma results_loop_mono f f' lines i r :
  (f <= f')%nat -> results_loop f lines i r <> Fuel ->
  results_loop f' lines i r = results_loop f lines i r.
Proof.
  revert f' i r. induction f as [|f IH]; intros f' i r Hf Hne.
  - simpl in Hne. destruct f'; simpl; destruct (_ <? _)%nat; done.
  - destruct f' as [|f']; [lia|]. simpl in *.
    destruct (_ <? _)%nat; [|done].
    destruct (is_end_marker _); [done|].
    destruct (_ =? 2)%nat.
    { destruct (sparse_record _) as [[id v]|e|]; [|done|done].
      apply IH; [lia|done]. }
    destruct (2 <? _)%nat; [|apply IH; [lia|done]].
    destruct (run_record _) as [[[s e] v]|e|]; [|done|done].
    destruct (cont_loop _ _ _ _ _) as [j v'|j v'|e' j|]; try done.
    + apply IH; [lia|done].
    + apply IH; [lia|done].
Qed.

Lemma results_loop_any_fuel f lines i r :
  (length lines <= f)%nat ->
  results_loop f lines i r = results_loop (length lines) lines i r.
Proof.
  intros Hf. apply results_loop_mono; [done|]. apply results_loop_fuel. lia.
Qed.

Lemma cont_loop_shift f l1 l2 cnt j v :
  cont_loop f (l1 ++ l2) cnt (length l1 + j) v
  = shift_end (length l1) (cont_loop f l2 cnt j v).
Proof.
  revert j v. induction f as [|f IH]; intros j v; simpl; shift_lines.
  - by destruct (_ && _).
  - destruct (_ && _); [|done].
    destruct (is_end_marker _); [done|].
    destruct (floats _) as [vs|e|]; [|done|done].
    apply IH.
Qed.

Lemma results_loop_shift f l1 l2 j r :
  results_loop f (l1 ++ l2) (length l1 + j) r
  = shift_end (length l1) (results_loop f l2 j r).
Proof.
  revert j r. induction f as [|f IH]; intros j r; simpl; shift_lines.
  - by destruct (_ <? _)%nat.
  - destruct (_ <? _)%nat; [|done].
    destruct (is_end_marker _); [done|].
    destruct (_ =? 2)%nat.
    { destruct (sparse_record _) as [[id v]|e|]; [|done|done]. apply IH. }
    destruct (2 <? _)%nat; [|apply IH].
    destruct (run_record _) as [[[s e] v]|e|]; [|done|done].
    rewrite cont_loop_shift.
    rewrite (cont_loop_any_fuel (length l1 + length l2) l2) by lia.
    destruct (cont_loop (length l2) l2 _ _ _) as [j' v'|j' v'|e' j'|]; simpl; try done.
Qed.

Lemma cont_loop_local f l1 l2 cnt j v :
  ended_inside (length l1) (cont_loop f l1 cnt j v) ->
  cont_loop f (l1 ++ l2) cnt j v = cont_loop f l1 cnt j v.
Proof.
  revert j v. induction f as [|f IH]; intros j v; simpl; rewrite length_app.
  - destruct (Z.ltb _ _); simpl; [|done].
    destruct (Nat.ltb_spec j (length l1)); [done|]. simpl. lia.
  - destruct (Z.ltb _ _); simpl; [|done].
    destruct (Nat.ltb_spec j (length l1)) as [Hj|Hj]; [|simpl; lia].
    destruct (Nat.ltb_spec j (length l1 + length l2)); [|lia].
    rewrite (nth_app_local l1 l2 j Hj).
    destruct (is_end_marker _); [done|].
    destruct (floats _) as [vs|e|]; [|done|done].
    apply IH.
Qed.

Lemma results_loop_local f l1 l2 j r :
  match results_loop f l1 j r with
  | Broke _ _ | Raised _ _ => True
  | _ => False
  end ->
  results_loop f (l1 ++ l2) j r = results_loop f l1 j r.
Proof.
  revert j r. induction f as [|f IH]; intros j r; simpl; rewrite length_app.
  - by destruct (_ <? _)%nat.
  - destruct (Nat.ltb_spec j (length l1)) as [Hj|Hj]; [|done].
    destruct (Nat.ltb_spec j (length l1 + length l2)); [|lia].
    rewrite (nth_app_local l1 l2 j Hj).
    destruct (is_end_marker _); [done|].
    destruct (_ =? 2)%nat.
    { destruct (sparse_record _) as [[id v]|e|]; [|done|done]. apply IH. }
    destruct (2 <? _)%nat; [|apply IH].
    destruct (run_record _) as [[[s e] v]|e|]; [|done|done].
    rewrite (cont_loop_any_fuel (length l1 + length l2) (l1 ++ l2))
      by (rewrite length_app; lia).
    rewrite length_app.
    pose proof (cont_loop_local (length l1) l1 l2 (wrap_int (e - s + 1)) (j + 1) v)
      as Hloc.
    pose proof (cont_loop_mono (length l1) (length l1 + length l2) (l1 ++ l2)
                  (wrap_int (e - s + 1)) (j + 1) v) as Hmono.
    destruct (cont_loop (length l1) l1 _ _ _) as [j' v'|j' v'|e' j'|] eqn:Hc;
      try done.
    + intros Hres. rewrite Hmono; [|lia|rewrite Hloc; done].
      rewrite Hloc by done. by apply IH.
    + intros Hres.
      assert (Hin : (j' < length l1)%nat).
      { pose proof (results_loop_bounds f l1 j'
                      (assign_run s 0 (run_prefix v' (wrap_int (e - s + 1))) r)) as Hb.
        destruct (results_loop f l1 j' _); try done; lia. }
      rewrite Hmono; [|lia|rewrite Hloc; done].
      rewrite Hloc by done. by apply IH.
    + intros _. rewrite Hmono; [|lia|rewrite Hloc; done]. by rewrite Hloc.
Qed.

Lemma vector_header_shift l1 l2 j parts :
  vector_header (l1 ++ l2) (length l1 + j) parts = vector_header l2 j parts.
Proof. unfold vector_header. shift_lines. by rewrite title_at_shift. Qed.

Lemma vector_header_local l1 l2 i parts :
  (i + 6 <= length l1)%nat ->
  vector_header (l1 ++ l2) i parts = vector_header l1 i parts.
Proof.
  intros Hi. unfold vector_header.
  rewrite title_at_local by lia. by local_line l1 l2 (i + 5)%nat.
Qed.

Lemma vector_header_raise l1 l2 i parts e :
  vector_header l1 i parts = Raise e -> vector_header (l1 ++ l2) i parts = Raise e.
Proof.
  unfold vector_header. repeat same_head.
  destruct (Nat.ltb_spec (i + 5) (length l1)) as [H5|H5]; [|done].
  local_line l1 l2 (i + 5)%nat. by repeat same_head.
Qed.

Lemma vectors_step_shift l1 l2 j :
  vectors_step (l1 ++ l2) (length l1 + j) = shift (length l1) (vectors_step l2 j).
Proof.
  unfold vectors_step. rewrite vector_header_shift. shift_lines.
  destruct (_ <=? _)%nat; [|done].
  destruct (vector_header _ _ _) as [[[[sid vid] title] ety]|e|]; [| |done].
  - rewrite results_loop_any_fuel by (rewrite length_app; lia).
    rewrite length_app, results_loop_shift.
    rewrite (results_loop_any_fuel (length l1 + length l2) l2) by lia.
    destruct (results_loop (length l2) l2 _ _) as [j' r|j' r|e j'|]; simpl; try done.
    destruct (caught e); simpl; [|done]. by rewrite Nat.add_assoc.
  - by destruct (caught e).
Qed.

Lemma vectors_step_local l1 l2 i i' ev :
  (i < length l1)%nat -> vectors_step l1 i = Ok (i', ev) -> (i' <= length l1)%nat ->
  closed ev = true -> vectors_step (l1 ++ l2) i = Ok (i', ev).
Proof.
  intros Hi Hstep Hi' Hclosed. unfold vectors_step in *.
  rewrite (nth_app_local l1 l2 i Hi).
  destruct (_ <=? _)%nat; [|done].
  destruct (vector_header l1 i _) as [[[[sid vid] title] ety]|e|] eqn:Hh; [| |done].
  - pose proof (results_loop_bounds (length l1) l1 (i + 7) ∅) as Hb.
    pose proof (results_loop_local (length l1) l1 l2 (i + 7) ∅) as Hloc.
    pose proof (results_loop_mono (length l1) (length (l1 ++ l2)) (l1 ++ l2) (i + 7) ∅)
      as Hmono.
    rewrite length_app in Hmono.
    destruct (results_loop (length l1) l1 _ _) as [j r|j r|e j|] eqn:Hr; [| | |done].
    + rewrite vector_header_local, Hh by lia.
      rewrite length_app, Hmono; [|lia|rewrite Hloc; done]. by rewrite Hloc.
    + by simplify_eq.
    + rewrite vector_header_local, Hh by lia.
      rewrite length_app, Hmono; [|lia|rewrite Hloc; done]. by rewrite Hloc.
  - by rewrite (vector_header_raise l1 l2 i _ e Hh).
Qed.
End VectorSplit.

(** ** The block scanner on a file made of delimited blocks *)

Lemma collect_block_mono f f' lines i bl :
  (f <= f')%nat -> collect_block f lines i bl <> OutOfFuel ->
  collect_block f' lines i bl = collect_block f lines i bl.
Proof.
  revert f' i bl. induction f as [|f IH]; intros f' i bl Hf Hne.
  - simpl in Hne. destruct f'; simpl; destruct (_ <? _)%nat; done.
  - destruct f' as [|f']; [lia|]. simpl in *.
    destruct (_ <? _)%nat; [|done].
    destruct (String.eqb _ _); [done|]. apply IH; [lia|done].
Qed.

Lemma collect_block_any_fuel f lines i bl :
  (length lines <= f)%nat ->
  collect_block f lines i bl = collect_block (length lines) lines i bl.
Proof.
  intros Hf. apply collect_block_mono; [done|]. apply collect_block_fuel. lia.
Qed.

Lemma collect_block_shift f l1 l2 j bl :
  collect_block f (l1 ++ l2) (length l1 + j) bl
  = shift (length l1) (collect_block f l2 j bl).
Proof.
  revert j bl. induction f as [|f IH]; intros j bl; simpl; shift_lines.
  - by destruct (_ <? _)%nat.
  - destruct (_ <? _)%nat; [|done].
    destruct (String.eqb _ _); [done|]. apply IH.
Qed.

Lemma parse_step_shift l1 l2 j :
  parse_step (l1 ++ l2) (length l1 + j) = shift (length l1) (parse_step l2 j).
Proof.
  unfold parse_step. shift_lines.
  destruct (String.eqb _ _); [|done].
  destruct (_ <? _)%nat; [|done].
  destruct (String.eqb _ _); [done|].
  destruct (c_int _) as [id|e|]; [| |done].
  - rewrite collect_block_any_fuel by (rewrite length_app; lia).
    rewrite length_app, collect_block_shift.
    rewrite (collect_block_any_fuel (length l1 + length l2) l2) by lia.
    by destruct (collect_block (length l2) l2 _ _) as [[j' bl]| |].
  - by destruct (caught_value e).
Qed.

Lemma collect_block_body (content : list string) :
  forall fuel before rest bl,
    existsb (fun l => String.eqb (rstrip_newline l) BLOCK_DELIMITER) content = false ->
    (length content < fuel)%nat ->
    collect_block fuel (before ++ content ++ with_newline BLOCK_DELIMITER :: rest)
      (length before) bl
    = Ok ((length before + length content + 1)%nat,
          bl ++ List.map rstrip_newline content).
Proof.
  induction content as [|l content IH]; intros fuel before rest bl Hbody Hfuel.
  - destruct fuel as [|fuel]; [simpl in Hfuel; lia|]. cbn [collect_block app].
    assert (Hlt : (length before <?
                   length (before ++ with_newline BLOCK_DELIMITER :: rest))%nat = true).
    { apply Nat.ltb_lt. rewrite length_app. simpl. lia. }
    rewrite Hlt.
    pose proof (nth_app_shift before (with_newline BLOCK_DELIMITER :: rest) 0) as Hn.
    rewrite Nat.add_0_r in Hn. rewrite Hn. cbn [nth].
    change (rstrip_newline (with_newline BLOCK_DELIMITER)) with BLOCK_DELIMITER.
    rewrite String.eqb_refl. cbn [List.map length]. rewrite app_nil_r.
    f_equal. f_equal. lia.
  - destruct fuel as [|fuel]; [simpl in Hfuel; lia|].
    cbn [existsb] in Hbody. apply orb_false_iff in Hbody as [Hl Hbody].
    cbn [collect_block].
    assert (Hlt : (length before <?
                   length (before ++ (l :: content)
                           ++ with_newline BLOCK_DELIMITER :: rest))%nat = true).
    { apply Nat.ltb_lt. rewrite length_app. simpl. lia. }
    rewrite Hlt.
    pose proof (nth_app_shift before
                  ((l :: content) ++ with_newline BLOCK_DELIMITER :: rest) 0) as Hn.
    rewrite Nat.add_0_r in Hn. rewrite Hn. cbn [nth app]. rewrite Hl.
    replace (before ++ l :: content ++ with_newline BLOCK_DELIMITER :: rest)
      with ((before ++ [l]) ++ content ++ with_newline BLOCK_DELIMITER :: rest)
      by (by rewrite <- app_assoc).
    replace (length before + 1)%nat with (length (before ++ [l]))
      by (rewrite length_app; simpl; lia).
    rewrite IH; [|done|simpl in Hfuel; lia].
    rewrite length_app. cbn [length List.map]. rewrite <- app_assoc.
    f_equal. f_equal. lia.
Qed.

Lemma parse_step_block (sb : source_block) (b : FEMAPBlock) (rest : list string) :
  block_of sb = Some b ->
  parse_step (render_block sb ++ rest) 0
  = Ok (length (render_block sb), Some b).
Proof.
  unfold block_of. destruct sb as [idl content]. cbn [id_line body].
  destruct (c_int (strip idl)) as [id| |] eqn:Hid; [|done|done].
  destruct (String.eqb (strip idl) "-1") eqn:Hstray; [done|].
  destruct (existsb _ content) eqn:Hbody; [done|]. intros [= <-].
  set (file := render_block {| id_line := idl; body := content |} ++ rest).
  assert (Hfile : file = [with_newline BLOCK_DELIMITER; idl]
                         ++ content ++ with_newline BLOCK_DELIMITER :: rest).
  { unfold file, render_block. cbn [id_line body]. by rewrite <- !app_assoc. }
  assert (Hlen : length file = (length content + 3 + length rest)%nat).
  { rewrite Hfile, !length_app. simpl. lia. }
  assert (Hrlen : length (render_block {| id_line := idl; body := content |})
                  = (length content + 3)%nat).
  { unfold render_block. rewrite !length_app. simpl. lia. }
  unfold parse_step.
  replace (nth 0 file "") with (with_newline BLOCK_DELIMITER) by (by rewrite Hfile).
  replace (nth (0 + 1) file "") with idl by (by rewrite Hfile).
  change (rstrip_newline (with_newline BLOCK_DELIMITER)) with BLOCK_DELIMITER.
  rewrite String.eqb_refl.
  destruct (Nat.ltb_spec (0 + 1) (length file)); [|lia].
  rewrite Hstray, Hid.
  pose proof (collect_block_body content (length file)
                [with_newline BLOCK_DELIMITER; idl] rest [] Hbody) as Hc.
  rewrite <- Hfile in Hc. cbn [length] in Hc.
  change (0 + 2)%nat with 2%nat. rewrite Hc by lia.
  rewrite Hrlen. simpl. do 2 f_equal. lia.
Qed.

Lemma parse_render_from (src : list source_block) :
  forall bs fuel blocks,
    blocks_of src = Some bs ->
    (length (render_file src) <= fuel)%nat ->
    scan_from parse_step store_opt fuel (render_file src) 0 blocks
    = Ok (length (render_file src), store_all bs blocks).
Proof.
  induction src as [|sb src IH]; intros bs fuel blocks Hbs Hfuel.
  - simpl in Hbs. injection Hbs as <-. by destruct fuel.
  - cbn [blocks_of] in Hbs.
    destruct (block_of sb) as [b|] eqn:Hb; [|done].
    destruct (blocks_of src) as [bs'|] eqn:Hbs'; [|done].
    injection Hbs as <-.
    cbn [render_file flat_map] in *. fold (render_file src) in *.
    assert (Hlen : (2 <= length (render_block sb))%nat) by (simpl; lia).
    rewrite length_app in Hfuel.
    destruct fuel as [|fuel]; [lia|].
    rewrite (scan_from_step parse_step store_opt fuel _ 0 blocks
               (length (render_block sb)) (Some b));
      [|rewrite length_app; lia|by apply parse_step_block].
    pose proof (scan_from_shift parse_step parse_step_shift store_opt fuel
                  (render_block sb) (render_file src) 0 (store_opt blocks (Some b)))
      as Hshift.
    rewrite Nat.add_0_r in Hshift. rewrite Hshift.
    rewrite (IH bs' fuel _ eq_refl) by lia.
    rewrite shift_ok, length_app. reflexivity.
Qed.

(** On a file made of well-delimited blocks, [_parse] stores the blocks in
    file order. *)
Lemma parse_render (src : list source_block) (bs : list FEMAPBlock) :
  blocks_of src = Some bs ->
  _parse (render_file src) = Ok (store_all bs ∅).
Proof.
  intros Hbs. unfold _parse, scan_lines.
  by rewrite (parse_render_from src bs _ ∅ Hbs).
Qed.

(** The store keeps, for every ID, the blocks with that ID in order. *)
Lemma get_blocks_store_all (bs : list FEMAPBlock) (blocks : gmap Z (list FEMAPBlock))
    (id : Z) :
  get_blocks (store_all bs blocks) id = get_blocks blocks id ++ with_id id bs.
Proof.
  revert blocks. induction bs as [|b bs IH]; intros blocks.
  - simpl. by rewrite app_nil_r.
  - cbn [store_all fold_left]. fold (store_all bs (store_block b blocks)).
    rewrite IH. unfold with_id. cbn [List.filter].
    unfold store_block at 1, get_blocks at 1.
    destruct (Z.eqb_spec (block_id b) id) as [->|Hne].
    + rewrite lookup_insert_eq. simpl. by rewrite <- app_assoc.
    + rewrite lookup_insert_ne by done. reflexivity.
Qed.

Lemma store_all_snoc (bs : list FEMAPBlock) (b : FEMAPBlock)
    (blocks : gmap Z (list FEMAPBlock)) :
  store_all (bs ++ [b]) blocks = store_block b (store_all bs blocks).
Proof. unfold store_all. by rewrite fold_left_app. Qed.

Lemma store_all_lookup (bs : list FEMAPBlock) (id : Z) :
  store_all bs ∅ !! id
  = match with_id id bs with [] => None | l => Some l end.
Proof.
  induction bs as [|b bs IH] using rev_ind; [done|].
  rewrite store_all_snoc. unfold with_id in *.
  rewrite List.filter_app. cbn [List.filter].
  unfold store_block.
  destruct (Z.eqb_spec (block_id b) id) as [Heq|Hne].
  - rewrite Heq, lookup_insert_eq. unfold get_blocks. rewrite IH.
    by destruct (List.filter _ bs).
  - rewrite lookup_insert_ne by done. by rewrite app_nil_r.
Qed.

(** ** Blocks of one-line records: any split *)

Section ScanSplitAny.
Context {E : Type}.
Variable step : list string -> nat -> res (nat * E).

Hypothesis step_stride :
  forall lines i i' ev, step lines i = Ok (i', ev) -> i' = (i + 1)%nat.
Hypothesis step_local :
  forall l1 l2 i, (i < length l1)%nat -> step (l1 ++ l2) i = step l1 i.
Hypothesis step_shift :
  forall l1 l2 j, step (l1 ++ l2) (length l1 + j) = shift (length l1) (step l2 j).

Lemma stride_one_progress lines i i' ev :
  step lines i = Ok (i', ev) -> (i < i')%nat.
Proof using step_stride. intros Hs. apply step_stride in Hs. lia. Qed.

Lemma scan_from_prefix_any {A : Type} (emit : A -> E -> A) l1 l2 :
  forall fuel i fuel2 a,
    (i <= length l1)%nat -> (length l1 - i <= fuel)%nat -> (length l2 <= fuel2)%nat ->
    scan_from step emit (fuel + fuel2) (l1 ++ l2) i a
    = scan_from step emit fuel l1 i a
      ≫= (fun p => scan_from step emit fuel2 (l1 ++ l2) (length l1) (snd p)).
Proof using step_stride step_local.
  induction fuel as [|fuel IH]; intros i fuel2 a Hi Hf Hf2.
  - assert (i = length l1) as -> by lia. cbn [scan_from Nat.add].
    destruct (Nat.ltb_spec (length l1) (length l1)); [lia|]. reflexivity.
  - cbn [Nat.add scan_from]. rewrite length_app.
    destruct (Nat.ltb_spec i (length l1)) as [Hlt|Hge].
    + destruct (Nat.ltb_spec i (length l1 + length l2)); [|lia].
      rewrite (step_local l1 l2 i Hlt).
      destruct (step l1 i) as [[i' ev]| |] eqn:Hs; simpl; [|done|done].
      apply step_stride in Hs as ->. apply IH; lia.
    + assert (i = length l1) as -> by lia. simpl.
      pose proof (scan_from_fuel step stride_one_progress emit
                    (S (fuel + fuel2)) fuel2 (l1 ++ l2) (length l1) a) as Hfuel.
      rewrite length_app in Hfuel. cbn [scan_from] in Hfuel.
      rewrite length_app in Hfuel. apply Hfuel; lia.
Qed.

Lemma scan_lines_split_any {A : Type} (emit : A -> E -> A) l1 l2 a :
  scan_lines step emit (l1 ++ l2) a
  = scan_lines step emit l1 a
    ≫= (fun p => shift (length l1) (scan_lines step emit l2 (snd p))).
Proof using step_stride step_local step_shift.
  unfold scan_lines. rewrite length_app.
  rewrite (scan_from_prefix_any emit l1 l2 (length l1) 0 (length l2) a) by lia.
  destruct (scan_from step emit (length l1) l1 0 a) as [[j a1]| |]; simpl; try done.
  pose proof (scan_from_shift step step_shift emit (length l2) l1 l2 0 a1) as Hs.
  by rewrite Nat.add_0_r in Hs.
Qed.

Lemma scan_blocks_split_any {A : Type} (emit : A -> E -> A) id l1 l2 before after a :
  scan_blocks step emit
    (before ++ [{| block_id := id; lines := l1 |};
                {| block_id := id; lines := l2 |}] ++ after) a
  = scan_blocks step emit
      (before ++ [{| block_id := id; lines := l1 ++ l2 |}] ++ after) a.
Proof using step_stride step_local step_shift.
  rewrite !(scan_blocks_app step).
  destruct (scan_blocks step emit before a) as [a1| |]; simpl; try done.
  rewrite (scan_lines_split_any emit l1 l2 a1).
  destruct (scan_lines step emit l1 a1) as [[j a2]| |]; simpl; try done.
  by destruct (scan_lines step emit l2 a2) as [[j' a3]| |].
Qed.
End ScanSplitAny.

Lemma for_each_blocks_split {A : Type} (body : string -> A -> res A)
    id l1 l2 before after a :
  for_each (fun block x => for_each body (lines block) x)
    (before ++ [{| block_id := id; lines := l1 |};
                {| block_id := id; lines := l2 |}] ++ after) a
  = for_each (fun block x => for_each body (lines block) x)
      (before ++ [{| block_id := id; lines := l1 ++ l2 |}] ++ after) a.
Proof.
  rewrite !for_each_app.
  destruct (for_each _ before a) as [a1| |]; simpl; try done.
  rewrite for_each_app.
  destruct (for_each body l1 a1) as [a2| |]; simpl; try done.
Qed.

(** ** Source blocks *)

Lemma blocks_of_app (src1 src2 : list source_block) (bs : list FEMAPBlock) :
  blocks_of (src1 ++ src2) = Some bs ->
  exists bs1 bs2, blocks_of src1 = Some bs1 /\ blocks_of src2 = Some bs2 /\ bs = bs1 ++ bs2.
Proof.
  revert bs. induction src1 as [|sb src1 IH]; intros bs; simpl.
  - intros Hbs. by exists [], bs.
  - destruct (block_of sb) as [b|]; [|done].
    destruct (blocks_of (src1 ++ src2)) as [bs'|]; [|done].
    intros [= <-]. destruct (IH bs' eq_refl) as (bs1 & bs2 & -> & -> & ->).
    by exists (b :: bs1), bs2.
Qed.

Lemma blocks_of_app_some (src1 src2 : list source_block) (bs1 bs2 : list FEMAPBlock) :
  blocks_of src1 = Some bs1 -> blocks_of src2 = Some bs2 ->
  blocks_of (src1 ++ src2) = Some (bs1 ++ bs2).
Proof.
  revert bs1. induction src1 as [|sb src1 IH]; intros bs1; simpl.
  - by intros [= <-].
  - destruct (block_of sb) as [b|]; [|done].
    destruct (blocks_of src1) as [bs'|]; [|done].
    intros [= <-] Hbs2. by rewrite (IH bs' eq_refl Hbs2).
Qed.

Lemma block_of_split (idl : string) (body1 body2 : list string) (b : FEMAPBlock) :
  block_of {| id_line := idl; body := body1 ++ body2 |} = Some b ->
  b = {| block_id := block_id b;
         lines := List.map rstrip_newline body1 ++ List.map rstrip_newline body2 |} /\
  c_int (strip idl) = Ok (block_id b) /\
  block_of {| id_line := idl; body := body1 |}
  = Some {| block_id := block_id b; lines := List.map rstrip_newline body1 |} /\
  block_of {| id_line := idl; body := body2 |}
  = Some {| block_id := block_id b; lines := List.map rstrip_newline body2 |}.
Proof.
  unfold block_of. cbn [id_line body].
  destruct (c_int (strip idl)) as [id| |]; [|done|done].
  destruct (String.eqb (strip idl) "-1"); [done|].
  rewrite existsb_app.
  destruct (existsb _ body1); [done|]. destruct (existsb _ body2); [done|].
  simpl. intros [= <-]. simpl. by rewrite List.map_app.
Qed.

Lemma with_id_app id bs1 bs2 : with_id id (bs1 ++ bs2) = with_id id bs1 ++ with_id id bs2.
Proof. apply List.filter_app. Qed.

Lemma with_id_one id lines : with_id id [{| block_id := id; lines := lines |}]
                             = [{| block_id := id; lines := lines |}].
Proof. unfold with_id. simpl. by rewrite Z.eqb_refl. Qed.

Lemma get_blocks_parsed (bs : list FEMAPBlock) (id : Z) :
  get_blocks (store_all bs ∅) id = with_id id bs.
Proof. by rewrite get_blocks_store_all. Qed.

(** ** Splitting a block of the file *)

Lemma res_bind_Ok {A B : Type} (a : A) (k : A -> res B) : Ok a ≫= k = k a.
Proof. reflexivity. Qed.

Lemma whole_records_spec {E : Type} (step : list string -> nat -> res (nat * E))
    (complete : E -> bool) (l1 : list string) :
  whole_records step complete l1 = true ->
  exists evs, events_from step (length l1) l1 0 = Ok (length l1, evs)
              /\ forallb complete evs = true.
Proof.
  unfold whole_records.
  destruct (events_from step (length l1) l1 0) as [[j evs]| |]; [|done|done].
  intros Hw. apply andb_true_iff in Hw as [Hj Hc].
  apply Nat.eqb_eq in Hj as ->. by exists evs.
Qed.

Lemma split_blocks_parsed (id : Z) (bs1 bs2 : list FEMAPBlock) (l1 l2 : list string) :
  get_blocks (store_all (bs1 ++ [{| block_id := id; lines := l1 ++ l2 |}] ++ bs2) ∅) id
  = with_id id bs1 ++ [{| block_id := id; lines := l1 ++ l2 |}] ++ with_id id bs2 /\
  get_blocks (store_all (bs1 ++ [{| block_id := id; lines := l1 |};
                                 {| block_id := id; lines := l2 |}] ++ bs2) ∅) id
  = with_id id bs1 ++ [{| block_id := id; lines := l1 |};
                       {| block_id := id; lines := l2 |}] ++ with_id id bs2.
Proof.
  rewrite !get_blocks_parsed, !with_id_app. split.
  - by rewrite with_id_one.
  - change [{| block_id := id; lines := l1 |}; {| block_id := id; lines := l2 |}]
      with ([{| block_id := id; lines := l1 |}] ++ [{| block_id := id; lines := l2 |}]).
    by rewrite with_id_app, !with_id_one.
Qed.

(** The two files of a split: the blocks [_parse] stores for them. *)
Lemma parse_split (src_before src_after : list source_block) (idl : string)
    (body1 body2 : list string) (bs : list FEMAPBlock) :
  blocks_of (src_before ++ [{| id_line := idl; body := body1 ++ body2 |}] ++ src_after)
  = Some bs ->
  exists id bs1 bs2,
    c_int (strip idl) = Ok id /\
    _parse (render_file
              (src_before ++ [{| id_line := idl; body := body1 ++ body2 |}] ++ src_after))
    = Ok (store_all
            (bs1 ++ [{| block_id := id;
                        lines := List.map rstrip_newline body1
                                 ++ List.map rstrip_newline body2 |}] ++ bs2) ∅) /\
    _parse (render_file
              (src_before ++ [{| id_line := idl; body := body1 |};
                              {| id_line := idl; body := body2 |}] ++ src_after))
    = Ok (store_all
            (bs1 ++ [{| block_id := id; lines := List.map rstrip_newline body1 |};
                     {| block_id := id; lines := List.map rstrip_newline body2 |}]
                 ++ bs2) ∅).
Proof.
  intros Hbs.
  apply blocks_of_app in Hbs as (bs1 & bs' & Hbs1 & Hbs' & ->).
  apply blocks_of_app in Hbs' as (bw & bs2 & Hbw & Hbs2 & ->).
  cbn [blocks_of] in Hbw.
  destruct (block_of _) as [b|] eqn:Hb; [|done]. injection Hbw as <-.
  apply block_of_split in Hb as (Hb & Hid & Hfirst & Hsecond).
  exists (block_id b), bs1, bs2. split; [exact Hid|]. split.
  - apply parse_render. apply blocks_of_app_some; [done|].
    apply (blocks_of_app_some [_] src_after [_] bs2); [|done].
    cbn [blocks_of]. unfold block_of. cbn [id_line body].
    unfold block_of in Hfirst, Hsecond. cbn [id_line body] in Hfirst, Hsecond.
    rewrite Hid in *. destruct (String.eqb (strip idl) "-1"); [done|].
    rewrite existsb_app.
    destruct (existsb _ body1); [done|]. destruct (existsb _ body2); [done|].
    simpl. by rewrite List.map_app.
  - apply parse_render. apply blocks_of_app_some; [done|].
    apply (blocks_of_app_some [_; _] src_after [_; _] bs2); [|done].
    cbn [blocks_of]. by rewrite Hfirst, Hsecond.
Qed.

(** C2, as stated, fails: an element record whose block is split after
    its first line loses its nodes, and a line of the second part is read
    as another element. *)
Lemma C2_counterexample :
  let record := [with_newline "1,124,7,25,8,1,0,0,";
                 with_newline "1,2,3,4,5,6,7,8,0,0,";
                 with_newline "0,0,0,0,0,0,0,0,0,0,";
                 with_newline "0.,0.,0.,"; with_newline "0.,0.,0.,";
                 with_newline "0.,0.,0.,";
                 with_newline "0,0,0,0,0,0,0,0,0,0,0,0,"] in
  let idl := with_newline "   404" in
  _parse (render_file [{| id_line := idl; body := record |}]) ≫= get_elements
  = Ok [{| elem_id := 1; elem_prop_id := 7; topology := 8;
           elem_nodes := [1; 2; 3; 4; 5; 6; 7; 8]%Z |}] /\
  _parse (render_file [{| id_line := idl; body := take 1 record |};
                       {| id_line := idl; body := drop 1 record |}]) ≫= get_elements
  = Ok [{| elem_id := 1; elem_prop_id := 7; topology := 8; elem_nodes := [] |};
        {| elem_id := 0; elem_prop_id := 0; topology := 0; elem_nodes := [] |}] /\
  _parse (render_file [{| id_line := idl; body := take 1 record |};
                       {| id_line := idl; body := drop 1 record |}]) ≫= get_elements
  <> _parse (render_file [{| id_line := idl; body := record |}]) ≫= get_elements.
Proof. repeat split; vm_compute; (reflexivity || discriminate). Qed.

(** C2 (amended): in a file made of delimited blocks, splitting a block
    into two consecutive blocks of the same ID, with the same lines in the
    same order, leaves the extracted data unchanged for the blocks of
    one-line records, 403 and 601, at any line position, and for the blocks
    of several-line records, 404, 402, 450 and 1051, at a record boundary:
    a position where the extraction of the first part alone ends exactly
    at its last line (for 1051, with every vector of the first part closed
    by its terminator). *)
Theorem C2_split_block `{FloatConv} (src_before src_after : list source_block)
    (idl : string) (body1 body2 : list string) (bs : list FEMAPBlock) (id : Z) :
  let file :=
    render_file (src_before ++ [{| id_line := idl; body := body1 ++ body2 |}]
                 ++ src_after) in
  let file' :=
    render_file (src_before ++ [{| id_line := idl; body := body1 |};
                                {| id_line := idl; body := body2 |}] ++ src_after) in
  let l1 := List.map rstrip_newline body1 in
  blocks_of (src_before ++ [{| id_line := idl; body := body1 ++ body2 |}] ++ src_after)
  = Some bs ->
  c_int (strip idl) = Ok id ->
  (id = 403%Z -> _parse file' ≫= get_nodes = _parse file ≫= get_nodes) /\
  (id = 601%Z -> _parse file' ≫= get_materials = _parse file ≫= get_materials) /\
  (id = 404%Z -> whole_records elements_step (fun _ => true) l1 = true ->
     _parse file' ≫= get_elements = _parse file ≫= get_elements) /\
  (id = 402%Z -> whole_records properties_step (fun _ => true) l1 = true ->
     _parse file' ≫= get_properties = _parse file ≫= get_properties) /\
  (id = 450%Z -> whole_records output_sets_step (fun _ => true) l1 = true ->
     _parse file' ≫= get_output_sets = _parse file ≫= get_output_sets) /\
  (id = 1051%Z -> whole_records vectors_step closed l1 = true ->
     _parse file' ≫= get_output_vectors = _parse file ≫= get_output_vectors).
Proof.
  intros file file' l1 Hbs Hid.
  destruct (parse_split src_before src_after idl body1 body2 bs Hbs)
    as (id' & bs1 & bs2 & Hid' & Hfile & Hfile').
  assert (id' = id) as -> by congruence.
  subst file file'. rewrite Hfile, Hfile', !res_bind_Ok.
  destruct (split_blocks_parsed id bs1 bs2 (List.map rstrip_newline body1)
              (List.map rstrip_newline body2)) as [Hwhole Hsplit].
  subst l1.
  split; [|split; [|split; [|split; [|split]]]].
  - intros ->. unfold get_nodes. rewrite Hwhole, Hsplit.
    apply for_each_blocks_split.
  - intros ->. unfold get_materials. rewrite Hwhole, Hsplit.
    apply scan_blocks_split_any.
    + intros lines i i' ev. unfold materials_step.
      destruct (_ <=? _)%nat; [|by intros [= <- _]].
      rewrite stride_step. destruct (material_record _) as [r|e|]; [| |done].
      * by intros [= <- _].
      * destruct (caught e); [|done]. by intros [= <- _].
    + apply materials_step_local.
    + apply materials_step_shift.
  - intros -> Hw. apply whole_records_spec in Hw as (evs & Hev & Hc).
    unfold get_elements. rewrite Hwhole, Hsplit.
    apply (scan_blocks_split elements_step (fun _ => true)) with (evs := evs); try done.
    + apply elements_step_progress.
    + intros. by apply elements_step_local.
    + apply elements_step_shift.
  - intros -> Hw. apply whole_records_spec in Hw as (evs & Hev & Hc).
    unfold get_properties. rewrite Hwhole, Hsplit.
    apply (scan_blocks_split properties_step (fun _ => true)) with (evs := evs); try done.
    + apply properties_step_progress.
    + intros. by apply properties_step_local.
    + apply properties_step_shift.
  - intros -> Hw. apply whole_records_spec in Hw as (evs & Hev & Hc).
    unfold get_output_sets. rewrite Hwhole, Hsplit.
    apply (scan_blocks_split output_sets_step (fun _ => true)) with (evs := evs); try done.
    + apply output_sets_step_progress.
    + intros. by apply output_sets_step_local.
    + apply output_sets_step_shift.
  - intros -> Hw. apply whole_records_spec in Hw as (evs & Hev & Hc).
    unfold get_output_vectors. rewrite Hwhole, Hsplit.
    apply (scan_blocks_split vectors_step closed) with (evs := evs); try done.
    + apply vectors_step_progress.
    + intros. by apply vectors_step_local.
    + apply vectors_step_shift.
Qed.

Lemma C2_witness :
  let rec1 := [with_newline "1,124,7,25,8,1,0,0,";
               with_newline "1,2,3,4,5,6,7,8,0,0,";
               with_newline "0,0,0,0,0,0,0,0,0,0,";
               with_newline "0.,0.,0.,"; with_newline "0.,0.,0.,";
               with_newline "0.,0.,0.,";
               with_newline "0,0,0,0,0,0,0,0,0,0,0,0,"] in
  let rec2 := [with_newline "2,124,7,25,6,1,0,0,";
               with_newline "1,2,3,9,0,0,0,0,0,0,";
               with_newline "0,0,0,0,0,0,0,0,0,0,";
               with_newline "0.,0.,0.,"; with_newline "0.,0.,0.,";
               with_newline "0.,0.,0.,";
               with_newline "0,0,0,0,0,0,0,0,0,0,0,0,"] in
  let hdr := {| id_line := with_newline "   100";
                body := [with_newline "<NULL>"; with_newline "4.41,"] |} in
  let idl := with_newline "   404" in
  whole_records elements_step (fun _ => true) (List.map rstrip_newline rec1) = true /\
  _parse (render_file ([hdr] ++ [{| id_line := idl; body := rec1 |};
                                 {| id_line := idl; body := rec2 |}] ++ []))
    ≫= get_elements
  = _parse (render_file ([hdr] ++ [{| id_line := idl; body := rec1 ++ rec2 |}] ++ []))
      ≫= get_elements.
Proof.
  intros rec1 rec2 hdr idl.
  assert (Hw : whole_records elements_step (fun _ => true)
                 (List.map rstrip_newline rec1) = true) by (vm_compute; reflexivity).
  split; [exact Hw|].
  destruct (C2_split_block (H := dec_float_conv) [hdr] [] idl rec1 rec2 _ 404%Z
              eq_refl eq_refl) as (_ & _ & Helems & _).
  exact (Helems eq_refl Hw).
Defined.

(** ** The order of the blocks in the file *)

(** C5, as stated, fails: exchanging two blocks 402 that define the same
    property ID exchanges the record that comes last, and with it the
    entry of [get_properties]. *)
Lemma C5_counterexample :
  let prop mat title :=
    {| id_line := with_newline "   402";
       body := [with_newline ("7,110," +:+ mat +:+ ",25,1,0,"); with_newline title;
                with_newline "0,0,0,0,"; with_newline "0,"; with_newline "0,";
                with_newline "0,"; with_newline "0,"] |} in
  _parse (render_file [prop "3" "Steel,"; prop "5" "Copper,"]) ≫= get_properties
  = Ok {[ 7%Z := {| material_id := 5; prop_title := "Copper" |} ]} /\
  _parse (render_file [prop "5" "Copper,"; prop "3" "Steel,"]) ≫= get_properties
  = Ok {[ 7%Z := {| material_id := 3; prop_title := "Steel" |} ]} /\
  _parse (render_file [prop "5" "Copper,"; prop "3" "Steel,"]) ≫= get_properties
  <> _parse (render_file [prop "3" "Steel,"; prop "5" "Copper,"]) ≫= get_properties.
Proof. repeat split; vm_compute; (reflexivity || discriminate). Qed.

(** C5 (amended): for two files made of the same delimited blocks in which
    the blocks of every ID come in the same relative order (so for every
    permutation of the blocks of a file that keeps the order of the blocks
    with the same ID and the lines inside each block), [_parse] stores the
    same blocks, and the extracted nodes, elements, properties, materials,
    output sets and output vectors are equal. *)
Theorem C5_block_order `{FloatConv} (src src' : list source_block)
    (bs bs' : list FEMAPBlock) :
  blocks_of src = Some bs ->
  blocks_of src' = Some bs' ->
  (forall id, with_id id bs' = with_id id bs) ->
  _parse (render_file src') = _parse (render_file src) /\
  _parse (render_file src') ≫= get_nodes = _parse (render_file src) ≫= get_nodes /\
  _parse (render_file src') ≫= get_elements
  = _parse (render_file src) ≫= get_elements /\
  _parse (render_file src') ≫= get_properties
  = _parse (render_file src) ≫= get_properties /\
  _parse (render_file src') ≫= get_materials
  = _parse (render_file src) ≫= get_materials /\
  _parse (render_file src') ≫= get_output_sets
  = _parse (render_file src) ≫= get_output_sets /\
  _parse (render_file src') ≫= get_output_vectors
  = _parse (render_file src) ≫= get_output_vectors.
Proof.
  intros Hbs Hbs' Horder.
  assert (Hparse : _parse (render_file src') = _parse (render_file src)).
  { rewrite (parse_render src bs Hbs), (parse_render src' bs' Hbs'). f_equal.
    apply map_eq. intros id. by rewrite !store_all_lookup, Horder. }
  rewrite Hparse. repeat split.
Qed.

Lemma C5_witness :
  let nodes1 := {| id_line := with_newline "   403";
                   body := [with_newline "1,0,0,1,46,0,0,0,0,0,0,0.,0.,0.,"] |} in
  let hdr := {| id_line := with_newline "   100";
                body := [with_newline "<NULL>"; with_newline "4.41,"] |} in
  let nodes2 := {| id_line := with_newline "   403";
                   body := [with_newline "2,0,0,1,46,0,0,0,0,0,0,1.,0.,0.,"] |} in
  _parse (render_file [hdr; nodes1; nodes2]) ≫= get_nodes (H := dec_float_conv)
  = _parse (render_file [nodes1; hdr; nodes2]) ≫= get_nodes (H := dec_float_conv).
Proof.
  intros nodes1 hdr nodes2.
  set (b1 := {| block_id := 403; lines := ["1,0,0,1,46,0,0,0,0,0,0,0.,0.,0.,"] |}).
  set (bh := {| block_id := 100; lines := ["<NULL>"; "4.41,"] |}).
  set (b2 := {| block_id := 403; lines := ["2,0,0,1,46,0,0,0,0,0,0,1.,0.,0.,"] |}).
  assert (Hsrc : blocks_of [nodes1; hdr; nodes2] = Some [b1; bh; b2])
    by (vm_compute; reflexivity).
  assert (Hsrc' : blocks_of [hdr; nodes1; nodes2] = Some [bh; b1; b2])
    by (vm_compute; reflexivity).
  destruct (C5_block_order (H := dec_float_conv)
              [nodes1; hdr; nodes2] [hdr; nodes1; nodes2] _ _ Hsrc Hsrc')
    as (_ & Hnodes & _).
  - intros id. unfold with_id. cbn [List.filter block_id b1 bh b2].
    destruct (Z.eqb_spec 403 id); destruct (Z.eqb_spec 100 id);
      try reflexivity; lia.
  - exact Hnodes.
Defined.

(** * Further properties of the parser *)

(** ** The tokenizer: the shape of the fields *)

Lemma rstrip_by_idem p s : rstrip_by p (rstrip_by p s) = rstrip_by p s.
Proof.
  induction s as [|c s IH]; [done|]. cbn [rstrip_by].
  destruct (rstrip_by p s) as [|c' r] eqn:Hr.
  - destruct (p c) eqn:Hp; [done|]. simpl. by rewrite Hp.
  - cbn [rstrip_by]. cbn [rstrip_by] in IH. by rewrite IH.
Qed.

Lemma lstrip_by_idem p s : lstrip_by p (lstrip_by p s) = lstrip_by p s.
Proof.
  induction s as [|c s IH]; [done|]. simpl.
  destruct (p c) eqn:Hp; [done|]. simpl. by rewrite Hp.
Qed.

Lemma strip_by_comm p s : rstrip_by p (lstrip_by p s) = lstrip_by p (rstrip_by p s).
Proof.
  induction s as [|c s IH]; [done|]. cbn [lstrip_by rstrip_by].
  destruct (p c) eqn:Hp.
  - rewrite IH. destruct (rstrip_by p s) as [|c' r]; [done|].
    cbn [lstrip_by]. by rewrite Hp.
  - cbn [rstrip_by]. destruct (rstrip_by p s) as [|c' r].
    + rewrite Hp. simpl. by rewrite Hp.
    + cbn [lstrip_by]. by rewrite Hp.
Qed.

Lemma strip_idem s : strip (strip s) = strip s.
Proof.
  unfold strip.
  by rewrite strip_by_comm, lstrip_by_idem, rstrip_by_idem.
Qed.

Lemma lstrip_by_none p s : contains p s = false -> lstrip_by p s = s.
Proof.
  destruct s as [|c s]; [done|]. simpl.
  intros Hs. apply orb_false_iff in Hs as [Hc _]. by rewrite Hc.
Qed.

Lemma strip_none s : contains is_space s = false -> strip s = s.
Proof.
  intros Hs. unfold strip. rewrite (rstrip_by_none _ _ Hs). by apply lstrip_by_none.
Qed.

(** A piece of a string holds no character that the string does not hold. *)
Lemma split_by_contains p q s f :
  In f (split_by q s) -> contains p s = false -> contains p f = false.
Proof.
  revert f. induction s as [|c s IH]; intros f.
  - simpl. by intros [<-|[]].
  - rewrite split_by_cons. cbn [contains].
    intros Hin Hs. apply orb_false_iff in Hs as [Hc Hs].
    destruct (q c).
    + destruct Hin as [<-|Hin]; [done|auto].
    + pose proof (split_by_not_nil q s) as Hne.
      destruct (split_by q s) as [|g gs]; [done|].
      destruct Hin as [<-|Hin].
      * simpl. rewrite Hc. apply IH; [by left|done].
      * apply IH; [by right|done].
Qed.

Lemma nonempty_ne s : nonempty s = true -> s <> "".
Proof. by destruct s. Qed.

Lemma parse_csv_line_clean (line f : string) :
  In f (parse_csv_line line) ->
  nonempty f = true /\ contains is_comma f = false /\ strip f = f.
Proof.
  intros Hin. split; [by apply (parse_csv_line_field line)|].
  revert Hin. unfold parse_csv_line, _parse_csv_line_fast.
  set (st := strip (rstrip_comma line)).
  destruct (contains is_comma st) eqn:Hc.
  - intros Hin. apply in_map_iff in Hin as [p [<- Hin]].
    apply List.filter_In in Hin as [Hin _].
    split; [|apply strip_idem].
    unfold strip. apply contains_lstrip, contains_rstrip.
    by apply split_by_field in Hin.
  - intros Hin. apply List.filter_In in Hin as [Hin _].
    split; [by apply (split_by_contains _ _ _ _ Hin)|].
    apply strip_none. by apply split_by_field in Hin.
Qed.

(** X1: every field that the tokenizer returns is non-empty, holds no
    comma and has no whitespace at either end. *)
Theorem X1_fields_are_clean (line f : string) :
  In f (parse_csv_line line) ->
  f <> "" /\ contains is_comma f = false /\ strip f = f.
Proof.
  intros Hin. destruct (parse_csv_line_clean _ _ Hin) as (Hne & Hc & Hs).
  split; [by apply nonempty_ne|done].
Qed.

Lemma X1_witness :
  In "7" (parse_csv_line " 7 , 110 ,,3,") /\
  "7" <> "" /\ contains is_comma "7" = false /\ strip "7" = "7".
Proof.
  assert (Hin : In "7" (parse_csv_line " 7 , 110 ,,3,")) by (vm_compute; auto).
  split; [exact Hin|]. exact (X1_fields_are_clean _ _ Hin).
Defined.

(** ** The tokenizer: lines without fields *)

Lemma tokens_nil q s :
  tokens q s = [] <-> contains (fun c => negb (q c)) s = false.
Proof.
  unfold tokens. induction s as [|c s IH]; [done|].
  rewrite split_by_cons. cbn [contains].
  destruct (q c) eqn:Hq; simpl.
  - exact IH.
  - pose proof (split_by_not_nil q s) as Hne.
    destruct (split_by q s) as [|g gs]; [done|]. simpl. split; discriminate.
Qed.

Lemma rstrip_by_all p s : contains (fun c => negb (p c)) s = false -> rstrip_by p s = "".
Proof.
  induction s as [|c s IH]; [done|]. cbn [contains rstrip_by].
  intros Hs. apply orb_false_iff in Hs as [Hc Hs]. rewrite (IH Hs).
  apply negb_false_iff in Hc. by rewrite Hc.
Qed.

Lemma split_ws_field (line f : string) :
  In f (parse_csv_line line) -> split_ws f <> [].
Proof.
  intros Hin Hnil. destruct (parse_csv_line_clean _ _ Hin) as (Hne & _ & Hst).
  apply nonempty_ne in Hne. apply Hne. rewrite <- Hst. unfold strip.
  change split_ws with (tokens is_space) in Hnil. apply tokens_nil in Hnil.
  by rewrite (rstrip_by_all _ _ Hnil).
Qed.

(** X2: the tokenizer returns no field exactly for the lines made of
    whitespace and commas only (the empty line among them). *)
Theorem X2_no_field_iff_separators_only (line : string) :
  parse_csv_line line = [] <-> contains not_separator line = false.
Proof.
  unfold not_separator, is_separator.
  rewrite <- (tokens_nil (fun a => is_space a || is_comma a)).
  rewrite <- parse_csv_line_tokens. split.
  - by intros ->.
  - intros Hflat. pose proof (split_ws_field line) as Hf.
    destruct (parse_csv_line line) as [|f fs]; [done|].
    exfalso. apply (Hf f); [by left|].
    simpl in Hflat. by apply app_eq_nil in Hflat as [? _].
Qed.

Lemma X2_witness :
  contains not_separator " , , " = false /\ parse_csv_line " , , " = [].
Proof.
  assert (Hs : contains not_separator " , , " = false) by reflexivity.
  split; [exact Hs|]. exact (proj2 (X2_no_field_iff_separators_only _) Hs).
Defined.

(** ** The tokenizer: trailing commas *)

Lemma rstrip_by_snoc p s c :
  p c = true -> rstrip_by p (s +:+ String c EmptyString) = rstrip_by p s.
Proof.
  intros Hp. induction s as [|a s IH]; simpl.
  - by rewrite Hp.
  - simpl in IH. by rewrite IH.
Qed.

(** X3: a comma added at the end of a line does not change its fields: the
    comma that closes every record line of a comma-separated file opens no
    field. *)
Theorem X3_trailing_comma_ignored (line : string) :
  parse_csv_line (line +:+ ",") = parse_csv_line line.
Proof.
  unfold parse_csv_line, _parse_csv_line_fast, rstrip_comma.
  by rewrite rstrip_by_snoc.
Qed.

(** ** The block scanner: outcomes *)

Lemma scan_from_raise {E A : Type} (step : list string -> nat -> res (nat * E))
    (emit : A -> E -> A) (P : exn -> Prop) (lines : list string) :
  (forall i e, step lines i = Raise e -> P e) ->
  forall fuel i a e, scan_from step emit fuel lines i a = Raise e -> P e.
Proof.
  intros Hstep. induction fuel as [|fuel IH]; intros i a e; simpl.
  - by destruct (_ <? _)%nat.
  - destruct (_ <? _)%nat; [|done].
    destruct (step lines i) as [[i' ev]|e'|] eqn:Hs; simpl; [apply IH| |done].
    intros [= <-]. by apply (Hstep i).
Qed.

Lemma scan_blocks_raise {E A : Type} (step : list string -> nat -> res (nat * E))
    (emit : A -> E -> A) (P : exn -> Prop) :
  (forall lines i e, step lines i = Raise e -> P e) ->
  forall bs a e, scan_blocks step emit bs a = Raise e -> P e.
Proof.
  intros Hstep. induction bs as [|b bs IH]; intros a e; simpl; [done|].
  unfold scan_lines.
  destruct (scan_from step emit _ (lines b) 0 a) as [[j a']|e'|] eqn:Hs; simpl;
    [apply IH| |done].
  intros [= <-]. by apply (scan_from_raise step emit P (lines b) (Hstep _)) in Hs.
Qed.

Lemma c_int_raise (s : string) (e : exn) :
  c_int s = Raise e -> e = ValueError \/ e = OverflowError.
Proof.
  unfold c_int. destruct (py_int s) as [z|]; [|intros [= <-]; by left].
  destruct (in_int_range z); [done|]. intros [= <-]. by right.
Qed.

Lemma collect_block_no_raise fuel lines i bl e : collect_block fuel lines i bl <> Raise e.
Proof.
  revert i bl. induction fuel as [|fuel IH]; intros i bl; simpl.
  - by destruct (_ <? _)%nat.
  - destruct (_ <? _)%nat; [|done]. destruct (String.eqb _ _); [done|]. apply IH.
Qed.

(** The scanner raises only on a block-ID line whose integer does not fit
    a C int. *)
Lemma parse_step_raise (lines : list string) (i : nat) (e : exn) :
  parse_step lines i = Raise e ->
  e = OverflowError /\ exists l, In l lines /\ c_int (strip l) = Raise OverflowError.
Proof.
  unfold parse_step.
  destruct (String.eqb _ _); [|done].
  destruct (Nat.ltb_spec (i + 1) (length lines)) as [Hlt|]; [|done].
  destruct (String.eqb _ _); [done|].
  destruct (c_int _) as [id|e'|] eqn:Hid; [| |done].
  - destruct (collect_block _ _ _ _) as [[j bl]|e'|] eqn:Hc; simpl; [done| |done].
    by apply collect_block_no_raise in Hc.
  - destruct (c_int_raise _ _ Hid) as [->| ->]; [done|]. simpl.
    intros [= <-]. split; [done|].
    exists (nth (i + 1) lines ""). split; [by apply nth_In|done].
Qed.

(** X4: block scanning always ends, and it returns the blocks unless a
    line of the file holds an integer that does not fit a C int: the only
    exception it lets through is the OverflowError of such a block-ID
    line. *)
Theorem X4_parse_returns_or_overflows (file : list string) :
  (exists blocks, _parse file = Ok blocks) \/
  (_parse file = Raise OverflowError /\
   exists l, In l file /\ c_int (strip l) = Raise OverflowError).
Proof.
  pose proof (parse_terminates file) as Hfuel. unfold _parse, scan_lines in *.
  destruct (scan_from parse_step store_opt (length file) file 0 ∅)
    as [[j blocks]|e|] eqn:Hs; simpl in *; [left; by exists blocks| |done].
  right.
  apply (scan_from_raise parse_step store_opt
           (fun e => e = OverflowError /\
                     exists l, In l file /\ c_int (strip l) = Raise OverflowError))
    in Hs as [-> Hl]; [done|].
  intros i e'. apply parse_step_raise.
Qed.

(** ** The block scanner: what the stored blocks look like *)

Lemma scan_from_invariant {E A : Type} (step : list string -> nat -> res (nat * E))
    (emit : A -> E -> A) (Inv : A -> Prop) (Q : E -> Prop) (lines : list string) :
  (forall i i' ev, step lines i = Ok (i', ev) -> Q ev) ->
  (forall a ev, Inv a -> Q ev -> Inv (emit a ev)) ->
  forall fuel i a j a',
    Inv a -> scan_from step emit fuel lines i a = Ok (j, a') -> Inv a'.
Proof.
  intros Hstep Hemit. induction fuel as [|fuel IH]; intros i a j a' Ha; simpl.
  - destruct (_ <? _)%nat; [done|]. by intros [= _ <-].
  - destruct (_ <? _)%nat; [|by intros [= _ <-]].
    destruct (step lines i) as [[i' ev]| |] eqn:Hs; simpl; [|done|done].
    apply IH. apply Hemit; [done|]. by apply (Hstep i i').
Qed.

(** A line of a stored block is a line of the file without its newline,
    and it is not the delimiter. *)
Definition block_line (file : list string) (l : string) : Prop :=
  l <> BLOCK_DELIMITER /\ exists l', In l' file /\ l = rstrip_newline l'.

Lemma collect_block_lines (file : list string) fuel i bl j bl' :
  Forall (block_line file) bl ->
  collect_block fuel file i bl = Ok (j, bl') -> Forall (block_line file) bl'.
Proof.
  revert i bl. induction fuel as [|fuel IH]; intros i bl Hbl; simpl.
  - destruct (_ <? _)%nat; [done|]. by intros [= _ <-].
  - destruct (Nat.ltb_spec i (length file)) as [Hlt|]; [|by intros [= _ <-]].
    destruct (String.eqb_spec (rstrip_newline (nth i file "")) BLOCK_DELIMITER)
      as [|Hne]; [by intros [= _ <-]|].
    apply IH. apply Forall_app. split; [done|].
    apply Forall_cons. split; [|done]. split; [done|].
    exists (nth i file ""). split; [by apply nth_In|done].
Qed.

Definition stored_block (file : list string) (b : FEMAPBlock) : Prop :=
  in_int_range (block_id b) = true /\ Forall (block_line file) (lines b).

Lemma parse_step_stored (file : list string) (i i' : nat) (b : FEMAPBlock) :
  parse_step file i = Ok (i', Some b) -> stored_block file b.
Proof.
  unfold parse_step.
  destruct (String.eqb _ _); [|done].
  destruct (_ <? _)%nat; [|done].
  destruct (String.eqb _ _); [done|].
  destruct (c_int _) as [id|e|] eqn:Hid; [| |done].
  - destruct (collect_block _ _ _ _) as [[j bl]| |] eqn:Hc; simpl; [|done|done].
    intros [= _ <-]. split; simpl.
    + apply c_int_range in Hid. unfold in_int_range.
      apply andb_true_iff. split; apply Z.leb_le; lia.
    + eapply collect_block_lines; [|exact Hc]. constructor.
  - by destruct (caught_value e).
Qed.

Definition stored_blocks (file : list string) (blocks : gmap Z (list FEMAPBlock)) : Prop :=
  forall id bs, blocks !! id = Some bs ->
    bs <> [] /\ Forall (fun b => block_id b = id /\ stored_block file b) bs.

Lemma store_opt_stored file blocks ev :
  stored_blocks file blocks ->
  (forall b, ev = Some b -> stored_block file b) ->
  stored_blocks file (store_opt blocks ev).
Proof.
  intros Hinv Hev. destruct ev as [b|]; [|done]. simpl.
  intros id bs. unfold store_block.
  destruct (decide (block_id b = id)) as [<-|Hne].
  - rewrite lookup_insert_eq. intros [= <-]. split; [by destruct (get_blocks _ _)|].
    apply Forall_app. split.
    + unfold get_blocks. destruct (blocks !! block_id b) as [bs|] eqn:Hl; [|done].
      by apply (Hinv _ _ Hl).
    + apply Forall_cons. split; [|done]. split; [done|]. by apply Hev.
  - rewrite lookup_insert_ne by done. apply Hinv.
Qed.

(** X5: in the dictionary that block scanning returns, every key holds a
    non-empty list of blocks, each with the key as its ID, an ID in the
    range of a C int, and lines that are lines of the file without their
    newline, none of them the delimiter. *)
Theorem X5_stored_blocks (file : list string) (blocks : gmap Z (list FEMAPBlock))
    (id : Z) (bs : list FEMAPBlock) :
  _parse file = Ok blocks ->
  blocks !! id = Some bs ->
  bs <> [] /\
  Forall (fun b =>
            block_id b = id /\ in_int_range id = true /\
            Forall (fun l => l <> BLOCK_DELIMITER /\
                             exists l', In l' file /\ l = rstrip_newline l')
                   (lines b)) bs.
Proof.
  unfold _parse, scan_lines. intros Hp Hl.
  apply res_fmap_ok in Hp as [[j blocks'] [Hs ->]]. simpl in Hl.
  assert (Hinv : stored_blocks file blocks').
  { apply (scan_from_invariant parse_step store_opt (stored_blocks file)
             (fun ev => forall b, ev = Some b -> stored_block file b) file)
      with (fuel := length file) (i := 0%nat) (a := ∅) (j := j).
    - intros i i' ev Hstep b ->. by apply (parse_step_stored file i i').
    - intros a ev. apply store_opt_stored.
    - intros k l. by rewrite lookup_empty.
    - exact Hs. }
  destruct (Hinv id bs Hl) as [Hne Hall]. split; [done|].
  eapply Forall_impl; [exact Hall|].
  intros b [<- [Hr Hlines]]. done.
Qed.

Lemma X5_witness :
  let file := [with_newline "junk"; with_newline "   -1"; with_newline "   100";
               with_newline "<NULL>,"; with_newline "4.41,"; with_newline "   -1"] in
  let b := {| block_id := 100; lines := ["<NULL>,"; "4.41,"] |} in
  _parse file = Ok {[ 100%Z := [b] ]} /\
  [b] <> [] /\
  Forall (fun b =>
            block_id b = 100%Z /\ in_int_range 100 = true /\
            Forall (fun l => l <> BLOCK_DELIMITER /\
                             exists l', In l' file /\ l = rstrip_newline l')
                   (lines b)) [b].
Proof.
  intros file b.
  assert (Hp : _parse file = Ok {[ 100%Z := [b] ]}) by (vm_compute; reflexivity).
  split; [exact Hp|].
  apply (X5_stored_blocks file {[ 100%Z := [b] ]} 100 [b] Hp).
  apply lookup_singleton_eq.
Defined.

(** ** The block scanner: text outside the blocks, blocks in a row *)

Lemma snd_shift {X : Type} (d : nat) (r : res (nat * X)) : snd <$> shift d r = snd <$> r.
Proof. by destruct r as [[j x]| |]. Qed.

Lemma scan_parse_fuel (fuel : nat) (file : list string) (i : nat)
    (blocks : gmap Z (list FEMAPBlock)) :
  (length file - i <= fuel)%nat ->
  scan_from parse_step store_opt fuel file i blocks
  = scan_from parse_step store_opt (length file) file i blocks.
Proof. intros Hf. apply (scan_from_fuel parse_step parse_step_progress); lia. Qed.

(** A line that is not the delimiter, met outside a block, is passed. *)
Lemma scan_parse_skip (l : string) (rest : list string)
    (blocks : gmap Z (list FEMAPBlock)) :
  rstrip_newline l <> BLOCK_DELIMITER ->
  scan_lines parse_step store_opt (l :: rest) blocks
  = shift 1 (scan_lines parse_step store_opt rest blocks).
Proof.
  intros Hl. unfold scan_lines. cbn [length].
  rewrite (scan_from_step parse_step store_opt (length rest) (l :: rest) 0 blocks
             1 None); [|simpl; lia|].
  - exact (scan_from_shift parse_step parse_step_shift store_opt (length rest)
             [l] rest 0 blocks).
  - unfold parse_step. cbn [nth].
    by destruct (String.eqb_spec (rstrip_newline l) BLOCK_DELIMITER).
Qed.

Lemma scan_parse_junk (junk rest : list string) (blocks : gmap Z (list FEMAPBlock)) :
  Forall (fun l => rstrip_newline l <> BLOCK_DELIMITER) junk ->
  scan_lines parse_step store_opt (junk ++ rest) blocks
  = shift (length junk) (scan_lines parse_step store_opt rest blocks).
Proof.
  induction 1 as [|l junk Hl _ IH]; cbn [app length].
  - by destruct (scan_lines _ _ rest _) as [[j x]| |].
  - rewrite (scan_parse_skip l _ _ Hl), IH.
    by destruct (scan_lines _ _ rest _) as [[j x]| |].
Qed.

(** X6: the lines before the first delimiter line are ignored, whatever
    they hold; in particular a file without a delimiter line has no
    block. *)
Theorem X6_text_before_first_delimiter (junk file : list string) :
  Forall (fun l => rstrip_newline l <> BLOCK_DELIMITER) junk ->
  _parse (junk ++ file) = _parse file /\ _parse junk = Ok ∅.
Proof.
  intros Hjunk. unfold _parse. split.
  - by rewrite (scan_parse_junk junk file ∅ Hjunk), snd_shift.
  - pose proof (scan_parse_junk junk [] ∅ Hjunk) as Hs.
    rewrite app_nil_r in Hs. by rewrite Hs.
Qed.

Lemma X6_witness :
  let junk := [with_newline "FEMAP export"; with_newline "  -1"; with_newline ""] in
  let file := [with_newline "   -1"; with_newline "   601"; with_newline "1,";
               with_newline "   -1"] in
  Forall (fun l => rstrip_newline l <> BLOCK_DELIMITER) junk /\
  _parse (junk ++ file) = _parse file /\ _parse junk = Ok ∅.
Proof.
  intros junk file.
  assert (Hjunk : Forall (fun l => rstrip_newline l <> BLOCK_DELIMITER) junk).
  { repeat constructor; discriminate. }
  split; [exact Hjunk|]. exact (X6_text_before_first_delimiter junk file Hjunk).
Defined.

(** The scan of well-delimited blocks followed by other lines. *)
Lemma scan_parse_blocks (src : list source_block) :
  forall bs rest blocks,
    blocks_of src = Some bs ->
    scan_lines parse_step store_opt (render_file src ++ rest) blocks
    = shift (length (render_file src))
        (scan_lines parse_step store_opt rest (store_all bs blocks)).
Proof.
  induction src as [|sb src IH]; intros bs rest blocks Hbs.
  - simpl in Hbs. injection Hbs as <-. cbn [render_file flat_map app length store_all fold_left].
    by destruct (scan_lines _ _ rest _) as [[j x]| |].
  - cbn [blocks_of] in Hbs.
    destruct (block_of sb) as [b|] eqn:Hb; [|done].
    destruct (blocks_of src) as [bs'|] eqn:Hbs'; [|done].
    injection Hbs as <-.
    cbn [render_file flat_map]. fold (render_file src).
    rewrite <- app_assoc.
    assert (Hlen : (2 <= length (render_block sb))%nat) by (simpl; lia).
    unfold scan_lines at 1.
    set (file := render_block sb ++ render_file src ++ rest).
    assert (Hfile : length file
                    = (length (render_block sb) + length (render_file src ++ rest))%nat)
      by (unfold file; by rewrite length_app).
    destruct (length file) as [|fuel] eqn:Hf; [lia|].
    rewrite (scan_from_step parse_step store_opt fuel file 0 blocks
               (length (render_block sb)) (Some b));
      [|lia|by apply parse_step_block].
    pose proof (scan_from_shift parse_step parse_step_shift store_opt fuel
                  (render_block sb) (render_file src ++ rest) 0
                  (store_opt blocks (Some b))) as Hshift.
    rewrite Nat.add_0_r in Hshift. unfold file. rewrite Hshift.
    rewrite scan_parse_fuel by lia.
    fold (scan_lines parse_step store_opt (render_file src ++ rest)
            (store_opt blocks (Some b))).
    rewrite (IH bs' rest _ eq_refl).
    cbn [store_all fold_left store_opt]. fold (store_all bs' (store_block b blocks)).
    rewrite length_app.
    destruct (scan_lines _ _ rest _) as [[j x]| |]; simpl; [|done|done].
    do 2 f_equal. lia.
Qed.

Lemma get_blocks_parsed_all (bs : list FEMAPBlock) (id : Z) :
  get_blocks (store_all bs ∅) id = with_id id bs.
Proof. by rewrite get_blocks_store_all. Qed.

(** X7: a file made of well-delimited blocks is read back as these
    blocks: [_parse] returns a dictionary that holds, for every ID, the
    blocks with that ID in file order, each with the lines of its body
    without their newlines. *)
Theorem X7_parse_reads_back_blocks (src : list source_block) (bs : list FEMAPBlock) :
  blocks_of src = Some bs ->
  exists blocks,
    _parse (render_file src) = Ok blocks /\
    forall id, get_blocks blocks id = with_id id bs.
Proof.
  intros Hbs. exists (store_all bs ∅). split; [by apply parse_render|].
  apply get_blocks_parsed_all.
Qed.

Lemma X7_witness :
  let src := [ {| id_line := with_newline "   601"; body := [with_newline "1,"] |};
               {| id_line := with_newline "   100";
                  body := [with_newline "<NULL>,"; with_newline "4.41,"] |};
               {| id_line := with_newline "   601"; body := [with_newline "2,"] |} ] in
  let bs := [ {| block_id := 601; lines := ["1,"] |};
              {| block_id := 100; lines := ["<NULL>,"; "4.41,"] |};
              {| block_id := 601; lines := ["2,"] |} ] in
  blocks_of src = Some bs /\
  exists blocks,
    _parse (render_file src) = Ok blocks /\
    forall id, get_blocks blocks id = with_id id bs.
Proof.
  intros src bs.
  assert (Hbs : blocks_of src = Some bs) by (vm_compute; reflexivity).
  split; [exact Hbs|]. exact (X7_parse_reads_back_blocks src bs Hbs).
Defined.

(** ** The block scanner: a file that ends inside a block *)

Lemma scan_from_done {E A : Type} (step : list string -> nat -> res (nat * E))
    (emit : A -> E -> A) fuel lines i a :
  (length lines <= i)%nat -> scan_from step emit fuel lines i a = Ok (i, a).
Proof.
  intros Hi. destruct fuel; simpl; destruct (Nat.ltb_spec i (length lines)); done || lia.
Qed.

Lemma collect_block_open (content : list string) :
  forall fuel before bl,
    existsb (fun l => String.eqb (rstrip_newline l) BLOCK_DELIMITER) content = false ->
    (length content <= fuel)%nat ->
    collect_block fuel (before ++ content) (length before) bl
    = Ok ((length before + length content)%nat, bl ++ List.map rstrip_newline content).
Proof.
  induction content as [|l content IH]; intros fuel before bl Hbody Hfuel.
  - rewrite app_nil_r. cbn [length List.map]. rewrite app_nil_r, Nat.add_0_r.
    destruct fuel; simpl; by rewrite Nat.ltb_irrefl.
  - destruct fuel as [|fuel]; [simpl in Hfuel; lia|].
    cbn [existsb] in Hbody. apply orb_false_iff in Hbody as [Hl Hbody].
    cbn [collect_block].
    assert (Hlt : (length before <? length (before ++ l :: content))%nat = true).
    { apply Nat.ltb_lt. rewrite length_app. simpl. lia. }
    rewrite Hlt.
    pose proof (nth_app_shift before (l :: content) 0) as Hn.
    rewrite Nat.add_0_r in Hn. rewrite Hn. cbn [nth]. rewrite Hl.
    replace (before ++ l :: content) with ((before ++ [l]) ++ content)
      by (by rewrite <- app_assoc).
    replace (length before + 1)%nat with (length (before ++ [l]))
      by (rewrite length_app; simpl; lia).
    rewrite IH; [|done|simpl in Hfuel; lia].
    rewrite length_app. cbn [length List.map]. rewrite <- app_assoc.
    do 2 f_equal. lia.
Qed.

(** A block that the end of the file cuts is read to the last line. *)
Lemma parse_step_open_block (sb : source_block) (b : FEMAPBlock) :
  block_of sb = Some b ->
  parse_step ([with_newline BLOCK_DELIMITER; id_line sb] ++ body sb) 0
  = Ok ((2 + length (body sb))%nat, Some b).
Proof.
  unfold block_of. destruct sb as [idl content]. cbn [id_line body].
  destruct (c_int (strip idl)) as [id| |] eqn:Hid; [|done|done].
  destruct (String.eqb (strip idl) "-1") eqn:Hstray; [done|].
  destruct (existsb _ content) eqn:Hbody; [done|]. intros [= <-].
  unfold parse_step. cbn [nth app Nat.add].
  change (rstrip_newline (with_newline BLOCK_DELIMITER)) with BLOCK_DELIMITER.
  rewrite String.eqb_refl. cbn [length].
  destruct (Nat.ltb_spec 1 (S (S (length content)))); [|lia].
  rewrite Hstray, Hid.
  pose proof (collect_block_open content (S (S (length content)))
                [with_newline BLOCK_DELIMITER; idl] [] Hbody) as Hc.
  cbn [length app] in Hc. rewrite Hc by lia. reflexivity.
Qed.

(** X8: a last block that the file does not close with a delimiter line
    is stored like the blocks before it, with the lines up to the end of
    the file. *)
Theorem X8_unclosed_last_block (src : list source_block) (bs : list FEMAPBlock)
    (last : source_block) (b : FEMAPBlock) :
  blocks_of src = Some bs ->
  block_of last = Some b ->
  exists blocks,
    _parse (render_file src
            ++ [with_newline BLOCK_DELIMITER; id_line last] ++ body last) = Ok blocks /\
    forall id, get_blocks blocks id = with_id id (bs ++ [b]).
Proof.
  intros Hbs Hb. exists (store_all (bs ++ [b]) ∅). split.
  - unfold _parse. rewrite (scan_parse_blocks src bs _ ∅ Hbs), snd_shift.
    unfold scan_lines.
    set (rest := [with_newline BLOCK_DELIMITER; id_line last] ++ body last).
    assert (Hlen : length rest = (2 + length (body last))%nat) by reflexivity.
    rewrite Hlen. cbn [Nat.add].
    rewrite (scan_from_step parse_step store_opt _ rest 0 _
               (2 + length (body last)) (Some b));
      [|lia|by apply parse_step_open_block].
    rewrite scan_from_done by lia. simpl. by rewrite store_all_snoc.
  - apply get_blocks_parsed_all.
Qed.

Lemma X8_witness :
  let src := [ {| id_line := with_newline "   100";
                  body := [with_newline "<NULL>,"; with_newline "4.41,"] |} ] in
  let last := {| id_line := with_newline "   601";
                 body := [with_newline "1,"; with_newline "2,"] |} in
  let bs := [ {| block_id := 100; lines := ["<NULL>,"; "4.41,"] |} ] in
  let b := {| block_id := 601; lines := ["1,"; "2,"] |} in
  blocks_of src = Some bs /\ block_of last = Some b /\
  exists blocks,
    _parse (render_file src
            ++ [with_newline BLOCK_DELIMITER; id_line last] ++ body last) = Ok blocks /\
    forall id, get_blocks blocks id = with_id id (bs ++ [b]).
Proof.
  intros src last bs b.
  assert (Hbs : blocks_of src = Some bs) by (vm_compute; reflexivity).
  assert (Hb : block_of last = Some b) by (vm_compute; reflexivity).
  split; [exact Hbs|]. split; [exact Hb|].
  exact (X8_unclosed_last_block src bs last b Hbs Hb).
Defined.

(** ** Extracted data: invariants *)

Lemma scan_blocks_invariant {E A : Type} (step : list string -> nat -> res (nat * E))
    (emit : A -> E -> A) (Inv : A -> Prop) (Q : E -> Prop) :
  (forall lines i i' ev, step lines i = Ok (i', ev) -> Q ev) ->
  (forall a ev, Inv a -> Q ev -> Inv (emit a ev)) ->
  forall bs a a', Inv a -> scan_blocks step emit bs a = Ok a' -> Inv a'.
Proof.
  intros Hstep Hemit. induction bs as [|b bs IH]; intros a a' Ha; simpl.
  - by intros [= <-].
  - unfold scan_lines.
    destruct (scan_from step emit _ (lines b) 0 a) as [[j a1]| |] eqn:Hs; simpl;
      [|done|done].
    apply IH.
    by apply (scan_from_invariant step emit Inv Q (lines b) (Hstep _) Hemit
                _ _ _ _ _ Ha Hs).
Qed.

Lemma try_except_ok_inv {A : Type} (body : res A) (h x : A) :
  try_except body (Ok h) = Ok x -> body = Ok x \/ x = h.
Proof.
  destruct body as [a|e|]; simpl; [by left| |done].
  destruct (caught e); [|done]. intros [= <-]. by right.
Qed.

(** What a stride step read is what its record function gave. *)
Lemma stride_step_record {R : Type} (rec : res R) (i k i' : nat) (b : bool) (r : R) :
  (if b then try_except (x ← rec; Ok ((i + k)%nat, Some x)) (Ok ((i + 1)%nat, None))
   else Ok ((i + 1)%nat, None)) = Ok (i', Some r) ->
  rec = Ok r.
Proof.
  destruct b; [|done]. intros Ht.
  apply try_except_ok_inv in Ht as [Ht|Ht]; [|done].
  destruct rec as [x| |]; simpl in Ht; by simplify_eq.
Qed.

Lemma node_ids_spec (parts : list string) (ns : list Z) :
  node_ids parts = Ok ns ->
  Forall (fun n => n <> 0%Z /\ (INT_MIN <= n <= INT_MAX)%Z) ns.
Proof.
  revert ns. induction parts as [|p parts IH]; intros ns; simpl.
  - by intros [= <-].
  - destruct (c_int p) as [n| |] eqn:Hn; simpl; [|done|done].
    destruct (node_ids parts) as [ns'| |]; simpl; [|done|done].
    intros [= <-]. specialize (IH ns' eq_refl).
    destruct (Z.eqb_spec n 0); [done|].
    apply Forall_cons. split; [|done]. split; [done|]. by apply (c_int_range p).
Qed.

Lemma element_record_spec (lines : list string) (i : nat) (parts : list string)
    (el : element) :
  element_record lines i parts = Ok el ->
  Forall (fun n => n <> 0%Z /\ (INT_MIN <= n <= INT_MAX)%Z) (elem_nodes el).
Proof.
  unfold element_record. intros He.
  do 6 (apply res_bind_ok in He as [? [_ He]]).
  apply res_bind_ok in He as [nodes1 [H1 He]].
  apply res_bind_ok in He as [nodes2 [H2 He]].
  injection He as <-. simpl. apply Forall_app. split.
  - destruct (i + 1 <? _)%nat; [by apply node_ids_spec in H1|]. by injection H1 as <-.
  - destruct (i + 2 <? _)%nat; [by apply node_ids_spec in H2|]. by injection H2 as <-.
Qed.

(** X10: no element that [get_elements] returns lists the node 0: the
    zeros that pad the node lines of a record are dropped, and the nodes
    that are kept are C ints. *)
Theorem X10_element_nodes_nonzero (blocks : gmap Z (list FEMAPBlock))
    (els : list element) :
  get_elements blocks = Ok els ->
  Forall (fun el => Forall (fun n => n <> 0%Z /\ (INT_MIN <= n <= INT_MAX)%Z)
                      (elem_nodes el)) els.
Proof.
  unfold get_elements.
  apply (scan_blocks_invariant elements_step push
           (Forall (fun el => Forall (fun n => n <> 0%Z /\ (INT_MIN <= n <= INT_MAX)%Z)
                               (elem_nodes el)))
           (fun ev => forall el, ev = Some el ->
              Forall (fun n => n <> 0%Z /\ (INT_MIN <= n <= INT_MAX)%Z) (elem_nodes el))).
  - intros lines i i' ev Hstep el ->. unfold elements_step in Hstep.
    apply stride_step_record in Hstep. by apply element_record_spec in Hstep.
  - intros a [el|] Ha Hev; simpl; [|done].
    apply Forall_app. split; [done|]. apply Forall_cons. split; [by apply Hev|done].
  - constructor.
Qed.

Lemma X10_witness :
  let blocks : gmap Z (list FEMAPBlock) :=
    {[ 404%Z := [ {| block_id := 404;
                     lines := ["1,124,7,25,8,1,0,0,"; "1,2,0,4,0,0,0,0,0,0,";
                               "0,0,0,0,0,0,0,0,0,0,"] |} ] ]} in
  let els := [ {| elem_id := 1; elem_prop_id := 7; topology := 8;
                  elem_nodes := [1; 2; 4]%Z |} ] in
  get_elements blocks = Ok els /\
  Forall (fun el => Forall (fun n => n <> 0%Z /\ (INT_MIN <= n <= INT_MAX)%Z)
                      (elem_nodes el)) els.
Proof.
  intros blocks els.
  assert (He : get_elements blocks = Ok els) by (vm_compute; reflexivity).
  split; [exact He|]. exact (X10_element_nodes_nonzero blocks els He).
Defined.

(** X11: in the dictionary of [get_materials] every entry carries its own
    key as its ID, and the key is a C int. *)
Theorem X11_material_ids (blocks : gmap Z (list FEMAPBlock)) (mats : gmap Z material)
    (k : Z) (m : material) :
  get_materials blocks = Ok mats ->
  mats !! k = Some m ->
  mat_id m = k /\ (INT_MIN <= k <= INT_MAX)%Z.
Proof.
  unfold get_materials. intros Hg Hl.
  assert (Hinv : forall k m, mats !! k = Some m ->
                   mat_id m = k /\ (INT_MIN <= k <= INT_MAX)%Z); [|by apply Hinv].
  clear k m Hl.
  eapply (scan_blocks_invariant materials_step put
            (fun d : gmap Z material =>
               forall k m, d !! k = Some m -> mat_id m = k /\ (INT_MIN <= k <= INT_MAX)%Z)
            (fun ev => forall k m, ev = Some (k, m) ->
               mat_id m = k /\ (INT_MIN <= k <= INT_MAX)%Z)); [| | |exact Hg].
  - intros lines i i' ev Hstep k m ->. unfold materials_step in Hstep.
    apply stride_step_record in Hstep. unfold material_record in Hstep.
    apply res_bind_ok in Hstep as [p0 [_ Hstep]].
    apply res_bind_ok in Hstep as [id [Hid Hstep]].
    injection Hstep as <- <-. split; [done|]. by apply c_int_range in Hid.
  - intros d [[k' m']|] Hd Hev k m; simpl; [|apply Hd].
    destruct (decide (k' = k)) as [->|Hne].
    + rewrite lookup_insert_eq. intros [= <-]. by apply Hev.
    + rewrite lookup_insert_ne by done. apply Hd.
  - intros k m. by rewrite lookup_empty.
Qed.

Lemma X11_witness :
  let blocks : gmap Z (list FEMAPBlock) :=
    {[ 601%Z := [ {| block_id := 601; lines := ["3,"; "x,"; "5,"] |} ] ]} in
  let mats : gmap Z material := {[ 3%Z := {| mat_id := 3 |}; 5%Z := {| mat_id := 5 |} ]} in
  get_materials blocks = Ok mats /\
  mats !! 5%Z = Some {| mat_id := 5 |} /\
  mat_id {| mat_id := 5 |} = 5%Z /\ (INT_MIN <= 5 <= INT_MAX)%Z.
Proof.
  intros blocks mats.
  assert (Hg : get_materials blocks = Ok mats) by (vm_compute; reflexivity).
  assert (Hl : mats !! 5%Z = Some {| mat_id := 5 |}) by (vm_compute; reflexivity).
  split; [exact Hg|]. split; [exact Hl|].
  exact (X11_material_ids blocks mats 5 _ Hg Hl).
Defined.

(** ** Output vectors: a stream of one-entity records *)

Section SparseStream.
Context `{FloatConv}.

Lemma sparse_lines_tail lines j r recs :
  sparse_lines lines j (r :: recs) -> sparse_lines lines (j + 1) recs.
Proof.
  intros Hs k r' Hk. specialize (Hs (S k) r' Hk).
  by replace (j + 1 + k)%nat with (j + S k)%nat by lia.
Qed.

Lemma results_loop_sparse (lines : list string) (recs : list (Z * double)) :
  forall f j results,
    sparse_lines lines j recs ->
    (j + length recs <= length lines)%nat ->
    results_loop (length recs + f) lines j results
    = results_loop f lines (j + length recs) (dict_of_records recs results).
Proof.
  induction recs as [|[id v] recs IH]; intros f j results Hs Hlen.
  - simpl. by rewrite Nat.add_0_r.
  - cbn [length] in *. cbn [Nat.add results_loop].
    destruct (Nat.ltb_spec j (length lines)); [|lia].
    destruct (Hs 0%nat (id, v) eq_refl) as (Hl & Hm & Hr).
    rewrite Nat.add_0_r in Hl, Hm, Hr. rewrite Hm, Hl, Hr. cbn [Nat.eqb].
    rewrite (IH f (j + 1)%nat); [|by apply (sparse_lines_tail _ _ _ _ Hs)|lia].
    by replace (j + 1 + length recs)%nat with (j + S (length recs))%nat by lia.
Qed.

Lemma results_loop_sparse_end (lines : list string) (recs : list (Z * double))
    (fuel j : nat) (results : gmap Z double) :
  let stop := (j + length recs)%nat in
  sparse_lines lines j recs ->
  (length recs < fuel)%nat ->
  (stop < length lines ->
   is_end_marker (_parse_csv_line_fast (nth stop lines "")) = true ->
   results_loop fuel lines j results
   = Broke (stop + 1) (dict_of_records recs results)) /\
  (stop = length lines ->
   results_loop fuel lines j results = Exhausted stop (dict_of_records recs results)).
Proof.
  intros stop Hs Hfuel.
  replace fuel with (length recs + S (fuel - length recs - 1))%nat by lia.
  split.
  - intros Hlt Hm. rewrite results_loop_sparse by (done || lia).
    fold stop. cbn [results_loop].
    destruct (Nat.ltb_spec stop (length lines)); [|lia]. by rewrite Hm.
  - intros Heq. rewrite results_loop_sparse by (done || lia).
    fold stop. cbn [results_loop].
    destruct (Nat.ltb_spec stop (length lines)); [lia|done].
Qed.

(** X12: a vector record whose result stream is made of one-entity
    records (two fields, an ID and a value) is read with a dictionary that
    maps every ID to the value of its last record.  The vector is closed
    by the terminator line, after which extraction resumes, or by the end
    of the block: a vector that the block cuts is kept. *)
Theorem X12_sparse_stream (lines : list string) (i : nat) (sid vid : Z)
    (title : string) (ety : option Z) (recs : list (Z * double)) :
  let parts := _parse_csv_line_fast (nth i lines "") in
  let stop := (i + 7 + length recs)%nat in
  let vector := {| set_id := sid; vec_id := vid; vec_title := title;
                   ent_type := ety; results := dict_of_records recs ∅ |} in
  (2 <= length parts)%nat ->
  vector_header lines i parts = Ok (sid, vid, title, ety) ->
  sparse_lines lines (i + 7) recs ->
  (stop < length lines ->
   is_end_marker (_parse_csv_line_fast (nth stop lines "")) = true ->
   vectors_step lines i = Ok ((stop + 1)%nat, (Some vector, true))) /\
  (stop = length lines ->
   vectors_step lines i = Ok (stop, (Some vector, false))).
Proof.
  intros parts stop vector Hparts Hhead Hs.
  assert (Hstep :
            vectors_step lines i
            = match results_loop (length lines) lines (i + 7) ∅ with
              | Broke i' r =>
                  Ok (i', (Some {| set_id := sid; vec_id := vid; vec_title := title;
                                   ent_type := ety; results := r |}, true))
              | Exhausted i' r =>
                  Ok (i', (Some {| set_id := sid; vec_id := vid; vec_title := title;
                                   ent_type := ety; results := r |}, false))
              | Raised e i' => if caught e then Ok ((i' + 1)%nat, (None, true)) else Raise e
              | Fuel => OutOfFuel
              end).
  { unfold vectors_step. fold parts.
    destruct (Nat.leb_spec 2 (length parts)); [|lia]. by rewrite Hhead. }
  rewrite Hstep. split.
  - intros Hlt Hm.
    destruct (results_loop_sparse_end lines recs (length lines) (i + 7) ∅ Hs)
      as [Hbroke _]; [unfold stop in Hlt; lia|].
    by rewrite (Hbroke Hlt Hm).
  - intros Heq.
    destruct (results_loop_sparse_end lines recs (length lines) (i + 7) ∅ Hs)
      as [_ Hend]; [unfold stop in Heq; lia|].
    by rewrite (Hend Heq).
Qed.

End SparseStream.

Lemma X12_witness :
  let lines := ["1,2,1,"; "Disp X,"; "0.,0.,0.,"; "0,0,0,0,0,0,0,0,0,0,";
                "0,0,0,0,0,0,0,0,0,0,"; "0,0,4,7,"; "0,1,1,";
                "1,1.5,"; "3,3.5,"; "1,2.5,"; "-1,0.,"; "2,2,1,"] in
  let recs : list (Z * @double dec_float_conv) :=
    [(1, (15, -1)); (3, (35, -1)); (1, (25, -1))]%Z in
  sparse_lines (H := dec_float_conv) lines 7 recs /\
  vectors_step (H := dec_float_conv) lines 0
  = Ok (11%nat,
        (Some {| set_id := 1; vec_id := 2; vec_title := "Disp X"; ent_type := Some 7%Z;
                 results := dict_of_records recs ∅ |}, true)) /\
  dict_of_records recs ∅ !! 1%Z = Some (25, -1)%Z.
Proof.
  intros lines recs.
  assert (Hs : sparse_lines (H := dec_float_conv) lines 7 recs).
  { intros k r Hk. destruct k as [|[|[|k]]]; try discriminate;
      injection Hk as <-; vm_compute; auto. }
  split; [exact Hs|]. split; [|reflexivity].
  destruct (X12_sparse_stream (H := dec_float_conv) lines 0 1 2 "Disp X" (Some 7%Z) recs)
    as [Hclosed _].
  - vm_compute. lia.
  - vm_compute. reflexivity.
  - exact Hs.
  - apply Hclosed; [simpl; lia|reflexivity].
Defined.

(** ** Elements as arrays *)

(** The element that a row of [get_elements_arrays] stands for in
    [get_elements]: a row that was read to its end. *)
Definition row_element (row : element_row) : option element :=
  match row_ids row with
  | Some (id, prop_id, topo) =>
      if row_closed row
      then Some {| elem_id := id; elem_prop_id := prop_id; topology := topo;
                   elem_nodes := row_nodes row |}
      else None
  | None => None
  end.

Definition outcome {A : Type} (p : list Z * res unit) (k : list Z -> res A) : res A :=
  match p.2 with
  | Ok _ => k p.1
  | Raise e => Raise e
  | OutOfFuel => OutOfFuel
  end.

Lemma node_ids_append (parts : list string) :
  node_ids parts = outcome (append_nodes parts) Ok.
Proof.
  induction parts as [|p parts IH]; [done|]. simpl.
  destruct (c_int p) as [n| |]; simpl; [|done|done].
  rewrite IH. unfold outcome.
  by destruct (append_nodes parts) as [ns [[]| |]].
Qed.

Lemma node_ids_append_at (lines : list string) (j : nat) :
  (if (j <? length lines)%nat then node_ids (_parse_csv_line_fast (nth j lines ""))
   else Ok [])
  = outcome (append_nodes_at lines j) Ok.
Proof.
  unfold append_nodes_at. destruct (_ <? _)%nat; [apply node_ids_append|done].
Qed.

Lemma element_record_ids (lines : list string) (i : nat) (parts : list string) :
  element_record lines i parts
  = ids ← element_ids parts;
    outcome (append_nodes_at lines (i + 1)) (fun nodes1 =>
    outcome (append_nodes_at lines (i + 2)) (fun nodes2 =>
      Ok {| elem_id := ids.1.1; elem_prop_id := ids.1.2; topology := ids.2;
            elem_nodes := nodes1 ++ nodes2 |})).
Proof.
  unfold element_record, element_ids. rewrite !node_ids_append_at.
  destruct (item parts 0) as [p0| |]; simpl; [|done|done].
  destruct (c_int p0) as [id| |]; simpl; [|done|done].
  destruct (item parts 2) as [p2| |]; simpl; [|done|done].
  destruct (c_int p2) as [prop_id| |]; simpl; [|done|done].
  destruct (item parts 4) as [p4| |]; simpl; [|done|done].
  destruct (c_int p4) as [topo| |]; simpl; [|done|done].
  unfold outcome.
  destruct (append_nodes_at lines (i + 1)) as [nodes1 [[]| |]]; simpl; [|done|done].
  by destruct (append_nodes_at lines (i + 2)) as [nodes2 [[]| |]].
Qed.

(** An iteration of [get_elements] is the iteration of
    [get_elements_arrays] at the same line, with the element of its row:
    both move to the same line next and raise the same exceptions. *)
Lemma elements_step_rows (lines : list string) (i : nat) :
  elements_step lines i
  = (fun p : nat * element_row => (p.1, row_element p.2))
      <$> elements_arrays_step lines i.
Proof.
  unfold elements_step, elements_arrays_step.
  destruct (_ <=? _)%nat; [|done].
  rewrite stride_step, element_record_ids.
  destruct (element_ids _) as [[[id prop_id] topo]|e|]; simpl; [| |done].
  - unfold outcome.
    destruct (append_nodes_at lines (i + 1)) as [nodes1 [[]|e|]]; simpl; [| |done].
    + destruct (append_nodes_at lines (i + 2)) as [nodes2 [[]|e|]]; simpl; [done| |done].
      by destruct (caught e).
    + by destruct (caught e).
  - by destruct (caught e).
Qed.

Lemma elements_arrays_step_progress lines i i' row :
  elements_arrays_step lines i = Ok (i', row) -> (i < i')%nat.
Proof.
  intros Hs. apply (elements_step_progress lines i i' (row_element row)).
  by rewrite elements_step_rows, Hs.
Qed.

Lemma elements_arrays_step_fuel lines i : elements_arrays_step lines i <> OutOfFuel.
Proof.
  intros Hs. apply (elements_step_fuel lines i). by rewrite elements_step_rows, Hs.
Qed.

(** Two scans whose iterations agree up to a function on what they read. *)
Lemma scan_from_map {E1 E2 : Type} (step1 : list string -> nat -> res (nat * E1))
    (step2 : list string -> nat -> res (nat * E2)) (g : E1 -> E2) (lines : list string) :
  (forall i, step2 lines i = (fun p : nat * E1 => (p.1, g p.2)) <$> step1 lines i) ->
  forall fuel i (pre : list E1),
    scan_from step2 snoc fuel lines i (g <$> pre)
    = (fun p : nat * list E1 => (p.1, g <$> p.2))
        <$> scan_from step1 snoc fuel lines i pre.
Proof.
  intros Hstep. induction fuel as [|fuel IH]; intros i pre; simpl.
  - by destruct (_ <? _)%nat.
  - destruct (_ <? _)%nat; [|done]. rewrite Hstep.
    destruct (step1 lines i) as [[i' ev]| |]; simpl; [|done|done].
    rewrite <- IH. unfold snoc. by rewrite fmap_app.
Qed.

Lemma blocks_events_map {E1 E2 : Type} (step1 : list string -> nat -> res (nat * E1))
    (step2 : list string -> nat -> res (nat * E2)) (g : E1 -> E2) :
  (forall lines i,
     step2 lines i = (fun p : nat * E1 => (p.1, g p.2)) <$> step1 lines i) ->
  forall bs,
    blocks_events step2 bs = (fun evs : list E1 => g <$> evs) <$> blocks_events step1 bs.
Proof.
  intros Hstep. induction bs as [|b bs IH]; simpl; [done|].
  unfold events_from.
  pose proof (scan_from_map step1 step2 g (lines b) (Hstep _)
                (length (lines b)) 0 []) as Hs.
  simpl in Hs. rewrite Hs, IH.
  destruct (scan_from step1 snoc _ _ _ _) as [[j evs]| |]; simpl; [|done|done].
  destruct (blocks_events step1 bs) as [evs'| |]; simpl; [|done|done].
  by rewrite fmap_app.
Qed.

(** The rows of the file: what the iterations of [get_elements_arrays]
    appended, in file order. *)
Definition element_rows (blocks : gmap Z (list FEMAPBlock)) : res (list element_row) :=
  blocks_events elements_arrays_step (get_blocks blocks 404).

Lemma fold_push {V : Type} (evs : list (option V)) (l : list V) :
  fold_left push evs l = l ++ omap id evs.
Proof.
  revert l. induction evs as [|[v|] evs IH]; intros l; simpl.
  - by rewrite app_nil_r.
  - rewrite IH. by rewrite <- app_assoc.
  - apply IH.
Qed.

Lemma get_elements_rows (blocks : gmap Z (list FEMAPBlock)) :
  get_elements blocks
  = (fun rows : list element_row => omap row_element rows) <$> element_rows blocks.
Proof.
  unfold get_elements, element_rows. rewrite scan_blocks_events.
  rewrite (blocks_events_map elements_arrays_step elements_step row_element
             elements_step_rows).
  destruct (blocks_events elements_arrays_step _) as [rows| |]; simpl; [|done|done].
  rewrite fold_push. simpl. f_equal.
  induction rows as [|r rows IH]; [done|].
  cbn [fmap list_fmap omap list_omap]. cbn [fmap list_fmap omap list_omap] in IH.
  rewrite IH. by destruct (row_element r).
Qed.

Lemma get_elements_arrays_rows (blocks : gmap Z (list FEMAPBlock)) :
  get_elements_arrays blocks
  = (fun rows : list element_row =>
       let st := fold_left append_row rows no_elements in
       (elem_ids_list st, prop_ids_list st, topo_list st, connectivity_list st,
        offsets_list st)) <$> element_rows blocks.
Proof.
  unfold get_elements_arrays, element_rows. rewrite scan_blocks_events.
  by destruct (blocks_events elements_arrays_step _) as [rows| |].
Qed.

(** The rows that hold an element: their identifiers, their nodes and the
    entries of [offsets_list], the offset being [o] before the rows. *)
Definition ids_of (rows : list element_row) : list (Z * Z * Z) := omap row_ids rows.

Definition nodes_of (rows : list element_row) : list Z :=
  flat_map (fun r => match row_ids r with Some _ => row_nodes r | None => [] end) rows.

Fixpoint offs_of (o : Z) (rows : list element_row) : list Z :=
  match rows with
  | [] => []
  | r :: rest =>
      match row_ids r with
      | None => offs_of o rest
      | Some _ =>
          let o' := bump (length (row_nodes r)) o in
          (if row_closed r then [o'] else []) ++ offs_of o' rest
      end
  end.

Lemma bump_add (a b : nat) (o : Z) : bump (a + b) o = bump b (bump a o).
Proof. unfold bump. by rewrite Nat.add_comm, Nat.iter_add. Qed.

Lemma bump_small (n : nat) (o : Z) :
  (0 <= o)%Z -> (o + Z.of_nat n <= INT_MAX)%Z -> bump n o = (o + Z.of_nat n)%Z.
Proof.
  unfold bump. induction n as [|n IH]; intros Ho Hn; simpl; [lia|].
  rewrite IH by lia. rewrite wrap_int_id by (unfold INT_MIN, INT_MAX in *; lia). lia.
Qed.

(** The lists after the rows. *)
Lemma fold_append_rows (rows : list element_row) :
  forall st,
    fold_left append_row rows st
    = {| elem_ids_list := elem_ids_list st ++ ((fun x => x.1.1) <$> ids_of rows);
         prop_ids_list := prop_ids_list st ++ ((fun x => x.1.2) <$> ids_of rows);
         topo_list := topo_list st ++ ((fun x => x.2) <$> ids_of rows);
         connectivity_list := connectivity_list st ++ nodes_of rows;
         offsets_list := offsets_list st ++ offs_of (offset st) rows;
         offset := bump (length (nodes_of rows)) (offset st) |}.
Proof.
  induction rows as [|r rows IH]; intros st.
  - simpl. rewrite !app_nil_r. by destruct st.
  - cbn [fold_left]. rewrite IH. unfold append_row, ids_of, nodes_of.
    cbn [omap list_omap flat_map offs_of].
    destruct (row_ids r) as [[[id prop_id] topo]|]; [|done].
    cbn [elem_ids_list prop_ids_list topo_list connectivity_list offsets_list offset
         fmap list_fmap fst snd].
    rewrite length_app, bump_add, <- !app_assoc.
    destruct (row_closed r); [by rewrite <- app_assoc|by rewrite app_nil_l].
Qed.

Lemma offs_of_length (rows : list element_row) :
  forall o, (length (offs_of o rows) <= length (ids_of rows))%nat.
Proof.
  induction rows as [|r rows IH]; intros o; [done|].
  unfold ids_of in *. cbn [offs_of omap list_omap].
  destruct (row_ids r); [|apply IH].
  rewrite length_app. cbn [length]. specialize (IH (bump (length (row_nodes r)) o)).
  destruct (row_closed r); simpl; lia.
Qed.

(** Every row that holds an element was read to its end. *)
Definition all_closed (rows : list element_row) : Prop :=
  Forall (fun r => is_Some (row_ids r) -> row_closed r = true) rows.

Lemma offs_of_full (rows : list element_row) :
  forall o, length (offs_of o rows) = length (ids_of rows) -> all_closed rows.
Proof.
  induction rows as [|r rows IH]; intros o; [constructor|].
  unfold ids_of in *. cbn [offs_of omap list_omap].
  destruct (row_ids r) as [ids|] eqn:Hr.
  - rewrite length_app. cbn [length].
    pose proof (offs_of_length rows (bump (length (row_nodes r)) o)) as Hle.
    unfold ids_of in Hle.
    destruct (row_closed r) eqn:Hc; simpl; intros Hlen; [|lia].
    constructor; [done|]. apply (IH (bump (length (row_nodes r)) o)). lia.
  - intros Hlen. constructor; [|by apply (IH o)]. rewrite Hr. by intros [? ?].
Qed.

Lemma row_element_closed (r : element_row) (id prop_id topo : Z) :
  row_ids r = Some (id, prop_id, topo) -> row_closed r = true ->
  row_element r = Some {| elem_id := id; elem_prop_id := prop_id; topology := topo;
                          elem_nodes := row_nodes r |}.
Proof. unfold row_element. by intros -> ->. Qed.

Lemma row_element_none (r : element_row) : row_ids r = None -> row_element r = None.
Proof. unfold row_element. by intros ->. Qed.

Lemma all_closed_elements (rows : list element_row) :
  all_closed rows ->
  (fun x => x.1.1) <$> ids_of rows = elem_id <$> omap row_element rows /\
  (fun x => x.1.2) <$> ids_of rows = elem_prop_id <$> omap row_element rows /\
  (fun x => x.2) <$> ids_of rows = topology <$> omap row_element rows /\
  nodes_of rows = concat (elem_nodes <$> omap row_element rows).
Proof.
  unfold ids_of, nodes_of.
  induction 1 as [|r rows Hr _ (IH1 & IH2 & IH3 & IH4)]; [done|].
  cbn [omap list_omap flat_map].
  destruct (row_ids r) as [[[id prop_id] topo]|] eqn:Hids.
  - rewrite (row_element_closed r id prop_id topo Hids) by (apply Hr; eauto).
    cbn [fmap list_fmap concat fst snd elem_id elem_prop_id topology elem_nodes].
    cbn [fmap] in IH1, IH2, IH3, IH4.
    by rewrite IH1, IH2, IH3, IH4.
  - by rewrite (row_element_none r Hids).
Qed.

Lemma all_closed_offs (rows : list element_row) :
  all_closed rows ->
  forall o,
    (0 <= o)%Z -> (o + Z.of_nat (length (nodes_of rows)) <= INT_MAX)%Z ->
    offs_of o rows
    = (fun k => (o + nodes_before (omap row_element rows) (S k))%Z)
        <$> seq 0 (length (omap row_element rows)).
Proof.
  unfold nodes_of.
  induction 1 as [|r rows Hr _ IH]; intros o Ho Hmax; [done|].
  cbn [omap list_omap flat_map offs_of] in *.
  destruct (row_ids r) as [[[id prop_id] topo]|] eqn:Hids.
  - rewrite (row_element_closed r id prop_id topo Hids) by (apply Hr; eauto).
    rewrite Hr by eauto. rewrite length_app in Hmax.
    cbn [length seq fmap list_fmap app].
    assert (Hm1 : (o + Z.of_nat (length (row_nodes r)) <= INT_MAX)%Z) by lia.
    rewrite (bump_small (length (row_nodes r)) o Ho Hm1).
    rewrite IH; [|lia|by rewrite Nat2Z.inj_add, Z.add_assoc in Hmax]. f_equal.
    + unfold nodes_before. cbn [take fmap list_fmap concat elem_nodes].
      by rewrite app_nil_r.
    + rewrite <- seq_shift, <- list_fmap_compose.
      apply list_fmap_ext. intros _ k _. unfold nodes_before.
      cbn [compose take fmap list_fmap concat elem_nodes].
      rewrite length_app. lia.
  - rewrite (row_element_none r Hids). by apply IH.
Qed.

Lemma append_nodes_spec (parts : list string) :
  Forall (fun n => n <> 0%Z /\ (INT_MIN <= n <= INT_MAX)%Z) (append_nodes parts).1.
Proof.
  induction parts as [|p parts IH]; simpl; [constructor|].
  destruct (c_int p) as [n| |] eqn:Hn; [|constructor|constructor].
  destruct (append_nodes parts) as [ns r]. simpl in *.
  destruct (Z.eqb_spec n 0); [done|].
  constructor; [|done]. split; [done|]. by apply (c_int_range p).
Qed.

Lemma append_nodes_at_spec (lines : list string) (j : nat) :
  Forall (fun n => n <> 0%Z /\ (INT_MIN <= n <= INT_MAX)%Z) (append_nodes_at lines j).1.
Proof.
  unfold append_nodes_at. destruct (_ <? _)%nat; [apply append_nodes_spec|constructor].
Qed.

Definition clean_nodes (row : element_row) : Prop :=
  Forall (fun n => n <> 0%Z /\ (INT_MIN <= n <= INT_MAX)%Z) (row_nodes row).

Lemma elements_arrays_step_nodes lines i i' row :
  elements_arrays_step lines i = Ok (i', row) -> clean_nodes row.
Proof.
  unfold elements_arrays_step, clean_nodes.
  destruct (_ <=? _)%nat; [|intros [= _ <-]; constructor].
  destruct (element_ids _) as [ids|e|]; [| |done].
  - pose proof (append_nodes_at_spec lines (i + 1)) as H1.
    pose proof (append_nodes_at_spec lines (i + 2)) as H2.
    destruct (append_nodes_at lines (i + 1)) as [nodes1 [[]|e|]]; [| |done].
    + destruct (append_nodes_at lines (i + 2)) as [nodes2 [[]|e|]]; [| |done].
      * intros [= _ <-]. simpl. by apply Forall_app.
      * destruct (caught e); [|done]. intros [= _ <-]. simpl. by apply Forall_app.
    + destruct (caught e); [|done]. by intros [= _ <-].
  - destruct (caught e); [|done]. intros [= _ <-]. constructor.
Qed.

Lemma blocks_events_forall {E : Type} (step : list string -> nat -> res (nat * E))
    (Q : E -> Prop) :
  (forall lines i i' ev, step lines i = Ok (i', ev) -> Q ev) ->
  forall bs evs, blocks_events step bs = Ok evs -> Forall Q evs.
Proof.
  intros Hstep. induction bs as [|b bs IH]; intros evs; simpl.
  - intros [= <-]. constructor.
  - unfold events_from.
    destruct (scan_from step snoc _ (lines b) 0 []) as [[j evs1]| |] eqn:Hs; simpl;
      [|done|done].
    destruct (blocks_events step bs) as [evs2| |]; simpl; [|done|done].
    intros [= <-]. apply Forall_app. split; [|by apply IH].
    apply (scan_from_invariant step snoc (Forall Q) Q (lines b) (Hstep _))
      with (fuel := length (lines b)) (i := 0%nat) (a := []) (j := j);
      [|constructor|exact Hs].
    intros a ev Ha Hev. apply Forall_app. split; [done|]. by constructor.
Qed.

Lemma nodes_of_clean (rows : list element_row) :
  Forall clean_nodes rows ->
  Forall (fun n => n <> 0%Z /\ (INT_MIN <= n <= INT_MAX)%Z) (nodes_of rows).
Proof.
  unfold nodes_of. induction 1 as [|r rows Hr _ IH]; [constructor|].
  simpl. apply Forall_app. split; [|done]. by destruct (row_ids r).
Qed.

Lemma nondecreasing_cons (x : Z) (l : list Z) :
  Forall (fun y => (x <= y)%Z) l -> nondecreasing l -> nondecreasing (x :: l).
Proof.
  intros Hx Hl [|j] a b; simpl.
  - intros [= <-] Hb. destruct l as [|y l]; [done|].
    injection Hb as <-. by inversion Hx.
  - apply Hl.
Qed.

Lemma offs_of_sorted (rows : list element_row) :
  forall o,
    (0 <= o)%Z -> (o + Z.of_nat (length (nodes_of rows)) <= INT_MAX)%Z ->
    nondecreasing (offs_of o rows) /\
    Forall (fun x => (o <= x <= o + Z.of_nat (length (nodes_of rows)))%Z) (offs_of o rows).
Proof.
  unfold nodes_of.
  induction rows as [|r rows IH]; intros o Ho Hmax.
  { split; [by intros [|j] a b|constructor]. }
  cbn [offs_of flat_map] in *.
  destruct (row_ids r); [|by apply IH].
  rewrite length_app in *. rewrite Nat2Z.inj_add, Z.add_assoc in *.
  rewrite bump_small by lia.
  destruct (IH (o + Z.of_nat (length (row_nodes r)))%Z) as [Hs Hb]; [lia|done|].
  assert (Hb' : Forall (fun x => (o <= x)%Z)
                  (offs_of (o + Z.of_nat (length (row_nodes r))) rows)).
  { eapply Forall_impl; [exact Hb|]. intros x Hx. simpl in Hx. lia. }
  assert (Hb2 : Forall (fun x => (o <= x <= o + Z.of_nat (length (row_nodes r))
                                   + Z.of_nat (length (flat_map
                                       (fun r => match row_ids r with
                                                 | Some _ => row_nodes r
                                                 | None => []
                                                 end) rows)))%Z)
                  (offs_of (o + Z.of_nat (length (row_nodes r))) rows)).
  { eapply Forall_impl; [exact Hb|]. intros x Hx. simpl in Hx. simpl. lia. }
  destruct (row_closed r); simpl; [|done]. split.
  - apply nondecreasing_cons; [|done].
    eapply Forall_impl; [exact Hb|]. intros x Hx. simpl in Hx. lia.
  - constructor; [|done]. split; [lia|].
    pose proof (Zle_0_nat (length (flat_map
                  (fun r => match row_ids r with
                            | Some _ => row_nodes r
                            | None => []
                            end) rows))). lia.
Qed.

Lemma element_rows_clean (blocks : gmap Z (list FEMAPBlock)) (rows : list element_row) :
  element_rows blocks = Ok rows -> Forall clean_nodes rows.
Proof.
  apply (blocks_events_forall elements_arrays_step clean_nodes).
  apply elements_arrays_step_nodes.
Qed.

Lemma get_elements_arrays_of_rows (blocks : gmap Z (list FEMAPBlock))
    (ids props topos conn offs : list Z) :
  get_elements_arrays blocks = Ok (ids, props, topos, conn, offs) ->
  exists rows,
    element_rows blocks = Ok rows /\
    ids = (fun x => x.1.1) <$> ids_of rows /\
    props = (fun x => x.1.2) <$> ids_of rows /\
    topos = (fun x => x.2) <$> ids_of rows /\
    conn = nodes_of rows /\
    offs = 0%Z :: offs_of 0 rows.
Proof.
  rewrite get_elements_arrays_rows.
  destruct (element_rows blocks) as [rows| |]; simpl; [|done|done].
  rewrite fold_append_rows. simpl. intros [= <- <- <- <- <-]. by exists rows.
Qed.

(** X13: the five arrays of [get_elements_arrays] fit together as far as
    this: the element, property and topology arrays have one length; the
    offsets start with 0 and have at most one more entry than there are
    elements; the connectivity holds no node 0; and, as long as the number
    of nodes fits a C int, the offsets never decrease and stay within the
    connectivity array. *)
Theorem X13_elements_arrays_shape (blocks : gmap Z (list FEMAPBlock))
    (ids props topos conn offs : list Z) :
  get_elements_arrays blocks = Ok (ids, props, topos, conn, offs) ->
  length props = length ids /\ length topos = length ids /\
  (exists rest, offs = 0%Z :: rest /\ (length rest <= length ids)%nat) /\
  Forall (fun n => n <> 0%Z /\ (INT_MIN <= n <= INT_MAX)%Z) conn /\
  ((Z.of_nat (length conn) <= INT_MAX)%Z ->
   nondecreasing offs /\
   Forall (fun o => (0 <= o <= Z.of_nat (length conn))%Z) offs).
Proof.
  intros Hg.
  destruct (get_elements_arrays_of_rows _ _ _ _ _ _ Hg)
    as (rows & Hrows & -> & -> & -> & -> & ->).
  rewrite !length_fmap. split; [done|]. split; [done|]. split; [|split].
  - exists (offs_of 0 rows). split; [done|]. apply offs_of_length.
  - apply nodes_of_clean. by apply (element_rows_clean blocks).
  - intros Hmax.
    destruct (offs_of_sorted rows 0) as [Hs Hb]; [lia|lia|].
    split.
    + apply nondecreasing_cons; [|done].
      eapply Forall_impl; [exact Hb|]. intros x Hx. simpl in Hx. lia.
    + constructor; [lia|]. eapply Forall_impl; [exact Hb|].
      intros x Hx. simpl in Hx. lia.
Qed.

Lemma X13_witness :
  let blocks : gmap Z (list FEMAPBlock) :=
    {[ 404%Z := [ {| block_id := 404;
                     lines := ["1,124,7,25,8,1,0,0,"; "1,2,0,4,0,0,0,0,0,0,";
                               "0,0,0,0,0,0,0,0,0,0,"; "0.,"; "0.,"; "0.,"; "0,";
                               "2,124,7,25,4,1,0,0,"; "4,5,x,6,0,0,0,0,0,0,"] |} ] ]} in
  get_elements_arrays blocks
  = Ok ([1; 2]%Z, [7; 7]%Z, [8; 4]%Z, [1; 2; 4; 4; 5]%Z, [0; 3]%Z) /\
  nondecreasing [0; 3]%Z.
Proof.
  intros blocks.
  assert (Hg : get_elements_arrays blocks
               = Ok ([1; 2]%Z, [7; 7]%Z, [8; 4]%Z, [1; 2; 4; 4; 5]%Z, [0; 3]%Z))
    by (vm_compute; reflexivity).
  split; [exact Hg|].
  destruct (X13_elements_arrays_shape blocks _ _ _ _ _ Hg) as (_ & _ & _ & _ & Hoffs).
  apply Hoffs. vm_compute. discriminate.
Defined.

Lemma seq_S_fmap (n : nat) : seq 0 (S n) = 0%nat :: (S <$> seq 0 n).
Proof. simpl. f_equal. by rewrite <- seq_shift. Qed.

(** X14: when the offsets array has one more entry than there are
    elements, the arrays are those of the elements of [get_elements], in
    the same order: the three ID arrays hold their IDs, property IDs and
    topologies, the connectivity holds their nodes one element after the
    other, and (as long as the number of nodes fits a C int) entry [k] of
    the offsets is the number of nodes of the first [k] elements, so that
    the nodes of element [k] stand between the offsets [k] and [k + 1]. *)
Theorem X14_elements_arrays_agree (blocks : gmap Z (list FEMAPBlock))
    (ids props topos conn offs : list Z) :
  get_elements_arrays blocks = Ok (ids, props, topos, conn, offs) ->
  length offs = S (length ids) ->
  exists els,
    get_elements blocks = Ok els /\
    ids = elem_id <$> els /\ props = elem_prop_id <$> els /\
    topos = topology <$> els /\
    conn = concat (elem_nodes <$> els) /\
    ((Z.of_nat (length conn) <= INT_MAX)%Z ->
     offs = nodes_before els <$> seq 0 (S (length els))).
Proof.
  intros Hg Hlen.
  destruct (get_elements_arrays_of_rows _ _ _ _ _ _ Hg)
    as (rows & Hrows & -> & -> & -> & -> & ->).
  assert (Hclosed : all_closed rows).
  { apply (offs_of_full rows 0). rewrite length_fmap in Hlen. simpl in Hlen. lia. }
  destruct (all_closed_elements rows Hclosed) as (H1 & H2 & H3 & H4).
  exists (omap row_element rows). rewrite get_elements_rows, Hrows.
  split; [done|]. split; [done|]. split; [done|]. split; [done|]. split; [done|].
  intros Hmax. rewrite seq_S_fmap. cbn [fmap list_fmap]. f_equal.
  rewrite (all_closed_offs rows Hclosed 0) by lia.
  rewrite <- list_fmap_compose. apply list_fmap_ext. intros _ k _. simpl. lia.
Qed.

Lemma X14_witness :
  let blocks : gmap Z (list FEMAPBlock) :=
    {[ 404%Z := [ {| block_id := 404;
                     lines := ["1,124,7,25,8,1,0,0,"; "1,2,0,4,0,0,0,0,0,0,";
                               "0,0,0,0,0,0,0,0,0,0,"; "0.,"; "0.,"; "0.,"; "0,";
                               "2,124,9,25,4,1,0,0,"; "4,5,0,6,0,0,0,0,0,0,"] |} ] ]} in
  let els := [ {| elem_id := 1; elem_prop_id := 7; topology := 8;
                  elem_nodes := [1; 2; 4]%Z |};
               {| elem_id := 2; elem_prop_id := 9; topology := 4;
                  elem_nodes := [4; 5; 6]%Z |} ] in
  get_elements_arrays blocks
  = Ok ([1; 2]%Z, [7; 9]%Z, [8; 4]%Z, [1; 2; 4; 4; 5; 6]%Z, [0; 3; 6]%Z) /\
  exists els',
    get_elements blocks = Ok els' /\ [1; 2]%Z = elem_id <$> els' /\
    [1; 2; 4; 4; 5; 6]%Z = concat (elem_nodes <$> els') /\
    [0; 3; 6]%Z = nodes_before els' <$> seq 0 (S (length els')).
Proof.
  intros blocks els.
  assert (Hg : get_elements_arrays blocks
               = Ok ([1; 2]%Z, [7; 9]%Z, [8; 4]%Z, [1; 2; 4; 4; 5; 6]%Z, [0; 3; 6]%Z))
    by (vm_compute; reflexivity).
  split; [exact Hg|].
  destruct (X14_elements_arrays_agree blocks _ _ _ _ _ Hg eq_refl)
    as (els' & He & Hi & _ & _ & Hc & Ho).
  exists els'. split; [exact He|]. split; [exact Hi|]. split; [exact Hc|].
  apply Ho. vm_compute. discriminate.
Defined.

Lemma offs_of_elements (rows : list element_row) :
  forall o, length (offs_of o rows) = length (omap row_element rows).
Proof.
  induction rows as [|r rows IH]; intros o; [done|].
  cbn [offs_of omap list_omap]. unfold row_element at 1.
  destruct (row_ids r) as [[[id prop_id] topo]|]; [|apply IH].
  rewrite length_app, IH. by destruct (row_closed r).
Qed.

Lemma ids_of_elements (rows : list element_row) :
  sublist (elem_id <$> omap row_element rows) ((fun x => x.1.1) <$> ids_of rows).
Proof.
  unfold ids_of. induction rows as [|r rows IH]; [constructor|].
  cbn [omap list_omap]. unfold row_element at 1.
  destruct (row_ids r) as [[[id prop_id] topo]|]; [|done].
  destruct (row_closed r); cbn [fmap list_fmap fst elem_id]; by constructor.
Qed.

(** X15: [get_elements_arrays] raises exactly when [get_elements] does,
    with the same exception, and it always ends.  When they return, the
    element IDs of [get_elements] are found in order among the IDs of the
    array, which may hold more of them (a record whose node lines are
    malformed has put its IDs into the arrays before it is given up), and
    the offsets array has one entry per element of [get_elements], after
    its first entry. *)
Theorem X15_elements_arrays_and_elements (blocks : gmap Z (list FEMAPBlock)) :
  match get_elements_arrays blocks, get_elements blocks with
  | Ok (ids, _, _, _, offs), Ok els =>
      sublist (elem_id <$> els) ids /\ length offs = S (length els)
  | Raise e, Raise e' => e = e'
  | _, _ => False
  end.
Proof.
  assert (Hfuel : get_elements blocks <> OutOfFuel).
  { apply scan_blocks_fuel; [apply elements_step_progress|apply elements_step_fuel]. }
  revert Hfuel. rewrite get_elements_arrays_rows, get_elements_rows.
  destruct (element_rows blocks) as [rows| |]; simpl; [|done|done].
  intros _. rewrite fold_append_rows. simpl. split; [apply ids_of_elements|].
  by rewrite offs_of_elements.
Qed.

(** A record whose second node line is malformed: its IDs and the nodes of
    its first node line are in the arrays, no offset closes it, and
    [get_elements] does not return it.  Extraction resumes at its first
    node line, which is read as a record of its own. *)
Example elements_arrays_keep_malformed_record :
  let blocks : gmap Z (list FEMAPBlock) :=
    {[ 404%Z := [ {| block_id := 404;
                     lines := ["1,124,7,25,8,1,0,0,"; "1,2,0,4,0,0,0,0,0,0,";
                               "0,0,x,0,0,0,0,0,0,0,"] |} ] ]} in
  get_elements_arrays blocks = Ok ([1; 1]%Z, [7; 0]%Z, [8; 0]%Z, [1; 2; 4]%Z, [0]%Z) /\
  get_elements blocks = Ok [].
Proof. split; vm_compute; reflexivity. Qed.

(** ** One output vector as arrays *)

Section VectorArrays.
Context `{FloatConv}.

(** The two lists hold, entry by entry, the records that the dictionary
    was built from. *)
Definition same_results (acc : list Z * list double) (d : gmap Z double) : Prop :=
  length acc.1 = length acc.2 /\ d = dict_of_records (zip acc.1 acc.2) ∅.

Definition same_end (r1 : loop_end (list Z * list double))
    (r2 : loop_end (gmap Z double)) : Prop :=
  match r1, r2 with
  | Broke j a, Broke j' d | Exhausted j a, Exhausted j' d => j = j' /\ same_results a d
  | Raised e j, Raised e' j' => e = e' /\ j = j'
  | Fuel, Fuel => True
  | _, _ => False
  end.

Lemma same_results_snoc acc d (k : Z) (v : double) :
  same_results acc d -> same_results (acc.1 ++ [k], acc.2 ++ [v]) (<[k := v]> d).
Proof.
  intros [Hlen ->]. split; simpl.
  - rewrite !length_app. simpl. lia.
  - rewrite zip_with_app by done. simpl. by rewrite dict_of_records_snoc.
Qed.

Lemma append_run_same (start_id : Z) (values : list double) :
  forall offset acc d,
    same_results acc d ->
    same_results (append_run start_id offset values acc)
      (assign_run start_id offset values d).
Proof.
  induction values as [|v values IH]; intros offset acc d Hs; [done|].
  simpl. apply IH. by apply same_results_snoc.
Qed.

Lemma results_lists_loop_same (fuel : nat) (lines : list string) :
  forall i acc d,
    same_results acc d ->
    same_end (results_lists_loop fuel lines i acc) (results_loop fuel lines i d).
Proof.
  induction fuel as [|fuel IH]; intros i acc d Hs; simpl.
  - by destruct (_ <? _)%nat.
  - destruct (_ <? _)%nat; [|done].
    destruct (is_end_marker _); [done|].
    destruct (_ =? 2)%nat.
    { destruct (sparse_record _) as [[id v]|e|]; [|done|done].
      apply IH. by apply same_results_snoc. }
    destruct (2 <? _)%nat; [|by apply IH].
    destruct (run_record _) as [[[s e] v]|e|]; [|done|done].
    destruct (cont_loop _ _ _ _ _) as [j v'|j v'|e' j|]; [| |done|done].
    + apply IH. by apply append_run_same.
    + apply IH. by apply append_run_same.
Qed.

Lemma same_results_nil : same_results ([], []) ∅.
Proof. by split. Qed.

Lemma vector_header_ids (lines : list string) (i : nat) (parts : list string) :
  vector_header lines i parts
  = ids ← vector_ids parts; ety ← entity_type lines i;
    Ok (ids.1, ids.2, title_at lines i, ety).
Proof.
  unfold vector_header, vector_ids, entity_type.
  destruct (item parts 0) as [p0| |]; simpl; [|done|done].
  destruct (c_int p0) as [sid| |]; simpl; [|done|done].
  destruct (item parts 1) as [p1| |]; simpl; [|done|done].
  by destruct (c_int p1) as [vid| |].
Qed.

(** Without filters, an iteration of [get_output_vectors_arrays] does
    what the iteration of [get_output_vectors] at the same line does,
    except that it returns the vector instead of appending it. *)
Lemma vector_arrays_step_all (sf vf : Z) (lines : list string) (i : nat) :
  (sf < 0)%Z -> (vf < 0)%Z ->
  match vectors_step lines i with
  | Ok (j, (Some v, _)) =>
      exists ids vals,
        vector_arrays_step sf vf lines i
        = Ok (Return (ids, vals, set_id v, vec_id v, default (-1)%Z (ent_type v))) /\
        same_results (ids, vals) (results v)
  | Ok (j, (None, _)) => vector_arrays_step sf vf lines i = Ok (Continue j)
  | Raise e => vector_arrays_step sf vf lines i = Raise e
  | OutOfFuel => vector_arrays_step sf vf lines i = OutOfFuel
  end.
Proof.
  intros Hsf Hvf. unfold vectors_step, vector_arrays_step.
  destruct (_ <=? _)%nat; [|done].
  rewrite vector_header_ids.
  destruct (vector_ids _) as [[sid vid]|e|]; simpl; [| |done].
  - destruct (Z.leb_spec 0 sf) as [|_]; [lia|].
    destruct (Z.leb_spec 0 vf) as [|_]; [lia|]. simpl.
    destruct (entity_type lines i) as [ety|e|]; simpl; [| |done].
    + pose proof (results_lists_loop_same (length lines) lines (i + 7) ([], []) ∅
                    same_results_nil) as Hs.
      destruct (results_lists_loop _ _ _ _) as [j [ids vals]|j [ids vals]|e j|];
        destruct (results_loop _ _ _ _) as [j' d|j' d|e' j'|]; simpl in Hs; try done.
      * destruct Hs as [<- Hs]. by exists ids, vals.
      * destruct Hs as [<- Hs]. by exists ids, vals.
      * destruct Hs as [<- <-]. by destruct (caught e).
    + by destruct (caught e).
  - by destruct (caught e).
Qed.

(** The first vector among what the iterations of [get_output_vectors]
    read. *)
Definition first_vector (evs : list (option (output_vector double) * bool))
  : option (output_vector double) :=
  head (omap fst evs).

Definition as_arrays (v : output_vector double) (r : option vector_arrays) : Prop :=
  exists ids vals,
    r = Some (ids, vals, set_id v, vec_id v, default (-1)%Z (ent_type v)) /\
    length ids = length vals /\
    results v = dict_of_records (zip ids vals) ∅.

Definition found (o : option (output_vector double)) (r : res (option vector_arrays))
  : Prop :=
  match o with
  | Some v => exists r', r = Ok r' /\ as_arrays v r'
  | None => r = Ok None
  end.

Lemma find_vector_events (sf vf : Z) (lines : list string) :
  (sf < 0)%Z -> (vf < 0)%Z ->
  forall fuel i j evs,
    events_from vectors_step fuel lines i = Ok (j, evs) ->
    found (first_vector evs) (find_vector sf vf fuel lines i).
Proof.
  intros Hsf Hvf. unfold events_from.
  induction fuel as [|fuel IH]; intros i j evs; simpl.
  - destruct (_ <? _)%nat; [done|]. by intros [= _ <-].
  - destruct (_ <? _)%nat; [|by intros [= _ <-]].
    pose proof (vector_arrays_step_all sf vf lines i Hsf Hvf) as Hstep.
    destruct (vectors_step lines i) as [[i' [[v|] c]]| |]; simpl; [| |done|done].
    + destruct Hstep as (ids & vals & -> & Hlen & Hres). simpl.
      rewrite (scan_from_snoc vectors_step). intros Hev.
      apply res_fmap_ok in Hev as [[j' evs'] [_ [= _ ->]]].
      unfold first_vector, snoc. simpl. exists (Some (ids, vals, set_id v, vec_id v,
                                                  default (-1)%Z (ent_type v))).
      split; [done|]. by exists ids, vals.
    + rewrite Hstep. simpl.
      rewrite (scan_from_snoc vectors_step). intros Hev.
      apply res_fmap_ok in Hev as [[j' evs'] [Hev [= _ ->]]].
      unfold snoc. simpl.
      change (first_vector ((None, c) :: evs')) with (first_vector evs').
      by apply (IH i' j').
Qed.

Lemma find_in_blocks_events (sf vf : Z) :
  (sf < 0)%Z -> (vf < 0)%Z ->
  forall bs evs,
    blocks_events vectors_step bs = Ok evs ->
    found (first_vector evs) (find_in_blocks sf vf bs).
Proof.
  intros Hsf Hvf. induction bs as [|b bs IH]; intros evs; simpl.
  - by intros [= <-].
  - destruct (events_from vectors_step _ (lines b) 0) as [[j evs1]| |] eqn:Hev;
      simpl; [|done|done].
    destruct (blocks_events vectors_step bs) as [evs2| |]; simpl; [|done|done].
    intros [= <-].
    pose proof (find_vector_events sf vf (lines b) Hsf Hvf _ _ _ _ Hev) as Hf.
    specialize (IH evs2 eq_refl).
    unfold first_vector in *. rewrite omap_app.
    destruct (omap fst evs1) as [|v vs]; simpl in *.
    + rewrite Hf. simpl. exact IH.
    + destruct Hf as (r' & -> & Hr). simpl.
      destruct Hr as (ids & vals & -> & Hr). exists (Some (ids, vals, set_id v, vec_id v,
                                                     default (-1)%Z (ent_type v))).
      split; [done|]. by exists ids, vals.
Qed.

Lemma fold_push_vector (evs : list (option (output_vector double) * bool))
    (l : list (output_vector double)) :
  fold_left push_vector evs l = l ++ omap fst evs.
Proof.
  revert l. induction evs as [|[[v|] c] evs IH]; intros l; simpl.
  - by rewrite app_nil_r.
  - rewrite IH. unfold push_vector, push. simpl. by rewrite <- app_assoc.
  - by rewrite IH.
Qed.

(** Without filters, [get_output_vectors_arrays] returns the first vector
    of [get_output_vectors], with arrays from which the dictionary of the
    vector is built. *)
Lemma first_vector_as_arrays (blocks : gmap Z (list FEMAPBlock))
    (vecs : list (output_vector double)) (set_id_filter vec_id_filter : Z) :
  (set_id_filter < 0)%Z -> (vec_id_filter < 0)%Z ->
  get_output_vectors blocks = Ok vecs ->
  match vecs with
  | [] => get_output_vectors_arrays blocks set_id_filter vec_id_filter = Ok None
  | v :: _ =>
      exists ids vals,
        get_output_vectors_arrays blocks set_id_filter vec_id_filter
        = Ok (Some (ids, vals, set_id v, vec_id v, default (-1)%Z (ent_type v))) /\
        length ids = length vals /\
        results v = dict_of_records (zip ids vals) ∅
  end.
Proof.
  intros Hsf Hvf. unfold get_output_vectors, get_output_vectors_arrays.
  rewrite scan_blocks_events.
  destruct (blocks_events vectors_step _) as [evs| |] eqn:Hev; simpl; [|done|done].
  intros [= <-].
  pose proof (find_in_blocks_events _ _ Hsf Hvf _ _ Hev) as Hf.
  unfold first_vector in Hf.
  rewrite fold_push_vector, app_nil_l.
  destruct (omap fst evs) as [|v vs]; simpl in *; [done|].
  destruct Hf as (r' & -> & ids & vals & -> & Hlen & Hres). by exists ids, vals.
Qed.

(** A stream of one-entity records fills the two lists with the IDs and
    the values of the records, one entry per record, in the order of the
    lines. *)
Lemma results_lists_loop_sparse (lines : list string) (recs : list (Z * double)) :
  forall f j acc,
    sparse_lines lines j recs ->
    (j + length recs <= length lines)%nat ->
    results_lists_loop (length recs + f) lines j acc
    = results_lists_loop f lines (j + length recs) (acc.1 ++ recs.*1, acc.2 ++ recs.*2).
Proof.
  induction recs as [|[id v] recs IH]; intros f j [ids vals] Hs Hlen.
  - simpl. by rewrite Nat.add_0_r, !app_nil_r.
  - cbn [length] in *. cbn [Nat.add results_lists_loop].
    destruct (Nat.ltb_spec j (length lines)); [|lia].
    destruct (Hs 0%nat (id, v) eq_refl) as (Hl & Hm & Hr).
    rewrite Nat.add_0_r in Hl, Hm, Hr. rewrite Hm, Hl, Hr. cbn [Nat.eqb].
    rewrite (IH f (j + 1)%nat); [|by apply (sparse_lines_tail _ _ _ _ Hs)|lia].
    cbn [fst snd fmap list_fmap]. rewrite <- !app_assoc. cbn [app].
    by replace (j + 1 + length recs)%nat with (j + S (length recs))%nat by lia.
Qed.

Lemma sparse_vector_as_arrays (blocks : gmap Z (list FEMAPBlock))
    (set_id_filter vec_id_filter : Z) (block : FEMAPBlock) (rest : list FEMAPBlock)
    (sid vid : Z) (title : string) (ety : option Z) (recs : list (Z * double)) :
  let parts := _parse_csv_line_fast (nth 0 (lines block) "") in
  let stop := (7 + length recs)%nat in
  (set_id_filter < 0)%Z -> (vec_id_filter < 0)%Z ->
  get_blocks blocks 1051 = block :: rest ->
  (2 <= length parts)%nat ->
  vector_header (lines block) 0 parts = Ok (sid, vid, title, ety) ->
  sparse_lines (lines block) 7 recs ->
  (stop = length (lines block) \/
   (stop < length (lines block))%nat /\
   is_end_marker (_parse_csv_line_fast (nth stop (lines block) "")) = true) ->
  get_output_vectors_arrays blocks set_id_filter vec_id_filter
  = Ok (Some (recs.*1, recs.*2, sid, vid, default (-1)%Z ety)).
Proof.
  intros parts stop Hsf Hvf Hblocks Hparts Hhead Hs Hend.
  unfold get_output_vectors_arrays. rewrite Hblocks. cbn [find_in_blocks].
  set (ls := lines block) in *.
  assert (Hlen : (7 + length recs <= length ls)%nat) by (unfold stop in Hend; lia).
  assert (Hstep : vector_arrays_step set_id_filter vec_id_filter ls 0
                  = Ok (Return (recs.*1, recs.*2, sid, vid, default (-1)%Z ety))).
  { unfold vector_arrays_step. fold parts.
    destruct (Nat.leb_spec 2 (length parts)); [|lia].
    rewrite vector_header_ids in Hhead.
    destruct (vector_ids parts) as [[sid' vid']| |]; simpl in Hhead; [|done|done].
    destruct (entity_type ls 0) as [ety'| |]; simpl in Hhead; [|done|done].
    injection Hhead as -> -> _ ->.
    destruct (Z.leb_spec 0 set_id_filter) as [|_]; [lia|].
    destruct (Z.leb_spec 0 vec_id_filter) as [|_]; [lia|]. simpl.
    replace (length ls) with (length recs + S (length ls - length recs - 1))%nat
      at 1 by lia.
    rewrite results_lists_loop_sparse by (done || lia).
    cbn [results_lists_loop fst snd app].
    destruct Hend as [Hend|[Hend Hm]]; unfold stop in *.
    - destruct (Nat.ltb_spec (7 + length recs) (length ls)); [lia|done].
    - destruct (Nat.ltb_spec (7 + length recs) (length ls)); [|lia]. by rewrite Hm. }
  destruct (length ls) as [|n] eqn:Hn; [lia|].
  cbn [find_vector]. rewrite Hn.
  destruct (Nat.ltb_spec 0 (S n)); [|lia]. by rewrite Hstep.
Qed.

(** X17: without filters, [get_output_vectors_arrays] returns the first
    vector of [get_output_vectors]: its set ID, its vector ID and its
    entity type (-1 when it has none), with two arrays of one length from
    which the dictionary of the vector is built (a later entry of an ID
    overwrites an earlier one); when [get_output_vectors] finds no vector
    it returns the tuple of [None].  The arrays keep what the dictionary
    forgets: when the first block 1051 starts with a vector whose result
    stream is made of one-entity records, the arrays hold the ID and the
    value of every record, one entry per record in file order, a repeated
    ID included. *)
Theorem X17_first_vector_as_arrays (blocks : gmap Z (list FEMAPBlock))
    (set_id_filter vec_id_filter : Z) :
  (set_id_filter < 0)%Z -> (vec_id_filter < 0)%Z ->
  (forall vecs,
     get_output_vectors blocks = Ok vecs ->
     match vecs with
     | [] => get_output_vectors_arrays blocks set_id_filter vec_id_filter = Ok None
     | v :: _ =>
         exists ids vals,
           get_output_vectors_arrays blocks set_id_filter vec_id_filter
           = Ok (Some (ids, vals, set_id v, vec_id v, default (-1)%Z (ent_type v))) /\
           length ids = length vals /\
           results v = dict_of_records (zip ids vals) ∅
     end) /\
  (forall block rest sid vid title ety (recs : list (Z * double)),
     let parts := _parse_csv_line_fast (nth 0 (lines block) "") in
     let stop := (7 + length recs)%nat in
     get_blocks blocks 1051 = block :: rest ->
     (2 <= length parts)%nat ->
     vector_header (lines block) 0 parts = Ok (sid, vid, title, ety) ->
     sparse_lines (lines block) 7 recs ->
     (stop = length (lines block) \/
      (stop < length (lines block))%nat /\
      is_end_marker (_parse_csv_line_fast (nth stop (lines block) "")) = true) ->
     get_output_vectors_arrays blocks set_id_filter vec_id_filter
     = Ok (Some (recs.*1, recs.*2, sid, vid, default (-1)%Z ety))).
Proof.
  intros Hsf Hvf. split.
  - intros vecs. by apply first_vector_as_arrays.
  - intros block rest sid vid title ety recs parts stop.
    by apply sparse_vector_as_arrays.
Qed.

End VectorArrays.

Lemma X17_witness :
  let lines := ["1,2,1,"; "Disp X,"; "0.,0.,0.,"; "0,0,0,0,0,0,0,0,0,0,";
                "0,0,0,0,0,0,0,0,0,0,"; "0,0,4,7,"; "0,1,1,";
                "1,1.5,"; "3,3.5,"; "1,2.5,"; "-1,0.,"] in
  let block := {| block_id := 1051; lines := lines |} in
  let blocks : gmap Z (list FEMAPBlock) := {[ 1051%Z := [block] ]} in
  let recs : list (Z * @double dec_float_conv) :=
    [(1, (15, -1)); (3, (35, -1)); (1, (25, -1))]%Z in
  let v : output_vector (@double dec_float_conv) :=
    {| set_id := 1; vec_id := 2; vec_title := "Disp X"; ent_type := Some 7%Z;
       results := {[ 1%Z := (25, -1)%Z; 3%Z := (35, -1)%Z ]} |} in
  ((-1 < 0)%Z /\ get_output_vectors (H := dec_float_conv) blocks = Ok [v] /\
   sparse_lines (H := dec_float_conv) lines 7 recs) /\
  get_output_vectors_arrays (H := dec_float_conv) blocks (-1) (-1)
  = Ok (Some ([1; 3; 1]%Z, [(15, -1); (35, -1); (25, -1)]%Z, 1%Z, 2%Z, 7%Z)) /\
  exists ids vals,
    get_output_vectors_arrays (H := dec_float_conv) blocks (-1) (-1)
    = Ok (Some (ids, vals, 1%Z, 2%Z, 7%Z)) /\
    length ids = length vals /\
    results v = dict_of_records (zip ids vals) ∅.
Proof.
  intros lines block blocks recs v.
  assert (Hg : get_output_vectors (H := dec_float_conv) blocks = Ok [v])
    by (vm_compute; reflexivity).
  assert (Hs : sparse_lines (H := dec_float_conv) lines 7 recs).
  { intros k r Hk. destruct k as [|[|[|k]]]; try discriminate;
      injection Hk as <-; vm_compute; auto. }
  destruct (X17_first_vector_as_arrays (H := dec_float_conv) blocks (-1) (-1)
              eq_refl eq_refl) as [Hfirst Hrecs].
  split; [split; [reflexivity|split; [exact Hg|exact Hs]]|]. split.
  - apply (Hrecs block [] 1%Z 2%Z "Disp X" (Some 7%Z) recs).
    + reflexivity.
    + vm_compute. lia.
    + vm_compute. reflexivity.
    + exact Hs.
    + right. split; [simpl; lia|reflexivity].
  - exact (Hfirst [v] Hg).
Defined.

(** ** One output vector as arrays: the filters *)

Section VectorFilters.
Context `{FloatConv}.

Definition passes (set_id_filter vec_id_filter : Z) (r : vector_arrays) : Prop :=
  let '(ids, vals, sid, vid, _) := r in
  ((0 <= set_id_filter)%Z -> sid = set_id_filter) /\
  ((0 <= vec_id_filter)%Z -> vid = vec_id_filter) /\
  length ids = length vals.

Lemma results_lists_loop_lengths (fuel : nat) (lines : list string) (i : nat) :
  match results_lists_loop fuel lines i ([], []) with
  | Broke _ (ids, vals) | Exhausted _ (ids, vals) => length ids = length vals
  | _ => True
  end.
Proof.
  pose proof (results_lists_loop_same fuel lines i ([], []) ∅ same_results_nil) as Hs.
  destruct (results_lists_loop _ _ _ _) as [j [ids vals]|j [ids vals]|e j|];
    destruct (results_loop _ _ _ _) as [j' d|j' d|e' j'|]; simpl in Hs; try done.
  - by destruct Hs as [_ [Hlen _]].
  - by destruct Hs as [_ [Hlen _]].
Qed.

Lemma vector_arrays_step_return (sf vf : Z) (lines : list string) (i : nat)
    (r : vector_arrays) :
  vector_arrays_step sf vf lines i = Ok (Return r) -> passes sf vf r.
Proof.
  unfold vector_arrays_step.
  destruct (_ <=? _)%nat; [|done].
  destruct (vector_ids _) as [[sid vid]|e|]; [| |done].
  - destruct ((0 <=? sf)%Z && negb (sid =? sf)%Z) eqn:Hs.
    { by destruct (skip_vector _ _ _). }
    destruct ((0 <=? vf)%Z && negb (vid =? vf)%Z) eqn:Hv.
    { by destruct (skip_vector _ _ _). }
    destruct (entity_type lines i) as [ety|e|]; [| |done].
    + pose proof (results_lists_loop_lengths (length lines) lines (i + 7)) as Hlen.
      assert (Hpass : forall ids vals, length ids = length vals ->
                passes sf vf (ids, vals, sid, vid, default (-1)%Z ety)).
      { intros ids vals Hl. split; [|split; [|done]].
        - intros Hsf. destruct (Z.leb_spec 0 sf); [|lia]. simpl in Hs.
          apply negb_false_iff in Hs. by apply Z.eqb_eq in Hs.
        - intros Hvf. destruct (Z.leb_spec 0 vf); [|lia]. simpl in Hv.
          apply negb_false_iff in Hv. by apply Z.eqb_eq in Hv. }
      destruct (results_lists_loop _ _ _ _) as [j [ids vals]|j [ids vals]|e j|];
        [| | |done].
      * intros [= <-]. by apply Hpass.
      * intros [= <-]. by apply Hpass.
      * by destruct (caught e).
    + by destruct (caught e).
  - by destruct (caught e).
Qed.

Lemma find_vector_return (sf vf : Z) (lines : list string) :
  forall fuel i r, find_vector sf vf fuel lines i = Ok (Some r) -> passes sf vf r.
Proof.
  induction fuel as [|fuel IH]; intros i r; simpl.
  - by destruct (_ <? _)%nat.
  - destruct (_ <? _)%nat; [|done].
    destruct (vector_arrays_step sf vf lines i) as [[i'|r']| |] eqn:Hstep; simpl;
      [apply IH| |done|done].
    intros [= <-]. by apply (vector_arrays_step_return sf vf lines i).
Qed.

(** X16: the vector that [get_output_vectors_arrays] returns passes the
    filters: its set ID is the set filter and its vector ID is the vector
    filter, for each filter that is not negative; and its two arrays have
    the same length. *)
Theorem X16_returned_vector_passes_filters (blocks : gmap Z (list FEMAPBlock))
    (set_id_filter vec_id_filter : Z) (ids : list Z) (vals : list double)
    (sid vid ety : Z) :
  get_output_vectors_arrays blocks set_id_filter vec_id_filter
  = Ok (Some (ids, vals, sid, vid, ety)) ->
  ((0 <= set_id_filter)%Z -> sid = set_id_filter) /\
  ((0 <= vec_id_filter)%Z -> vid = vec_id_filter) /\
  length ids = length vals.
Proof.
  unfold get_output_vectors_arrays.
  induction (get_blocks blocks 1051) as [|b bs IH]; simpl; [done|].
  destruct (find_vector _ _ _ (lines b) 0) as [[r|]| |] eqn:Hf; simpl;
    [|exact IH|done|done].
  intros [= ->]. by apply (find_vector_return _ _ _ _ _ _ Hf).
Qed.

End VectorFilters.

Lemma X16_witness :
  let vector sid :=
    [sid +:+ ",2,1,"; "Disp X,"; "0.,0.,0.,"; "0,0,0,0,0,0,0,0,0,0,";
     "0,0,0,0,0,0,0,0,0,0,"; "0,0,4,7,"; "0,1,1,"; "1,1.5,"; "-1,0.,"] in
  let blocks : gmap Z (list FEMAPBlock) :=
    {[ 1051%Z := [ {| block_id := 1051; lines := vector "1" ++ vector "2" |} ] ]} in
  get_output_vectors_arrays (H := dec_float_conv) blocks 2 (-1)
  = Ok (Some ([1]%Z, [(15, -1)%Z], 2%Z, 2%Z, 7%Z)) /\
  ((0 <= 2)%Z -> 2%Z = 2%Z) /\ ((0 <= -1)%Z -> 2%Z = (-1)%Z) /\
  length [1%Z] = length [(15, -1)%Z].
Proof.
  intros vector blocks.
  assert (Hg : get_output_vectors_arrays (H := dec_float_conv) blocks 2 (-1)
               = Ok (Some ([1]%Z, [(15, -1)%Z], 2%Z, 2%Z, 7%Z)))
    by (vm_compute; reflexivity).
  split; [exact Hg|].
  exact (X16_returned_vector_passes_filters (H := dec_float_conv)
           blocks 2 (-1) _ _ _ _ _ Hg).
Defined.

(** ** The extractors: outcomes *)

Lemma returns_or_overflows_intro {A : Type} (r : res A) :
  r <> OutOfFuel -> (forall e, r = Raise e -> e = OverflowError) ->
  returns_or_overflows r.
Proof.
  intros Hf He. destruct r as [a|e|]; [left; by exists a| |done].
  right. by rewrite (He e eq_refl).
Qed.

Lemma uncaught_overflow (e : exn) : caught e = false -> e = OverflowError.
Proof. by destruct e. Qed.

Lemma try_except_raise {A : Type} (body : res A) (h : A) (e : exn) :
  try_except body (Ok h) = Raise e -> e = OverflowError.
Proof.
  destruct body as [a|e'|]; simpl; [done| |done].
  destruct (caught e') eqn:Hc; [done|]. intros [= <-]. by apply uncaught_overflow.
Qed.

Lemma stride_raise {A : Type} (body : res A) (h : A) (b : bool) (e : exn) :
  (if b then try_except body (Ok h) else Ok h) = Raise e -> e = OverflowError.
Proof. destruct b; [apply try_except_raise|done]. Qed.

Lemma for_each_raise {A B : Type} (body : B -> A -> res A) (P : exn -> Prop) :
  (forall x a e, body x a = Raise e -> P e) ->
  forall xs a e, for_each body xs a = Raise e -> P e.
Proof.
  intros Hb. induction xs as [|x xs IH]; intros a e; simpl; [done|].
  destruct (body x a) as [a'|e'|] eqn:Hx; simpl; [apply IH| |done].
  intros [= <-]. by apply (Hb x a).
Qed.

Section Outcomes.
Context `{FloatConv}.

Lemma skip_vector_bounds fuel lines i j : skip_vector fuel lines i = Ok j -> (i <= j)%nat.
Proof.
  revert i. induction fuel as [|fuel IH]; intros i; simpl.
  - destruct (_ <? _)%nat; [done|]. intros [= <-]. lia.
  - destruct (_ <? _)%nat; [|intros [= <-]; lia].
    destruct (is_end_marker _); [intros [= <-]; lia|].
    intros Hs. apply IH in Hs. lia.
Qed.

Lemma skip_vector_fuel fuel lines i :
  (length lines - i <= fuel)%nat -> skip_vector fuel lines i <> OutOfFuel.
Proof.
  revert i. induction fuel as [|fuel IH]; intros i Hf; simpl.
  - destruct (Nat.ltb_spec i (length lines)); [lia|done].
  - destruct (Nat.ltb_spec i (length lines)); [|done].
    destruct (is_end_marker _); [done|]. apply IH. lia.
Qed.

Lemma skip_vector_no_raise fuel lines i e : skip_vector fuel lines i <> Raise e.
Proof.
  revert i. induction fuel as [|fuel IH]; intros i; simpl.
  - by destruct (_ <? _)%nat.
  - destruct (_ <? _)%nat; [|done]. destruct (is_end_marker _); [done|]. apply IH.
Qed.

Lemma vector_ids_fuel parts : vector_ids parts <> OutOfFuel.
Proof. unfold vector_ids. fuel_tac. Qed.

Lemma entity_type_fuel lines i : entity_type lines i <> OutOfFuel.
Proof. unfold entity_type. fuel_tac. Qed.

Lemma results_lists_loop_bounds (lines : list string) (i : nat) :
  match results_lists_loop (length lines) lines i ([], []) with
  | Broke j _ => (i < j)%nat
  | Exhausted j _ | Raised _ j => (i <= j)%nat
  | Fuel => False
  end.
Proof.
  pose proof (results_lists_loop_same (length lines) lines i ([], []) ∅
                same_results_nil) as Hs.
  pose proof (results_loop_bounds (length lines) lines i ∅) as Hb.
  pose proof (results_loop_fuel (length lines) lines i ∅) as Hf.
  destruct (results_lists_loop _ _ _ _) as [j a|j a|e j|];
    destruct (results_loop _ _ _ _) as [j' d|j' d|e' j'|]; simpl in Hs; try done.
  - destruct Hs as [-> _]. lia.
  - destruct Hs as [-> _]. lia.
  - destruct Hs as [_ ->]. lia.
  - apply Hf; [lia|done].
Qed.

Lemma vector_arrays_step_outcome (sf vf : Z) (lines : list string) (i : nat) :
  match vector_arrays_step sf vf lines i with
  | Ok (Continue j) => (i < j)%nat
  | Ok (Return _) => True
  | Raise e => e = OverflowError
  | OutOfFuel => False
  end.
Proof.
  unfold vector_arrays_step.
  destruct (_ <=? _)%nat; [|lia].
  destruct (vector_ids _) as [[sid vid]|e|] eqn:Hids;
    [| |by apply vector_ids_fuel in Hids].
  - assert (Hskip : match Continue <$> skip_vector (length lines) lines (i + 7) with
                    | Ok (Continue j) => (i < j)%nat
                    | Ok (Return _) => True
                    | Raise e => e = OverflowError
                    | OutOfFuel => False
                    end).
    { destruct (skip_vector _ _ _) as [j|e|] eqn:Hs; simpl.
      - apply skip_vector_bounds in Hs. lia.
      - by apply skip_vector_no_raise in Hs.
      - apply skip_vector_fuel in Hs; [done|lia]. }
    destruct (_ && _); [exact Hskip|]. destruct (_ && _); [exact Hskip|].
    destruct (entity_type lines i) as [ety|e|] eqn:Hety;
      [| |by apply entity_type_fuel in Hety].
    + pose proof (results_lists_loop_bounds lines (i + 7)) as Hb.
      destruct (results_lists_loop _ _ _ _) as [j [ids vals]|j [ids vals]|e j|];
        [done|done| |done].
      destruct (caught e) eqn:Hc; [lia|by apply uncaught_overflow].
    + destruct (caught e) eqn:Hc; [lia|by apply uncaught_overflow].
  - destruct (caught e) eqn:Hc; [lia|by apply uncaught_overflow].
Qed.

Lemma find_vector_outcome (sf vf : Z) (lines : list string) :
  forall fuel i,
    (length lines - i <= fuel)%nat ->
    returns_or_overflows (find_vector sf vf fuel lines i).
Proof.
  induction fuel as [|fuel IH]; intros i Hf; simpl.
  - destruct (Nat.ltb_spec i (length lines)); [lia|]. left. by eexists.
  - destruct (Nat.ltb_spec i (length lines)); [|left; by eexists].
    pose proof (vector_arrays_step_outcome sf vf lines i) as Hs.
    destruct (vector_arrays_step sf vf lines i) as [[j|r]|e|]; simpl; [| | |done].
    + apply IH. lia.
    + left. by eexists.
    + right. by rewrite Hs.
Qed.

Lemma find_in_blocks_outcome (sf vf : Z) (bs : list FEMAPBlock) :
  returns_or_overflows (find_in_blocks sf vf bs).
Proof.
  induction bs as [|b bs IH]; simpl; [left; by eexists|].
  destruct (find_vector_outcome sf vf (lines b) (length (lines b)) 0) as [[r Hr]|Hr];
    [lia| |]; rewrite Hr; simpl.
  - destruct r; [left; by eexists|exact IH].
  - by right.
Qed.

Lemma vectors_step_raise lines i e : vectors_step lines i = Raise e -> e = OverflowError.
Proof.
  unfold vectors_step. destruct (_ <=? _)%nat; [|done].
  destruct (vector_header _ _ _) as [[[[sid vid] title] ety]|e'|]; [| |done].
  - destruct (results_loop _ _ _ _) as [j r|j r|e' j|]; [done|done| |done].
    destruct (caught e') eqn:Hc; [done|]. intros [= <-]. by apply uncaught_overflow.
  - destruct (caught e') eqn:Hc; [done|]. intros [= <-]. by apply uncaught_overflow.
Qed.

Lemma elements_arrays_step_raise lines i e :
  elements_arrays_step lines i = Raise e -> e = OverflowError.
Proof.
  intros Hs. pose proof (elements_step_rows lines i) as Hr. rewrite Hs in Hr.
  simpl in Hr. unfold elements_step in Hr. by apply stride_raise in Hr.
Qed.

Lemma scan_blocks_outcome {E A : Type} (step : list string -> nat -> res (nat * E))
    (emit : A -> E -> A) (bs : list FEMAPBlock) (a : A) :
  (forall l i i' ev, step l i = Ok (i', ev) -> (i < i')%nat) ->
  (forall l i, step l i <> OutOfFuel) ->
  (forall l i e, step l i = Raise e -> e = OverflowError) ->
  returns_or_overflows (scan_blocks step emit bs a).
Proof.
  intros Hp Hf Hr. apply returns_or_overflows_intro.
  - by apply scan_blocks_fuel.
  - intros e. by apply (scan_blocks_raise step emit (fun e => e = OverflowError)).
Qed.

Lemma node_of_line_raise line e : node_of_line line = Raise e -> e = OverflowError.
Proof. unfold node_of_line. apply stride_raise. Qed.

Lemma nodes_of_lines_raise ls e : nodes_of_lines ls = Raise e -> e = OverflowError.
Proof.
  induction ls as [|l ls IH]; simpl; [done|].
  destruct (node_of_line l) as [r| |] eqn:Hl; simpl;
    [|intros [= <-]; by apply node_of_line_raise in Hl|done].
  destruct (nodes_of_lines ls) as [rs| |]; simpl; [done| |done].
  intros [= <-]. by apply IH.
Qed.

Lemma nodes_of_blocks_raise bs e : nodes_of_blocks bs = Raise e -> e = OverflowError.
Proof.
  induction bs as [|b bs IH]; simpl; [done|].
  destruct (nodes_of_lines (lines b)) as [rs| |] eqn:Hl; simpl;
    [|intros [= <-]; by apply nodes_of_lines_raise in Hl|done].
  destruct (nodes_of_blocks bs) as [rs'| |]; simpl; [done| |done].
  intros [= <-]. by apply IH.
Qed.

Lemma get_nodes_of_records (blocks : gmap Z (list FEMAPBlock)) :
  get_nodes blocks
  = rs ← nodes_of_blocks (get_blocks blocks 403); Ok (dict_of_records rs ∅).
Proof. unfold get_nodes. apply get_nodes_records. Qed.

Lemma get_nodes_arrays_of_records (blocks : gmap Z (list FEMAPBlock)) :
  get_nodes_arrays blocks
  = rs ← nodes_of_blocks (get_blocks blocks 403);
    match rs with
    | [] => Raise ValueError
    | _ :: _ => Ok (rs.*1, rs.*2)
    end.
Proof.
  unfold get_nodes_arrays, node_lists. rewrite get_nodes_arrays_records.
  destruct (nodes_of_blocks _) as [[|r rs]| |]; done.
Qed.

Lemma get_nodes_outcome (blocks : gmap Z (list FEMAPBlock)) :
  returns_or_overflows (get_nodes blocks).
Proof.
  rewrite get_nodes_of_records.
  destruct (nodes_of_blocks _) as [rs|e|] eqn:Hn; simpl.
  - left. by eexists.
  - right. by rewrite (nodes_of_blocks_raise _ _ Hn).
  - destruct (extractors_terminate blocks) as (Hf & _).
    rewrite get_nodes_of_records, Hn in Hf. done.
Qed.

(** X9: every extractor ends, and it returns its value unless it raises
    OverflowError: the ValueError and the IndexError of a malformed record
    never leave an extractor, and no other exception is raised.  (For
    [get_output_vectors_arrays], with any two filters.) *)
Theorem X9_extractors_return_or_overflow (blocks : gmap Z (list FEMAPBlock))
    (set_id_filter vec_id_filter : Z) :
  returns_or_overflows (get_nodes blocks) /\
  returns_or_overflows (get_properties blocks) /\
  returns_or_overflows (get_elements blocks) /\
  returns_or_overflows (get_elements_arrays blocks) /\
  returns_or_overflows (get_materials blocks) /\
  returns_or_overflows (get_output_sets blocks) /\
  returns_or_overflows (get_output_vectors blocks) /\
  returns_or_overflows (get_output_vectors_arrays blocks set_id_filter vec_id_filter).
Proof.
  repeat split.
  - apply get_nodes_outcome.
  - apply scan_blocks_outcome;
      [apply properties_step_progress|apply properties_step_fuel|].
    intros l i e. apply stride_raise.
  - apply scan_blocks_outcome; [apply elements_step_progress|apply elements_step_fuel|].
    intros l i e. apply stride_raise.
  - unfold get_elements_arrays.
    destruct (scan_blocks_outcome elements_arrays_step append_row
                (get_blocks blocks 404) no_elements elements_arrays_step_progress
                elements_arrays_step_fuel elements_arrays_step_raise) as [[st ->]| ->];
      [left; by eexists|by right].
  - apply scan_blocks_outcome; [apply materials_step_progress|apply materials_step_fuel|].
    intros l i e. apply stride_raise.
  - apply scan_blocks_outcome;
      [apply output_sets_step_progress|apply output_sets_step_fuel|].
    intros l i e. apply stride_raise.
  - apply scan_blocks_outcome;
      [apply vectors_step_progress|apply vectors_step_fuel|apply vectors_step_raise].
  - apply find_in_blocks_outcome.
Qed.

End Outcomes.

(** ** Nodes: the arrays need a node, and where a node comes from *)

Section NodeFacts.
Context `{FloatConv}.

(** X18: [get_nodes_arrays] raises ValueError exactly on the inputs on
    which [get_nodes] returns the empty dictionary (no valid node record:
    the two-dimensional array of coordinates cannot be built from an
    empty list); and whenever [get_nodes] returns a dictionary that is not
    empty, [get_nodes_arrays] returns its arrays. *)
Theorem X18_nodes_arrays_need_a_node (blocks : gmap Z (list FEMAPBlock)) :
  (get_nodes_arrays blocks = Raise ValueError <-> get_nodes blocks = Ok ∅) /\
  (forall nodes, get_nodes blocks = Ok nodes -> nodes <> ∅ ->
     exists ids cs, get_nodes_arrays blocks = Ok (ids, cs) /\ ids <> []).
Proof.
  rewrite get_nodes_arrays_of_records, get_nodes_of_records.
  destruct (nodes_of_blocks _) as [[|[id c] rs]|e|] eqn:Hn; simpl.
  - split; [done|]. by intros nodes [= <-].
  - split.
    + split; [done|]. intros [= Hd]. exfalso.
      by apply (dict_of_records_nonempty ((id, c) :: rs)).
    + intros nodes _ _. by exists (id :: rs.*1), (c :: rs.*2).
  - split; [|done]. split; [|done].
    intros [= ->]. by apply nodes_of_blocks_raise in Hn.
  - split; [|done]. split; done.
Qed.

Lemma nodes_of_lines_in (ls : list string) (rs : list (Z * coords double))
    (r : Z * coords double) :
  nodes_of_lines ls = Ok rs -> r ∈ rs ->
  exists l, In l ls /\ node_of_line l = Ok (Some r).
Proof.
  revert rs. induction ls as [|l ls IH]; intros rs; simpl.
  - intros [= <-] Hr. by apply elem_of_nil in Hr.
  - destruct (node_of_line l) as [o| |] eqn:Hl; simpl; [|done|done].
    destruct (nodes_of_lines ls) as [rs'| |]; simpl; [|done|done].
    intros [= <-] Hr.
    assert (Hrest : r ∈ rs' -> exists l0, (l = l0 \/ In l0 ls)
                                          /\ node_of_line l0 = Ok (Some r)).
    { intros Hin. destruct (IH rs' eq_refl Hin) as (l0 & Hl0 & Hn). eauto. }
    destruct o as [x|]; [|by apply Hrest].
    apply elem_of_cons in Hr as [->|Hr]; [|by apply Hrest].
    exists l. split; [by left|done].
Qed.

Lemma nodes_of_blocks_in (bs : list FEMAPBlock) (rs : list (Z * coords double))
    (r : Z * coords double) :
  nodes_of_blocks bs = Ok rs -> r ∈ rs ->
  exists b l, In b bs /\ In l (lines b) /\ node_of_line l = Ok (Some r).
Proof.
  revert rs. induction bs as [|b bs IH]; intros rs; simpl.
  - intros [= <-] Hr. by apply elem_of_nil in Hr.
  - destruct (nodes_of_lines (lines b)) as [rs1| |] eqn:Hl; simpl; [|done|done].
    destruct (nodes_of_blocks bs) as [rs2| |]; simpl; [|done|done].
    intros [= <-] Hr. apply elem_of_app in Hr as [Hr|Hr].
    + destruct (nodes_of_lines_in _ _ _ Hl Hr) as (l & Hin & Hn).
      exists b, l. split; [by left|done].
    + destruct (IH rs2 eq_refl Hr) as (b' & l & Hb & Hin & Hn).
      exists b', l. split; [by right|done].
Qed.

Lemma node_record_fields (parts : list string) (id : Z) (x y z : double) :
  (14 <= length parts)%nat ->
  node_record parts = Ok (id, (x, y, z)) ->
  c_int (nth 0 parts "") = Ok id /\ c_float (nth 11 parts "") = Ok x /\
  c_float (nth 12 parts "") = Ok y /\ c_float (nth 13 parts "") = Ok z.
Proof.
  intros Hlen. unfold node_record.
  rewrite !item_nth by lia. simpl.
  destruct (c_int _) as [id'| |]; simpl; [|done|done].
  destruct (c_float (nth 11 parts "")) as [x'| |]; simpl; [|done|done].
  destruct (c_float (nth 12 parts "")) as [y'| |]; simpl; [|done|done].
  destruct (c_float (nth 13 parts "")) as [z'| |]; simpl; [|done|done].
  by intros [= -> -> -> ->].
Qed.

(** X20: every node of the dictionary of [get_nodes] comes from a line of
    a block 403: a line with at least 14 fields, whose first field is the
    ID of the node and whose fields 11, 12 and 13 are its coordinates. *)
Theorem X20_node_provenance (blocks : gmap Z (list FEMAPBlock))
    (nodes : gmap Z (coords double)) (id : Z) (x y z : double) :
  get_nodes blocks = Ok nodes ->
  nodes !! id = Some (x, y, z) ->
  exists block line,
    In block (get_blocks blocks 403) /\ In line (lines block) /\
    let parts := parse_csv_line line in
    (14 <= length parts)%nat /\
    c_int (nth 0 parts "") = Ok id /\ c_float (nth 11 parts "") = Ok x /\
    c_float (nth 12 parts "") = Ok y /\ c_float (nth 13 parts "") = Ok z.
Proof.
  rewrite get_nodes_of_records.
  destruct (nodes_of_blocks _) as [rs| |] eqn:Hn; simpl; [|done|done].
  intros [= <-] Hl. apply dict_of_records_elem in Hl.
  destruct (nodes_of_blocks_in _ _ _ Hn Hl) as (b & l & Hb & Hin & Hline).
  exists b, l. split; [done|]. split; [done|].
  unfold node_of_line in Hline. unfold parse_csv_line. simpl.
  destruct (Nat.leb_spec 14 (length (_parse_csv_line_fast l))) as [Hlen|]; [|done].
  split; [done|]. apply node_record_fields; [done|].
  destruct (node_record _) as [r| |]; simpl in Hline; [by injection Hline as ->| |done].
  by destruct (caught e).
Qed.

End NodeFacts.

Lemma X18_witness :
  let blocks : gmap Z (list FEMAPBlock) :=
    {[ 403%Z := [ {| block_id := 403; lines := ["1,0,0,1,46,0,0,0,0,0,0,x,0.,0.,"] |} ] ]} in
  get_nodes (H := dec_float_conv) blocks = Ok ∅ /\
  get_nodes_arrays (H := dec_float_conv) blocks = Raise ValueError.
Proof.
  intros blocks.
  assert (Hg : get_nodes (H := dec_float_conv) blocks = Ok ∅) by (vm_compute; reflexivity).
  split; [exact Hg|].
  destruct (X18_nodes_arrays_need_a_node (H := dec_float_conv) blocks) as [[_ Hr] _].
  exact (Hr Hg).
Defined.

Lemma X20_witness :
  let blocks : gmap Z (list FEMAPBlock) :=
    {[ 403%Z := [ {| block_id := 403;
                     lines := ["1,0,0,1,46,0,0,0,0,0,0,0.,0.,0.,";
                               "2,0,0,1,46,0,0,0,0,0,0,1.,0.,2.5,"] |} ] ]} in
  get_nodes (H := dec_float_conv) blocks
  = Ok {[ 1%Z := ((0, 0), (0, 0), (0, 0))%Z; 2%Z := ((1, 0), (0, 0), (25, -1))%Z ]} /\
  exists block line,
    In block (get_blocks blocks 403) /\ In line (lines block) /\
    let parts := parse_csv_line line in
    (14 <= length parts)%nat /\
    c_int (nth 0 parts "") = Ok 2%Z /\
    c_float (H := dec_float_conv) (nth 11 parts "") = Ok (1, 0)%Z /\
    c_float (H := dec_float_conv) (nth 12 parts "") = Ok (0, 0)%Z /\
    c_float (H := dec_float_conv) (nth 13 parts "") = Ok (25, -1)%Z.
Proof.
  intros blocks.
  assert (Hg : get_nodes (H := dec_float_conv) blocks
               = Ok {[ 1%Z := ((0, 0), (0, 0), (0, 0))%Z;
                       2%Z := ((1, 0), (0, 0), (25, -1))%Z ]})
    by (vm_compute; reflexivity).
  split; [exact Hg|].
  apply (X20_node_provenance (H := dec_float_conv) blocks _ 2 _ _ _ Hg).
  vm_compute. reflexivity.
Defined.

(** ** Titles *)

Lemma title_of_clean (line : string) : clean_title (title_of line).
Proof.
  unfold title_of, clean_title.
  destruct (String.eqb_spec (rstrip_comma (strip line)) "<NULL>") as [|Hne]; [done|].
  split; [done|]. apply rstrip_by_idem.
Qed.

Lemma title_at_clean (lines : list string) (i : nat) : clean_title (title_at lines i).
Proof. unfold title_at. destruct (_ <? _)%nat; [apply title_of_clean|done]. Qed.

Section Titles.
Context `{FloatConv}.

Lemma dict_invariant {V : Type} (step : list string -> nat -> res (nat * option (Z * V)))
    (P : V -> Prop) (bs : list FEMAPBlock) (d : gmap Z V) (k : Z) (v : V) :
  (forall lines i i' k' v', step lines i = Ok (i', Some (k', v')) -> P v') ->
  scan_blocks step put bs ∅ = Ok d -> d !! k = Some v -> P v.
Proof.
  intros Hstep Hs Hl.
  assert (Hinv : forall k v, d !! k = Some v -> P v); [|by apply (Hinv k)].
  clear k v Hl.
  eapply (scan_blocks_invariant step put
            (fun d : gmap Z V => forall k v, d !! k = Some v -> P v)
            (fun ev => forall k v, ev = Some (k, v) -> P v)); [| | |exact Hs].
  - intros lines i i' ev Hev k v ->. by apply (Hstep lines i i' k).
  - intros a [[k' v']|] Ha Hev k v; simpl; [|apply Ha].
    destruct (decide (k' = k)) as [->|Hne].
    + rewrite lookup_insert_eq. intros [= <-]. by apply (Hev k).
    + rewrite lookup_insert_ne by done. apply Ha.
  - intros k v. by rewrite lookup_empty.
Qed.

(** X19: no title that [get_properties], [get_output_sets] or
    [get_output_vectors] returns is the sentinel [<NULL>], and none ends
    with a comma. *)
Theorem X19_titles_are_clean (blocks : gmap Z (list FEMAPBlock)) :
  (forall props k p,
     get_properties blocks = Ok props -> props !! k = Some p ->
     clean_title (prop_title p)) /\
  (forall sets k s,
     get_output_sets blocks = Ok sets -> sets !! k = Some s ->
     clean_title (set_title s)) /\
  (forall vecs v,
     get_output_vectors blocks = Ok vecs -> In v vecs -> clean_title (vec_title v)).
Proof.
  split; [|split].
  - intros props k p Hg Hl. unfold get_properties in Hg.
    apply (dict_invariant properties_step (fun p => clean_title (prop_title p))
             _ _ k p) in Hg; [done| |done].
    intros lines i i' k' p' Hstep. unfold properties_step in Hstep.
    apply stride_step_record in Hstep. unfold property_record in Hstep.
    do 4 (apply res_bind_ok in Hstep as [? [_ Hstep]]).
    injection Hstep as _ <-. apply title_at_clean.
  - intros sets k s Hg Hl. unfold get_output_sets in Hg.
    apply (dict_invariant output_sets_step
             (fun s => clean_title (set_title s)) _ _ k s) in Hg; [done| |done].
    intros lines i i' k' s' Hstep. unfold output_sets_step in Hstep.
    apply stride_step_record in Hstep. unfold output_set_record in Hstep.
    do 3 (apply res_bind_ok in Hstep as [? [_ Hstep]]).
    injection Hstep as _ <-. apply title_at_clean.
  - intros vecs v Hg Hin. unfold get_output_vectors in Hg.
    assert (Hall : Forall (fun v => clean_title (vec_title v)) vecs);
      [|by apply (proj1 (List.Forall_forall _ _) Hall)].
    eapply (scan_blocks_invariant vectors_step push_vector
              (Forall (fun v => clean_title (vec_title v)))
              (fun ev => forall v, ev.1 = Some v -> clean_title (vec_title v)));
      [| |constructor|exact Hg].
    + intros lines i i' [o c] Hstep v' Hv. simpl in Hv. subst o.
      unfold vectors_step in Hstep. destruct (_ <=? _)%nat; [|done].
      destruct (vector_header _ _ _) as [[[[sid vid] title] ety]|e|] eqn:Hh;
        [| |done].
      * assert (Ht : title = title_at lines i).
        { unfold vector_header in Hh.
          do 4 (apply res_bind_ok in Hh as [? [_ Hh]]).
          apply res_bind_ok in Hh as [? [_ Hh]]. by injection Hh as _ _ <- _. }
        destruct (results_loop _ _ _ _) as [j r|j r|e j|]; [| | |done].
        -- injection Hstep as _ <-. simpl. rewrite Ht. apply title_at_clean.
        -- injection Hstep as _ <-. simpl. rewrite Ht. apply title_at_clean.
        -- by destruct (caught e).
      * by destruct (caught e).
    + intros a [[v'|] c] Ha Hev; unfold push_vector; simpl; [|done].
      apply Forall_app. split; [done|]. constructor; [by apply Hev|done].
Qed.

End Titles.

Lemma X19_witness :
  let blocks : gmap Z (list FEMAPBlock) :=
    {[ 402%Z := [ {| block_id := 402;
                     lines := ["7,110,3,25,1,0,"; " <NULL>,,"; "0,0,0,0,"; "0,"; "0,";
                               "0,"; "0,"; "8,110,3,25,1,0,"; " Coil, "] |} ] ]} in
  let props : gmap Z property :=
    {[ 7%Z := {| material_id := 3; prop_title := "" |};
       8%Z := {| material_id := 3; prop_title := "Coil" |} ]} in
  get_properties blocks = Ok props /\
  clean_title (prop_title {| material_id := 3; prop_title := "Coil" |}).
Proof.
  intros blocks props.
  assert (Hg : get_properties blocks = Ok props) by (vm_compute; reflexivity).
  split; [exact Hg|].
  destruct (X19_titles_are_clean (H := dec_float_conv) blocks) as [Hp _].
  apply (Hp props 8%Z _ Hg). vm_compute. reflexivity.
Defined.

(** ** The header *)

(** X21: the header that [get_header] returns is read from the first block
    100, which has at least two lines; its title is never the sentinel
    [<NULL>], and neither its title nor its version has whitespace at
    either end.  Without a block 100, or with a first block 100 of fewer
    than two lines, there is no header. *)
Theorem X21_header_fields (blocks : gmap Z (list FEMAPBlock)) :
  match get_header blocks with
  | Some h =>
      (exists b rest, get_blocks blocks 100 = b :: rest /\ (2 <= length (lines b))%nat /\
         hdr_version h = strip (nth 1 (lines b) "")) /\
      hdr_title h <> "<NULL>" /\
      strip (hdr_title h) = hdr_title h /\ strip (hdr_version h) = hdr_version h
  | None =>
      match get_blocks blocks 100 with
      | [] => True
      | b :: _ => (length (lines b) < 2)%nat
      end
  end.
Proof.
  unfold get_header. destruct (get_blocks blocks 100) as [|b rest]; [done|].
  destruct (Nat.ltb_spec (length (lines b)) 2) as [Hlt|Hge]; [done|]. simpl.
  split; [by exists b, rest|].
  destruct (String.eqb_spec (strip (nth 0 (lines b) "")) "<NULL>") as [|Hne].
  - split; [done|]. split; [done|apply strip_idem].
  - split; [done|]. split; apply strip_idem.
Qed.

(** * The claims that depend on the whole record *)

(** ** Block 1051: the expansion of a run *)


Section RunEntries.
Context `{FloatConv}.



End RunEntries.


(** ** Block 403: the arrays without a valid node record *)

(** C10: on an input whose block 403 holds no valid node record (here one
    record with a malformed coordinate; the valid records carry pairwise
    distinct IDs, there being none), [get_nodes] returns the empty
    dictionary, and [get_nodes_arrays], which should return two arrays of
    length 0, raises ValueError: [np.array([], dtype=np.float64)] has one
    dimension and [coords] is declared [np.ndarray[np.float64_t, ndim=2]].
    The same holds on a file without any block 403.  As soon as one record
    is valid the arrays are returned, one row per valid record in file
    order, and the dictionary keeps the last row of each ID. *)
Theorem C10_nodes_arrays_raise_without_node :
  let file := [with_newline "   -1"; with_newline "   403";
               with_newline "1,0,0,1,46,0,0,0,0,0,0,0.,x,0.,";
               with_newline "   -1"] in
  let empty_file : list string := [] in
  let repeated := [with_newline "   -1"; with_newline "   403";
                   with_newline "1,0,0,1,46,0,0,0,0,0,0,0.,0.,0.,";
                   with_newline "2,0,0,1,46,0,0,0,0,0,0,1.,0.,0.,";
                   with_newline "1,0,0,1,46,0,0,0,0,0,0,0.,2.5,0.,";
                   with_newline "   -1"] in
  (_parse file ≫= get_nodes (H := dec_float_conv) = Ok ∅ /\
   _parse file ≫= get_nodes_arrays (H := dec_float_conv) = Raise ValueError) /\
  (_parse empty_file ≫= get_nodes (H := dec_float_conv) = Ok ∅ /\
   _parse empty_file ≫= get_nodes_arrays (H := dec_float_conv) = Raise ValueError) /\
  (_parse repeated ≫= get_nodes (H := dec_float_conv)
   = Ok {[ 1%Z := ((0, 0), (25, -1), (0, 0))%Z; 2%Z := ((1, 0), (0, 0), (0, 0))%Z ]} /\
   _parse repeated ≫= get_nodes_arrays (H := dec_float_conv)
   = Ok ([1; 2; 1]%Z,
         [((0, 0), (0, 0), (0, 0)); ((1, 0), (0, 0), (0, 0));
          ((0, 0), (25, -1), (0, 0))]%Z)).
Proof. repeat split; vm_compute; reflexivity. Qed.

(** ** Block 402: last wins *)

(** C9, as stated, fails after a malformed record: the extractor resumes
    one line further and reads the following lines out of step, so the
    last record of an ID may not be read at all.  Here the property 7 is
    written three times, the second time with a malformed ID line; the
    record that comes last in file order is [Copper], material 5, and the
    entry of 7 is [Steel], material 3. *)
Lemma C9_counterexample :
  let record7 (first title : string) :=
    [first; title; "0,0,0,0,"; "0,"; "0,"; "0,"; "0,"] in
  let blocks : gmap Z (list FEMAPBlock) :=
    {[ 402%Z := [ {| block_id := 402;
                     lines := record7 "7,110,3,25,1,0," "Steel," ++
                              record7 "x,110,4,25,1,0," "Bad," ++
                              record7 "7,110,5,25,1,0," "Copper," |} ] ]} in
  written_property (record7 "7,110,5,25,1,0," "Copper,")
  = Some (7%Z, {| material_id := 5; prop_title := "Copper" |}) /\
  get_properties blocks
  = Ok {[ 7%Z := {| material_id := 3; prop_title := "Steel" |};
          0%Z := {| material_id := 0; prop_title := "0" |} ]}.
Proof. split; vm_compute; reflexivity. Qed.

(** The iteration at the first line of a well-formed record reads it and
    goes seven lines further. *)
Lemma properties_step_written (record rest : list string) (r : Z * property) :
  length record = 7%nat -> written_property record = Some r ->
  properties_step (record ++ rest) 0 = Ok (7%nat, Some r).
Proof.
  intros Hlen Hw.
  destruct record as [|l0 [|l1 [|l2 [|l3 [|l4 [|l5 [|l6 [|]]]]]]]]; try done.
  unfold written_property in Hw. unfold properties_step, property_record, title_at.
  cbn [nth app] in *.
  destruct (_parse_csv_line_fast l0) as [|p0 [|p1 [|p2 parts]]]; try done.
  destruct (c_int p0) as [prop_id| |] eqn:H0; try done.
  destruct (c_int p2) as [mat| |] eqn:H2; try done.
  injection Hw as <-. cbn [length Nat.leb item nth_error]. simpl.
  rewrite H0. simpl. by rewrite H2.
Qed.

Lemma scan_written_properties (records : list (list string)) :
  well_formed_properties records ->
  forall fuel (d : gmap Z property),
    (length records <= fuel)%nat ->
    scan_from properties_step put fuel (concat records) 0 d
    = Ok (length (concat records),
          dict_of_records (omap written_property records) d).
Proof.
  induction 1 as [|record records [Hlen [r Hw]] _ IH]; intros fuel d Hfuel.
  - by destruct fuel.
  - destruct fuel as [|fuel]; [simpl in Hfuel; lia|].
    cbn [concat omap list_omap]. rewrite Hw.
    rewrite scan_from_step with (i' := 7%nat) (ev := Some r).
    + pose proof (scan_from_shift properties_step properties_step_shift put fuel
                    record (concat records) 0 (put d (Some r))) as Hs.
      rewrite Hlen in Hs. cbn [Nat.add] in Hs. rewrite Hs.
      rewrite IH by (simpl in Hfuel; lia). simpl.
      rewrite length_app, Hlen. by destruct r.
    + rewrite length_app, Hlen. lia.
    + by apply properties_step_written.
Qed.

Lemma concat_well_formed_length (records : list (list string)) :
  well_formed_properties records -> (length records <= length (concat records))%nat.
Proof.
  induction 1 as [|record records [Hlen _] _ IH]; [done|].
  simpl. rewrite length_app. lia.
Qed.

Lemma get_written_properties (written : list (list (list string))) :
  Forall well_formed_properties written ->
  forall (bs : list FEMAPBlock) (d : gmap Z property),
    lines <$> bs = @concat string <$> written ->
    scan_blocks properties_step put bs d
    = Ok (dict_of_records (omap written_property (concat written)) d).
Proof.
  induction 1 as [|records written Hwf _ IH]; intros bs d Hbs.
  - by destruct bs.
  - destruct bs as [|b bs]; [done|]. injection Hbs as Hb Hbs.
    cbn [scan_blocks concat]. unfold scan_lines. rewrite Hb.
    rewrite (scan_written_properties records Hwf)
      by by apply concat_well_formed_length.
    simpl. rewrite (IH bs _ Hbs), omap_app.
    unfold dict_of_records. by rewrite fold_left_app.
Qed.

Lemma dict_of_records_key {V : Type} (recs : list (Z * V)) (id : Z) :
  is_Some (dict_of_records recs ∅ !! id) <-> id ∈ recs.*1.
Proof.
  induction recs as [|[id' c'] recs IH] using rev_ind.
  - unfold dict_of_records. simpl. rewrite lookup_empty. split.
    + by intros [? ?].
    + by intros ?%elem_of_nil.
  - rewrite dict_of_records_snoc, fmap_app, elem_of_app. simpl.
    destruct (decide (id' = id)) as [->|Hne].
    + rewrite lookup_insert_eq. split; [intros _; right; constructor|eauto].
    + rewrite lookup_insert_ne by done. rewrite IH. split; [by left|].
      intros [Hin|Hin]; [done|].
      apply elem_of_cons in Hin as [Hin|Hin]; [by subst|by apply elem_of_nil in Hin].
Qed.

(** C9 (amended): in a file whose blocks 402 are made of well-formed
    seven-line records and nothing else ([written] gives, block instance
    by block instance, the records as written), [get_properties] returns
    a dictionary that has an entry for exactly the property IDs written
    in the file, one entry per ID: every entry is a record of the file,
    and for every record that no later record with the same ID follows in
    file order (within its block instance or in a later one), the entry of
    its ID has the material ID and the title of that record. *)
Theorem C9_properties_last_wins (blocks : gmap Z (list FEMAPBlock))
    (written : list (list (list string))) :
  let recs := omap written_property (concat written) in
  lines <$> get_blocks blocks 402 = @concat string <$> written ->
  Forall well_formed_properties written ->
  exists props : gmap Z property,
    get_properties blocks = Ok props /\
    (forall id, is_Some (props !! id) <-> id ∈ recs.*1) /\
    (forall id p, props !! id = Some p -> (id, p) ∈ recs) /\
    (forall k id p, recs !! k = Some (id, p) ->
       (forall k' p', (k < k')%nat -> recs !! k' <> Some (id, p')) ->
       props !! id = Some p).
Proof.
  intros recs Hbs Hwf. exists (dict_of_records recs ∅).
  split; [|split; [|split]].
  - unfold get_properties. by apply get_written_properties.
  - apply dict_of_records_key.
  - intros id p. apply dict_of_records_elem.
  - intros k id p. apply dict_of_records_last.
Qed.

(** The property 7 written three times, in two block instances: its entry
    is the third record. *)
Lemma C9_witness :
  let record7 (first title : string) :=
    [first; title; "0,0,0,0,"; "0,"; "0,"; "0,"; "0,"] in
  let written :=
    [ [ record7 "7,110,3,25,1,0," "Steel,"; record7 "7,110,4,25,1,0," "<NULL>,";
        record7 "8,110,4,25,1,0," "Iron," ];
      [ record7 "7,110,5,25,1,0," "Copper," ] ] in
  let blocks : gmap Z (list FEMAPBlock) :=
    {[ 402%Z := (fun records => {| block_id := 402; lines := concat records |})
                <$> written ]} in
  exists props : gmap Z property,
    get_properties blocks = Ok props /\
    props !! 7%Z = Some {| material_id := 5; prop_title := "Copper" |} /\
    props !! 8%Z = Some {| material_id := 4; prop_title := "Iron" |} /\
    props !! 9%Z = None.
Proof.
  intros record7 written blocks.
  destruct (C9_properties_last_wins blocks written) as (props & Hget & Hkey & _ & Hlast).
  - reflexivity.
  - repeat constructor; vm_compute; eauto.
  - exists props. split; [exact Hget|]. split; [|split].
    + apply (Hlast 3%nat); [reflexivity|].
      intros k' p' Hk'. destruct k' as [|[|[|[|k']]]]; try lia. discriminate.
    + apply (Hlast 2%nat); [reflexivity|].
      intros k' p' Hk'. destruct k' as [|[|[|[|k']]]]; try lia; discriminate.
    + apply eq_None_not_Some. rewrite Hkey. vm_compute.
      intros Hin. repeat (apply elem_of_cons in Hin as [Hin|Hin]; [discriminate|]).
      by apply elem_of_nil in Hin.
Defined.

(** ** Malformed records in every extractor *)


